(** * ProactiveBot: jobs, proactive resume and the onboarding dialogs

    A shallow embedding of [src/bot.js].  The bot keeps a registry of jobs in
    bot-scoped state, answers the chat commands [run], [show] and [done <id>],
    and on completion of a job re-enters the conversation that created it to
    run one of two waterfall dialogs.

    Layout:
    - [Js]     the JavaScript primitives the bot relies on (strings,
               [parseInt], property keys, plain objects used as maps);
    - [Model]  the data model, the storage, the turn contexts, the turn
               monad (state and exceptions) and the adapter;
    - [Sdk]    the state property accessors and the dialog engine of the
               Bot Framework SDK, as far as the bot observes them;
    - [Bot]    the methods of [ProactiveBot], one definition per method;
    - the classification of the specification, the reasoning principles
      (symbolic runs, invariants of a turn, a frame property) and the
      theorems. *)

From Stdlib Require Import ZArith String Ascii List DecimalString DecimalZ Lia.
From stdpp Require Import base decidable option list strings gmap sorting.

Local Open Scope string_scope.
Local Open Scope Z_scope.

(* ===================================================================== *)
(** ** JavaScript primitives *)
(* ===================================================================== *)

Module Js.

(** The values that reach the bot as a job identifier: [undefined] (a
    missing array element), an integral number, or a string.  Strings are
    sequences of 8-bit characters; only the ASCII range is given a case
    mapping or a white-space class. *)
Inductive JsValue :=
| VUndefined
| VNum (z : Z)
| VStr (s : string).

#[global] Instance JsValue_eq_dec : EqDecision JsValue.
Proof. solve_decision. Defined.

(** [ToString]: what a template literal, a property access [o[v]] and
    [parseInt] see of a value.  Numbers are integral and print in plain
    decimal notation. *)
Definition ToString (v : JsValue) : string :=
  match v with
  | VUndefined => "undefined"
  | VNum z => NilZero.string_of_int (Z.to_int z)
  | VStr s => s
  end.

Definition is_ws (c : ascii) : bool :=
  let n := N_of_ascii c in
  (N.eqb n 32 || (N.leb 9 n && N.leb n 13))%bool.

Fixpoint trimStart (s : string) : string :=
  match s with
  | EmptyString => EmptyString
  | String c s' => if is_ws c then trimStart s' else s
  end.

(** [String.prototype.trim] *)
Definition trim (s : string) : string :=
  String.rev (trimStart (String.rev (trimStart s))).

Definition lower_char (c : ascii) : ascii :=
  let n := N_of_ascii c in
  if (N.leb 65 n && N.leb n 90)%bool then ascii_of_N (n + 32) else c.

(** [String.prototype.toLowerCase] *)
Fixpoint toLowerCase (s : string) : string :=
  match s with
  | EmptyString => EmptyString
  | String c s' => String (lower_char c) (toLowerCase s')
  end.

(** [s.split(sep)] for a one-character separator: never empty, and the
    empty string splits into one empty word. *)
Fixpoint split (sep : ascii) (s : string) : list string :=
  match s with
  | EmptyString => [EmptyString]
  | String c s' =>
      if Ascii.eqb c sep then EmptyString :: split sep s'
      else match split sep s' with
           | w :: ws => String c w :: ws
           | [] => [String c EmptyString]
           end
  end.

(** [parts.join(sep)] *)
Fixpoint join (sep : string) (parts : list string) : string :=
  match parts with
  | [] => EmptyString
  | [p] => p
  | p :: ps => p ++ sep ++ join sep ps
  end.

Definition digit_val (radix : Z) (c : ascii) : option Z :=
  let n := Z.of_N (N_of_ascii c) in
  let d := if (Z.leb 48 n && Z.leb n 57)%bool then Some (n - 48)
           else if (Z.leb 97 n && Z.leb n 122)%bool then Some (n - 87)
           else if (Z.leb 65 n && Z.leb n 90)%bool then Some (n - 55)
           else None in
  match d with
  | Some k => if Z.ltb k radix then Some k else None
  | None => None
  end.

(** The longest prefix of digits, as a number; [None] when it is empty. *)
Fixpoint digits_prefix (radix : Z) (acc : option Z) (s : string) : option Z :=
  match s with
  | EmptyString => acc
  | String c s' =>
      match digit_val radix c with
      | Some d => digits_prefix radix (Some (default 0 acc * radix + d)) s'
      | None => acc
      end
  end.

(** [parseInt(v)] with no radix argument: leading white space is skipped,
    then an optional sign, then a [0x] prefix selects base 16.  [None] is
    [NaN].  The result is the exact integer; the rounding of the real
    function to a double does not change whether it is [NaN]. *)
Definition parseInt (v : JsValue) : option Z :=
  let s := trimStart (ToString v) in
  let '(sign, s1) :=
    match s with
    | String "-" r => (-1, r)
    | String "+" r => (1, r)
    | _ => (1, s)
    end in
  let '(radix, s2) :=
    match s1 with
    | String "0" (String "x" r) => (16, r)
    | String "0" (String "X" r) => (16, r)
    | _ => (10, s1)
    end in
  Z.mul sign <$> digits_prefix radix None s2.

Definition isNaN (n : option Z) : bool :=
  match n with None => true | Some _ => false end.

(** [words[i]]: out of range reads give [undefined]. *)
Definition at_index (words : list string) (i : nat) : JsValue :=
  match words !! i with
  | Some w => VStr w
  | None => VUndefined
  end.

(** A plain object used as a map: its own properties in creation order.
    The order of the list is only that of the model: what JavaScript
    shows of the order of the keys is [Object_keys] below. *)
Definition JsObject (A : Type) := list (string * A).

Fixpoint obj_get {A} (o : JsObject A) (k : string) : option A :=
  match o with
  | [] => None
  | (k', v) :: o' => if decide (k' = k) then Some v else obj_get o' k
  end.

(** [o[k] = v]: an existing property keeps its place. *)
Fixpoint obj_set {A} (o : JsObject A) (k : string) (v : A) : JsObject A :=
  match o with
  | [] => [(k, v)]
  | (k', v') :: o' =>
      if decide (k' = k) then (k, v) :: o' else (k', v') :: obj_set o' k v
  end.

(** A key is an array index when it is the canonical decimal form of an
    integer below [2^32 - 1]. *)
Definition index_of_key (k : string) : option N :=
  match NilZero.uint_of_string k with
  | Some d =>
      let n := N.of_uint d in
      if decide (ToString (VNum (Z.of_N n)) = k ∧ (n < 4294967295)%N)
      then Some n else None
  | None => None
  end.

Definition index_keys (ks : list string) : list (N * string) :=
  omap (λ k, (λ n, (n, k)) <$> index_of_key k) ks.

Definition is_index_key (k : string) : bool :=
  match index_of_key k with Some _ => true | None => false end.

Definition index_le (a b : N * string) : Prop := (a.1 ≤ b.1)%N.

#[global] Instance index_le_dec : RelDecision index_le.
Proof. intros a b. unfold index_le. apply _. Defined.

(** [Object.keys(o)]: array-index keys in ascending numeric order, then
    the other keys in creation order. *)
Definition Object_keys {A} (o : JsObject A) : list string :=
  let ks := o.*1 in
  (merge_sort index_le (index_keys ks)).*2
    ++ List.filter (λ k, negb (is_index_key k)) ks.

End Js.

Import Js.

(* ===================================================================== *)
(** ** Data model, storage, turn contexts and the turn monad *)
(* ===================================================================== *)

Module Model.

(** *** Data *)

(** The part of a conversation reference the bot looks at: the id of the
    conversation (shown by [show], key of the conversation scope) and the
    id of the user (key of the user scope). *)
Record ConversationReference := {
  conversation_id : string;
  user_id : string
}.

Record JobRecord := {
  completed : bool;
  reference : ConversationReference
}.

(** The [jobs] object: property key (the job id as a string) to record. *)
Abbreviation Jobs := (JsObject JobRecord).

(** The [user] object; an absent property is [None]. *)
Record UserProfile := {
  name : option string;
  city : option string
}.

Definition empty_profile : UserProfile := {| name := None; city := None |}.

(** One entry of [dialogStack]: the id of the dialog with the state it
    persists (the step index of a waterfall, the prompt text of a prompt).
    The head of the list is the active dialog. *)
Inductive DialogInstance :=
| WaterfallInstance (id : string) (stepIndex : nat)
| PromptInstance (id : string) (prompt : string).

Abbreviation DialogStack := (list DialogInstance).

Inductive ActivityType := Message | Event | ConversationUpdate | OtherType.

Record Activity := {
  act_type : ActivityType;
  act_text : option string;
  act_name : option string;
  act_value : JsValue;
  act_membersAdded : list (option string);   (* the names of the members *)
  act_reference : ConversationReference
}.

#[global] Instance ConversationReference_eq_dec : EqDecision ConversationReference.
Proof. solve_decision. Defined.
#[global] Instance JobRecord_eq_dec : EqDecision JobRecord.
Proof. solve_decision. Defined.
#[global] Instance UserProfile_eq_dec : EqDecision UserProfile.
Proof. solve_decision. Defined.
#[global] Instance DialogInstance_eq_dec : EqDecision DialogInstance.
Proof. solve_decision. Defined.
#[global] Instance ActivityType_eq_dec : EqDecision ActivityType.
Proof. solve_decision. Defined.

(** *** Storage and world *)

(** The three state scopes.  A scope that was never written reads as the
    default its accessor is given ([{}], an empty stack). *)
Record Storage := {
  bot_jobs : Jobs;
  user_profiles : gmap string UserProfile;
  dialog_states : gmap string DialogStack
}.

Record Sent := {
  sent_to : ConversationReference;
  sent_text : string
}.

(** What outlives a turn: the storage, the activities delivered so far
    (oldest first) and the references [continueConversation] was called
    with. *)
Record World := {
  storage : Storage;
  outbox : list Sent;
  resumes : list ConversationReference
}.

Definition empty_storage : Storage :=
  {| bot_jobs := []; user_profiles := ∅; dialog_states := ∅ |}.

Definition empty_world : World :=
  {| storage := empty_storage; outbox := []; resumes := [] |}.

Definition profile_of (st : Storage) (r : ConversationReference) : UserProfile :=
  default empty_profile (user_profiles st !! user_id r).

Definition stack_of (st : Storage) (r : ConversationReference) : DialogStack :=
  default [] (dialog_states st !! conversation_id r).

(** *** Turn contexts *)

(** A scope as a turn context caches it: the value read from storage and
    the value as the turn has changed it. *)
Record Cached (A : Type) := { loaded : A; current : A }.
Arguments loaded {A} _.
Arguments current {A} _.

Record TurnContext := {
  activity : Activity;
  responded : bool;
  bot_cache : option (Cached Jobs);
  user_cache : option (Cached UserProfile);
  conv_cache : option (Cached DialogStack)
}.

Definition new_context (a : Activity) : TurnContext :=
  {| activity := a; responded := false;
     bot_cache := None; user_cache := None; conv_cache := None |}.

(** The two contexts a turn can hold: its own and the one the adapter
    creates for a proactive resume. *)
Inductive Ctx := Turn | Proactive.

#[global] Instance Ctx_eq_dec : EqDecision Ctx.
Proof. solve_decision. Defined.

Record State := {
  world : World;
  turn : TurnContext;
  proactive : TurnContext
}.

Definition ctx (c : Ctx) (s : State) : TurnContext :=
  match c with Turn => turn s | Proactive => proactive s end.

Definition set_ctx (c : Ctx) (tc : TurnContext) (s : State) : State :=
  match c with
  | Turn => {| world := world s; turn := tc; proactive := proactive s |}
  | Proactive => {| world := world s; turn := turn s; proactive := tc |}
  end.

Definition set_world (w : World) (s : State) : State :=
  {| world := w; turn := turn s; proactive := proactive s |}.

Definition set_storage (st : Storage) (w : World) : World :=
  {| storage := st; outbox := outbox w; resumes := resumes w |}.

Definition reference_of (c : Ctx) (s : State) : ConversationReference :=
  act_reference (activity (ctx c s)).

(** *** The turn monad: state and exceptions *)

Inductive Result (A : Type) :=
| Ok (a : A) (s : State)
| Threw (err : string) (s : State).
Arguments Ok {A} _ _.
Arguments Threw {A} _ _.

Definition M (A : Type) : Type := State → Result A.

#[global] Instance M_ret : MRet M := λ A a s, Ok a s.

#[global] Instance M_bind : MBind M := λ A B f m s,
  match m s with
  | Ok a s' => f a s'
  | Threw e s' => Threw e s'
  end.

Definition throw {A} (err : string) : M A := λ s, Threw err s.

(** [try { m } catch (err) { h(err.message) }] *)
Definition try_catch {A} (m : M A) (h : string → M A) : M A := λ s,
  match m s with
  | Ok a s' => Ok a s'
  | Threw e s' => h e s'
  end.

(** The empty statement. *)
Definition skip : M unit := mret tt.

Definition gets {A} (f : State → A) : M A := λ s, Ok (f s) s.
Definition modify (f : State → State) : M unit := λ s, Ok tt (f s).

Definition final_state {A} (r : Result A) : State :=
  match r with Ok _ s => s | Threw _ s => s end.

Definition thrown {A} (r : Result A) : option string :=
  match r with Ok _ _ => None | Threw e _ => Some e end.

(** *** The adapter *)

(** What the adapter can do with a stored reference: reach it, reject it
    when asked to resume, or fail when an activity is sent to it. *)
Inductive Reach := Reachable | InvalidReference | Unreachable.

#[global] Instance Reach_eq_dec : EqDecision Reach.
Proof. solve_decision. Defined.

Abbreviation BotAdapter := (ConversationReference → Reach).

Definition deliver (c : Ctx) (text : string) (s : State) : State :=
  let tc := ctx c s in
  let w := world s in
  set_ctx c {| activity := activity tc; responded := true;
               bot_cache := bot_cache tc; user_cache := user_cache tc;
               conv_cache := conv_cache tc |}
    (set_world {| storage := storage w;
                  outbox := outbox w ++ [{| sent_to := act_reference (activity tc);
                                            sent_text := text |}];
                  resumes := resumes w |} s).

(** [context.sendActivity(text)].  The context of the turn answers a live
    request; the proactive context needs the adapter to reach the stored
    reference. *)
Definition sendActivity (adapter : BotAdapter) (c : Ctx) (text : string) : M unit := λ s,
  match c, adapter (reference_of c s) with
  | Turn, _ | Proactive, Reachable => Ok tt (deliver c text s)
  | Proactive, _ => Threw "sendActivity: the conversation cannot be reached" s
  end.

(** The activity of the context the adapter builds from a reference. *)
Definition continuation_activity (r : ConversationReference) : Activity :=
  {| act_type := Event; act_text := None;
     act_name := Some "continueConversation"; act_value := VUndefined;
     act_membersAdded := []; act_reference := r |}.

(** [adapter.continueConversation(reference, logic)] *)
Definition continueConversation (adapter : BotAdapter)
    (r : ConversationReference) (logic : M unit) : M unit := λ s,
  let w := world s in
  let s1 := set_world {| storage := storage w; outbox := outbox w;
                         resumes := resumes w ++ [r] |} s in
  match adapter r with
  | InvalidReference => Threw "continueConversation: invalid conversation reference" s1
  | _ => logic (set_ctx Proactive (new_context (continuation_activity r)) s1)
  end.

(** The state a turn starts in: the world, a fresh context for the
    activity, and no proactive context yet (the slot holds a fresh one, which
    [continueConversation] replaces before anything looks at it). *)
Definition start (a : Activity) (w : World) : State :=
  {| world := w; turn := new_context a;
     proactive := new_context (continuation_activity (act_reference a)) |}.

End Model.

Import Model.

(* ===================================================================== *)
(** ** The SDK as the bot uses it: state properties and dialogs *)
(* ===================================================================== *)

Module Sdk.

(** *** State property accessors

    A state scope (bot, user, conversation) is read from storage the first
    time a context touches it and cached in the context; the object the
    accessor returns is the cached one, so that assigning to it changes the
    cache.  [saveChanges] writes a cached scope back when it differs from
    what was read.  (The SDK also writes the default it put in a scope that
    had nothing stored; such a record reads as the default, so the two
    storages read the same.) *)

Record Scope (A : Type) := {
  sc_cache : TurnContext → option (Cached A);
  sc_set_cache : option (Cached A) → TurnContext → TurnContext;
  sc_read : Storage → ConversationReference → A;
  sc_write : ConversationReference → A → Storage → Storage
}.
Arguments sc_cache {A} _ _.
Arguments sc_set_cache {A} _ _ _.
Arguments sc_read {A} _ _ _.
Arguments sc_write {A} _ _ _ _.

(** [botState.createProperty('jobs')] *)
Definition bot_scope : Scope Jobs := {|
  sc_cache := bot_cache;
  sc_set_cache v tc :=
    {| activity := activity tc; responded := responded tc;
       bot_cache := v; user_cache := user_cache tc; conv_cache := conv_cache tc |};
  sc_read st _ := bot_jobs st;
  sc_write _ v st :=
    {| bot_jobs := v; user_profiles := user_profiles st;
       dialog_states := dialog_states st |}
|}.

(** [userState.createProperty('user')] *)
Definition user_scope : Scope UserProfile := {|
  sc_cache := user_cache;
  sc_set_cache v tc :=
    {| activity := activity tc; responded := responded tc;
       bot_cache := bot_cache tc; user_cache := v; conv_cache := conv_cache tc |};
  sc_read := profile_of;
  sc_write r v st :=
    {| bot_jobs := bot_jobs st;
       user_profiles := <[user_id r := v]> (user_profiles st);
       dialog_states := dialog_states st |}
|}.

(** [conversationState.createProperty('dialog_state')] *)
Definition conv_scope : Scope DialogStack := {|
  sc_cache := conv_cache;
  sc_set_cache v tc :=
    {| activity := activity tc; responded := responded tc;
       bot_cache := bot_cache tc; user_cache := user_cache tc; conv_cache := v |};
  sc_read := stack_of;
  sc_write r v st :=
    {| bot_jobs := bot_jobs st;
       user_profiles := user_profiles st;
       dialog_states := <[conversation_id r := v]> (dialog_states st) |}
|}.

Section Accessors.
Context {A : Type} `{EqDecision A} (sc : Scope A).

Definition load (c : Ctx) : M (Cached A) := λ s,
  match sc_cache sc (ctx c s) with
  | Some x => Ok x s
  | None =>
      let v := sc_read sc (storage (world s)) (reference_of c s) in
      let x := {| loaded := v; current := v |} in
      Ok x (set_ctx c (sc_set_cache sc (Some x) (ctx c s)) s)
  end.

(** [property.get(context, default)] *)
Definition property_get (c : Ctx) : M A :=
  x ← load c; mret (current x).

(** [property.set(context, value)] *)
Definition property_set (c : Ctx) (v : A) : M unit :=
  x ← load c;
  modify (λ s, set_ctx c (sc_set_cache sc (Some {| loaded := loaded x; current := v |}) (ctx c s)) s).

(** An assignment to a property of the object [property.get] returned: the
    cached object is the one that changes. *)
Definition assign (c : Ctx) (v : A) : M unit := property_set c v.

(** [state.saveChanges(context)] *)
Definition saveChanges (c : Ctx) : M unit := λ s,
  match sc_cache sc (ctx c s) with
  | Some x =>
      if decide (loaded x = current x) then Ok tt s
      else
        let w := world s in
        let st := sc_write sc (reference_of c s) (current x) (storage w) in
        Ok tt (set_ctx c
                 (sc_set_cache sc (Some {| loaded := current x; current := current x |}) (ctx c s))
                 (set_world (set_storage st w) s))
  | None => Ok tt s
  end.

End Accessors.

(** *** Dialogs *)

(** What a waterfall step is handed: the context of the turn, the result of
    the prompt that just ended, and the two operations the steps of this bot
    call. *)
Record WaterfallStepContext := {
  step_context : Ctx;
  step_result : option string;
  step_prompt : string → string → M unit;
  step_endDialog : option string → M unit
}.

Abbreviation WaterfallStep := (WaterfallStepContext → M unit).

Inductive Dialog :=
| TextPrompt
| WaterfallDialog (steps : list WaterfallStep).

Section DialogEngine.
Context (adapter : BotAdapter) (dialogs : JsObject Dialog).

(** [dialogs.createContext(context)]: reads the dialog stack of the
    conversation. *)
Definition createContext (c : Ctx) : M unit :=
  _ ← load conv_scope c; skip.

Definition get_stack (c : Ctx) : M DialogStack := property_get conv_scope c.
Definition set_stack (c : Ctx) (stk : DialogStack) : M unit := assign conv_scope c stk.

Definition steps_of (id : string) : list WaterfallStep :=
  match obj_get dialogs id with
  | Some (WaterfallDialog steps) => steps
  | _ => []
  end.

(** [dc.prompt(id, text)] for a text prompt: the prompt becomes the active
    dialog and its text is sent. *)
Definition prompt (c : Ctx) (id text : string) : M unit :=
  match obj_get dialogs id with
  | Some TextPrompt =>
      stk ← get_stack c;
      set_stack c (PromptInstance id text :: stk);;
      sendActivity adapter c text
  | _ => throw ("DialogContext.prompt(): no prompt with an id of '" ++ id ++ "'.")
  end.

Definition set_stepIndex (c : Ctx) (index : nat) : M unit :=
  stk ← get_stack c;
  match stk with
  | WaterfallInstance id _ :: rest => set_stack c (WaterfallInstance id index :: rest)
  | _ => skip
  end.

(** [WaterfallDialog.runStep]: run step [index], or end the waterfall when
    there is no such step.  [end_] ends this waterfall. *)
Definition runStep (c : Ctx) (steps : list WaterfallStep) (index : nat)
    (result : option string) (end_ : option string → M unit) : M unit :=
  match steps !! index with
  | Some f =>
      set_stepIndex c index;;
      f {| step_context := c; step_result := result;
           step_prompt := prompt c; step_endDialog := end_ |}
  | None => end_ result
  end.

(** [dc.endDialog(result)] with [stk] the stack at the call: the active
    dialog is popped and its parent resumed.  A waterfall resumes with its
    next step, a prompt by sending its text again. *)
Fixpoint endDialog_from (c : Ctx) (stk : DialogStack) (result : option string) : M unit :=
  match stk with
  | [] => skip
  | _ :: parent =>
      set_stack c parent;;
      match parent with
      | [] => skip
      | PromptInstance _ text :: _ => sendActivity adapter c text
      | WaterfallInstance id index :: _ =>
          runStep c (steps_of id) (S index) result (endDialog_from c parent)
      end
  end.

(** [dc.beginDialog(id)] for a waterfall. *)
Definition beginDialog (c : Ctx) (id : string) : M unit :=
  match obj_get dialogs id with
  | Some (WaterfallDialog steps) =>
      stk ← get_stack c;
      let stk' := WaterfallInstance id 0 :: stk in
      set_stack c stk';;
      runStep c steps 0 None (endDialog_from c stk')
  | _ => throw ("DialogContext.beginDialog(): no waterfall with an id of '" ++ id ++ "'.")
  end.

(** A prompt that did not get an answer sends its text again, unless the
    turn has already replied. *)
Definition reprompt (c : Ctx) (text : string) : M unit :=
  r ← gets (λ s, responded (ctx c s));
  if (r : bool) then skip else sendActivity adapter c text.

(** [dc.continueDialog()]: a prompt takes a non-empty text as its answer
    and ends, and otherwise prompts again; with no active dialog nothing
    happens. *)
Definition continueDialog (c : Ctx) : M unit :=
  stk ← get_stack c;
  a ← gets (λ s, activity (ctx c s));
  match stk with
  | [] => skip
  | PromptInstance _ text :: _ =>
      if decide (act_type a = Message) then
        match act_text a with
        | Some t =>
            if decide (t = EmptyString) then reprompt c text
            else endDialog_from c stk (Some t)
        | None => reprompt c text
        end
      else skip
  | WaterfallInstance id index :: _ =>
      if decide (act_type a = Message) then
        runStep c (steps_of id) (S index) (act_text a) (endDialog_from c stk)
      else skip
  end.

End DialogEngine.

End Sdk.

Import Sdk.

(* ===================================================================== *)
(** ** The bot *)
(* ===================================================================== *)

Module Bot.

Definition WHO_ARE_YOU := "who_are_you".
Definition HELLO_USER := "hello_user".

Definition NAME_PROMPT := "name_prompt".
Definition CITY_PROMPT := "city_prompt".

(** [x] in [`${x}`] for a string that may be undefined. *)
Definition template (x : option string) : string := default "undefined" x.

(** [if (x)] for a string that may be undefined. *)
Definition truthy (x : option string) : bool :=
  match x with
  | Some s => if decide (s = EmptyString) then false else true
  | None => false
  end.

(** [if (r)] for an object. *)
Definition truthy_object {A} (_ : A) : bool := true.

Definition show_bool (b : bool) : string := if b then "true" else "false".

(** Helper function to check if object is empty: no own property.  A job
    record has two, [undefined] has none. *)
Definition isEmpty (obj : option JobRecord) : bool :=
  match obj with
  | Some _ => false
  | None => true
  end.

(** [date.getMilliseconds()] of the instant [now], in milliseconds since
    the epoch. *)
Definition getMilliseconds (now : Z) : Z := now mod 1000.

Section ProactiveBot.
Context (adapter : BotAdapter).

Definition promptForName (step : WaterfallStepContext) : M unit :=
  step_prompt step NAME_PROMPT "What is your name?".

Definition promptForCity (step : WaterfallStepContext) : M unit :=
  user ← property_get user_scope (step_context step);
  let user := {| name := step_result step; city := city user |} in
  assign user_scope (step_context step) user;;
  property_set user_scope (step_context step) user;;
  step_prompt step CITY_PROMPT "What city are you from?".

Definition captureCity (step : WaterfallStepContext) : M unit :=
  user ← property_get user_scope (step_context step);
  let user := {| name := name user; city := step_result step |} in
  assign user_scope (step_context step) user;;
  property_set user_scope (step_context step) user;;
  step_endDialog step None.

Definition displayProfile (step : WaterfallStepContext) : M unit :=
  user ← property_get user_scope (step_context step);
  sendActivity adapter (step_context step)
    ("Hello, " ++ template (name user) ++ " from " ++ template (city user));;
  step_endDialog step None.

(** The dialog set the constructor fills. *)
Definition dialogs : JsObject Dialog :=
  [ (NAME_PROMPT, TextPrompt);
    (CITY_PROMPT, TextPrompt);
    (WHO_ARE_YOU, WaterfallDialog [promptForName; promptForCity; captureCity]);
    (HELLO_USER, WaterfallDialog [displayProfile]) ].

(** Save job ID and conversation reference. *)
Definition createJob (turnContext : Ctx) (now : Z) : M unit :=
  let jobIdNumber := VNum (getMilliseconds now) in
  reference ← gets (reference_of turnContext);
  jobs ← property_get bot_scope turnContext;
  let jobInfo := obj_get jobs (ToString jobIdNumber) in
  try_catch
    (if isEmpty jobInfo then
       sendActivity adapter turnContext
         ("Need to create new job ID: " ++ ToString jobIdNumber);;
       let jobs := obj_set jobs (ToString jobIdNumber)
                     {| completed := false; reference := reference |} in
       assign bot_scope turnContext jobs;;
       try_catch
         (property_set bot_scope turnContext jobs;;
          sendActivity adapter turnContext "Successful write to log.")
         (λ err, sendActivity adapter turnContext ("Write failed: " ++ err))
     else skip)
    (λ err, sendActivity adapter turnContext ("Read rejected. " ++ err)).

(** The logic [completeJob] hands to [continueConversation]. *)
Definition notify (turnContext : Ctx) (jobs : Jobs) (jobInfo : JobRecord)
    (jobIdNumber : JsValue) : M unit :=
  let jobs := obj_set jobs (ToString jobIdNumber)
                {| completed := true; reference := reference jobInfo |} in
  assign bot_scope turnContext jobs;;
  property_set bot_scope turnContext jobs;;
  sendActivity adapter Proactive
    ("Your queued job " ++ ToString jobIdNumber ++ " just completed.");;
  createContext Proactive;;
  user ← property_get user_scope Proactive;
  (if truthy (city user)
   then beginDialog adapter dialogs Proactive HELLO_USER
   else beginDialog adapter dialogs Proactive WHO_ARE_YOU);;
  saveChanges conv_scope Proactive.

Definition completeJob (turnContext : Ctx) (jobIdNumber : JsValue) : M unit :=
  jobs ← property_get bot_scope turnContext;
  let jobInfo := obj_get jobs (ToString jobIdNumber) in
  if isEmpty jobInfo then
    sendActivity adapter turnContext
      ("Sorry no job with ID " ++ ToString jobIdNumber ++ ".")
  else
    match jobInfo with
    | None => skip
    | Some jobInfo =>
        let reference := reference jobInfo in
        let completed := completed jobInfo in
        if (truthy_object reference && negb completed)%bool then
          continueConversation adapter reference
            (notify turnContext jobs jobInfo jobIdNumber);;
          sendActivity adapter turnContext "Job completed. Notification sent."
        else if completed then
          sendActivity adapter turnContext
            "This job is already completed, please start a new job."
        else skip
    end.

(** One line of the table of [showJobs]; [None] where the original would
    read a property of [undefined]. *)
Definition job_row (jobs : Jobs) (key : string) : option string :=
  job ← obj_get jobs key;
  Some (key ++ " &nbsp; | "
        ++ List.hd EmptyString (split "|" (conversation_id (reference job)))
        ++ " &nbsp; | " ++ show_bool (completed job)).

Definition table_header : string :=
  "| Job number &nbsp; | Conversation ID &nbsp; | Completed |<br>"
  ++ "| :--- | :---: | :---: |<br>".

(** Show a list of the pending jobs. *)
Definition showJobs (turnContext : Ctx) : M unit :=
  jobs ← property_get bot_scope turnContext;
  if decide (length (Object_keys jobs) ≠ 0%nat) then
    match mapM (job_row jobs) (Object_keys jobs) with
    | Some rows =>
        sendActivity adapter turnContext (table_header ++ join "<br>" rows)
    | None => throw "TypeError: Cannot read property 'reference' of undefined"
    end
  else sendActivity adapter turnContext "The job log is empty.".

Definition dquote : string := String (ascii_of_N 34) EmptyString.

Definition usage_hint : string :=
  "Enter the job ID number after " ++ dquote ++ "done" ++ dquote ++ ".".

Definition help_text : string :=
  "Say " ++ dquote ++ "run" ++ dquote ++ " to start a job, "
  ++ dquote ++ "show" ++ dquote ++ " to view running jobs, or "
  ++ dquote ++ "done <job number>" ++ dquote ++ " to complete a job.".

(** The command part of a message turn: the chain of [if]s on the
    utterance. *)
Definition onMessage (turnContext : Ctx) (now : Z) (utterance : string) : M unit :=
  if decide (utterance = "run") then createJob turnContext now
  else if decide (utterance = "show") then showJobs turnContext
  else if decide (at_index (split " " utterance) 0 = VStr "done") then
    let words := split " " utterance in
    if negb (isNaN (parseInt (at_index words 1))) then
      let jobIdNumber := at_index words 1 in
      completeJob turnContext jobIdNumber
    else if bool_decide (at_index words 0 = VStr "done")
            && (bool_decide (length words < 2)%nat
                || isNaN (parseInt (at_index words 1))) then
      sendActivity adapter turnContext usage_hint
    else skip
  else skip.

Definition onTurn (turnContext : Ctx) (now : Z) : M unit :=
  a ← gets (λ s, activity (ctx turnContext s));
  (if decide (act_type a = Message) then
     let utterance := toLowerCase (trim (default EmptyString (act_text a))) in
     createContext turnContext;;
     onMessage turnContext now utterance;;
     r ← gets (λ s, responded (ctx turnContext s));
     if (r : bool) then skip else continueDialog adapter dialogs turnContext
   else if bool_decide (act_type a = Event)
           && bool_decide (act_name a = Some "jobCompleted") then
     let jobIdNumber := act_value a in
     if negb (isNaN (parseInt jobIdNumber)) then completeJob turnContext jobIdNumber
     else skip
   else if decide (act_type a = ConversationUpdate) then
     match act_membersAdded a with
     | [] => throw "TypeError: Cannot read property 'name' of undefined"
     | member :: _ =>
         if decide (member ≠ Some "Bot") then sendActivity adapter turnContext help_text
         else skip
     end
   else skip);;
  saveChanges user_scope turnContext;;
  saveChanges conv_scope turnContext;;
  saveChanges bot_scope turnContext.

(** One inbound activity, from the world before it to the world after it
    and the error that escaped [onTurn], if one did. *)
Definition run_turn (now : Z) (a : Activity) (w : World) : World * option string :=
  let r := onTurn Turn now (start a w) in
  (world (final_state r), thrown r).

End ProactiveBot.

End Bot.

Import Bot.

(* ===================================================================== *)
(** ** The commands as the specification names them *)
(* ===================================================================== *)

Inductive Command :=
| RUN
| SHOW
| DONE (jobId : string)
| DONE_MISSING_ID
| UNRECOGNIZED.

(** The text of a message, trimmed and in lower case. *)
Definition utterance_of (text : option string) : string :=
  toLowerCase (trim (default EmptyString text)).

Definition first_token (u : string) : option string := split " " u !! 0%nat.
Definition second_token (u : string) : option string := split " " u !! 1%nat.

Definition parses_as_integer (token : string) : bool :=
  negb (isNaN (parseInt (VStr token))).

(** The classification of section 4.2 of the specification, written from
    its words. *)
Definition spec_classify (text : option string) : Command :=
  let u := utterance_of text in
  if decide (u = "run") then RUN
  else if decide (u = "show") then SHOW
  else if decide (first_token u = Some "done") then
    match second_token u with
    | Some token => if parses_as_integer token then DONE token else DONE_MISSING_ID
    | None => DONE_MISSING_ID
    end
  else UNRECOGNIZED.

(** The dispatch table of section 4.2. *)
Definition spec_dispatch (adapter : BotAdapter) (c : Ctx) (now : Z)
    (cmd : Command) : M unit :=
  match cmd with
  | RUN => createJob adapter c now
  | SHOW => showJobs adapter c
  | DONE jobId => completeJob adapter c (VStr jobId)
  | DONE_MISSING_ID => sendActivity adapter c usage_hint
  | UNRECOGNIZED => skip
  end.

(** *** Worlds and turns *)

Record TurnInput := {
  in_adapter : BotAdapter;
  in_now : Z;
  in_activity : Activity
}.

(** A sequence of turns, each with the adapter and the clock it meets. *)
Definition run_turns (turns : list TurnInput) (w : World) : World :=
  foldl (λ w t, (run_turn (in_adapter t) (in_now t) (in_activity t) w).1) w turns.

(** The activities a turn added to the outbox. *)
Definition sent_during (w w' : World) : list Sent :=
  drop (length (outbox w)) (outbox w').

Definition say (r : ConversationReference) (text : string) : Sent :=
  {| sent_to := r; sent_text := text |}.

(** A message activity with the given text. *)
Definition message (r : ConversationReference) (text : string) : Activity :=
  {| act_type := Message; act_text := Some text; act_name := None;
     act_value := VUndefined; act_membersAdded := []; act_reference := r |}.

(** The [jobCompleted] event with the given value. *)
Definition jobCompleted (r : ConversationReference) (value : JsValue) : Activity :=
  {| act_type := Event; act_text := None; act_name := Some "jobCompleted";
     act_value := value; act_membersAdded := []; act_reference := r |}.

Definition jobs_of (w : World) : Jobs := bot_jobs (storage w).

(* ===================================================================== *)
(** ** Reasoning about the turn monad *)
(* ===================================================================== *)

Lemma bind_ok {A B} (m : M A) (f : A → M B) s a s' :
  m s = Ok a s' → (m ≫= f) s = f a s'.
Proof. intros H. unfold mbind, M_bind. by rewrite H. Qed.

Lemma bind_threw {A B} (m : M A) (f : A → M B) s e s' :
  m s = Threw e s' → (m ≫= f) s = Threw e s'.
Proof. intros H. unfold mbind, M_bind. by rewrite H. Qed.

Lemma bind_assoc {A B C} (m : M A) (f : A → M B) (g : B → M C) s :
  ((m ≫= f) ≫= g) s = (m ≫= (λ a, f a ≫= g)) s.
Proof. unfold mbind, M_bind. by destruct (m s). Qed.

Lemma ret_bind {A B} (a : A) (f : A → M B) s : (mret a ≫= f) s = f a s.
Proof. reflexivity. Qed.

Lemma skip_bind {B} (f : unit → M B) s : (skip ≫= f) s = f tt s.
Proof. reflexivity. Qed.

(** *** The command chain refines the classification *)

Lemma split_nonempty sep s : split sep s ≠ [].
Proof.
  destruct s as [|c s]; simpl; [done|].
  destruct (Ascii.eqb c sep); [done|]. by destruct (split sep s).
Qed.

Lemma at_index_VStr words i w : at_index words i = VStr w ↔ words !! i = Some w.
Proof.
  unfold at_index. destruct (words !! i); split; intros H;
    try discriminate; congruence.
Qed.

Lemma onMessage_dispatch adapter c now text :
  onMessage adapter c now (utterance_of text)
  = spec_dispatch adapter c now (spec_classify text).
Proof.
  unfold onMessage, spec_classify.
  set (u := utterance_of text).
  destruct (decide (u = "run")) as [|_]; [done|].
  destruct (decide (u = "show")) as [|_]; [done|].
  unfold first_token, second_token.
  destruct (decide (at_index (split " " u) 0 = VStr "done")) as [Hd|Hd].
  - apply at_index_VStr in Hd as Hd'.
    rewrite decide_True by done.
    rewrite bool_decide_eq_true_2 by done.
    unfold at_index at 1 2 3. unfold parses_as_integer.
    destruct (split " " u !! 1%nat) as [token|] eqn:Htok; simpl.
    + destruct (isNaN (parseInt (VStr token))); simpl; [|done].
      by rewrite orb_true_r.
    + apply lookup_ge_None in Htok.
      rewrite bool_decide_eq_true_2 by lia. done.
  - rewrite decide_False; [done|].
    intros H. apply Hd. by apply at_index_VStr.
Qed.

(** *** Running a turn on a symbolic world

    The operations of the monad unfold under [cbn] as soon as they are
    applied to a state; [saveChanges] is stepped by the lemmas below, since
    it compares two symbolic values. *)

#[local] Arguments mbind {_ _ _ _} _ _ /.
#[local] Arguments M_bind A B f m s /.
#[local] Arguments mret {_ _ _} _ /.
#[local] Arguments M_ret A a s /.
#[local] Arguments saveChanges : simpl never.
#[local] Arguments onMessage : simpl never.
#[local] Arguments utterance_of : simpl never.
#[local] Arguments load {A} sc c s /.
#[local] Arguments property_get {A} sc c /.
#[local] Arguments property_set {A} sc c v /.
#[local] Arguments assign {A} sc c v /.
#[local] Arguments createContext c /.
#[local] Arguments get_stack c /.
#[local] Arguments set_stack c stk /.
#[local] Arguments sendActivity adapter c text s /.
#[local] Arguments deliver c text s /.
#[local] Arguments reference_of c s /.
#[local] Arguments ctx c s /.
#[local] Arguments set_ctx c tc s /.
#[local] Arguments set_world w s /.
#[local] Arguments set_storage st w /.
#[local] Arguments gets {A} f s /.
#[local] Arguments modify f s /.
#[local] Arguments skip s /.
#[local] Arguments throw {A} err s /.
#[local] Arguments try_catch {A} m h s /.
#[local] Arguments continueConversation adapter r logic s /.
#[local] Arguments new_context a /.
#[local] Arguments start a w /.
#[local] Arguments jobs_of w /.
#[local] Arguments say r text /.

Lemma saveChanges_none {A} `{EqDecision A} (sc : Scope A) c s :
  sc_cache sc (ctx c s) = None → saveChanges sc c s = Ok tt s.
Proof. intros H0. unfold saveChanges. by rewrite H0. Qed.

Lemma saveChanges_same {A} `{EqDecision A} (sc : Scope A) c s x :
  sc_cache sc (ctx c s) = Some x → loaded x = current x →
  saveChanges sc c s = Ok tt s.
Proof. intros H0 H1. unfold saveChanges. rewrite H0. by rewrite decide_True. Qed.

Lemma saveChanges_changed {A} `{EqDecision A} (sc : Scope A) c s x :
  sc_cache sc (ctx c s) = Some x → loaded x ≠ current x →
  saveChanges sc c s
  = Ok tt (set_ctx c
             (sc_set_cache sc (Some {| loaded := current x; current := current x |}) (ctx c s))
             (set_world
                (set_storage (sc_write sc (reference_of c s) (current x) (storage (world s)))
                   (world s)) s)).
Proof. intros H0 H1. unfold saveChanges. rewrite H0. by rewrite decide_False. Qed.

(** The three [saveChanges] that close [onTurn]. *)
Definition save_all : M unit :=
  saveChanges user_scope Turn;;
  saveChanges conv_scope Turn;;
  saveChanges bot_scope Turn.

(** A message turn, by the command its text classifies as. *)
Definition message_turn (adapter : BotAdapter) (now : Z) (cmd : Command) : M unit :=
  (createContext Turn;;
   spec_dispatch adapter Turn now cmd;;
   r ← gets (λ s, responded (turn s));
   if (r : bool) then skip else continueDialog adapter (dialogs adapter) Turn);;
  save_all.

Lemma onTurn_message adapter now s :
  act_type (activity (turn s)) = Message →
  onTurn adapter Turn now s
  = message_turn adapter now (spec_classify (act_text (activity (turn s)))) s.
Proof.
  intros Ht. unfold onTurn, message_turn.
  rewrite (bind_ok _ _ s (activity (turn s)) s) by done.
  rewrite decide_True by done.
  fold (utterance_of (act_text (activity (turn s)))).
  by rewrite onMessage_dispatch.
Qed.

(** A [jobCompleted] event turn. *)
Definition event_turn (adapter : BotAdapter) (value : JsValue) : M unit :=
  (if negb (isNaN (parseInt value)) then completeJob adapter Turn value else skip);;
  save_all.

Lemma onTurn_event adapter now s :
  act_type (activity (turn s)) = Event →
  act_name (activity (turn s)) = Some "jobCompleted" →
  onTurn adapter Turn now s = event_turn adapter (act_value (activity (turn s))) s.
Proof.
  intros Ht Hn. unfold onTurn, event_turn.
  rewrite (bind_ok _ _ s (activity (turn s)) s) by done.
  rewrite decide_False by (rewrite Ht; done).
  rewrite Ht, Hn. by rewrite !bool_decide_eq_true_2 by done.
Qed.

Ltac run_message_turn Hc :=
  unfold run_turn; rewrite onTurn_message by done;
  simpl activity; rewrite Hc;
  unfold message_turn, save_all, spec_dispatch, completeJob, notify.

(** *** The replies of [completeJob] *)

Definition already_text : string := "This job is already completed, please start a new job.".
Definition ack_text : string := "Job completed. Notification sent.".
Definition notice_text (id : string) : string := "Your queued job " ++ id ++ " just completed.".

Definition replied (w : World) (r : ConversationReference) (text : string) : World :=
  {| storage := storage w; outbox := outbox w ++ [say r text]; resumes := resumes w |}.

Lemma done_turn_completed adapter now a w id r :
  act_type a = Message →
  spec_classify (act_text a) = DONE id →
  obj_get (jobs_of w) id = Some r →
  completed r = true →
  run_turn adapter now a w = (replied w (act_reference a) already_text, None).
Proof.
  intros Ht Hc Hj Hdone. run_message_turn Hc.
  destruct w as [[jobs profs stacks] out res]. simpl in Hj.
  cbn. rewrite Hj. cbn. rewrite Hdone. cbn.
  erewrite saveChanges_none by done.
  erewrite saveChanges_same by done.
  erewrite saveChanges_same by done.
  reflexivity.
Qed.

(* ===================================================================== *)
(** ** Invariants of a turn *)
(* ===================================================================== *)

(** [Hoare pre m post exn]: from a state in [pre], [m] either returns in
    [post] or throws in [exn]. *)
Definition Hoare {A} (pre : State → Prop) (m : M A)
    (post : A → State → Prop) (exn : State → Prop) : Prop :=
  ∀ s, pre s →
    match m s with
    | Ok a s' => post a s'
    | Threw _ s' => exn s'
    end.

(** [m] keeps [I], whether it returns or throws. *)
Definition Preserves {A} (I : State → Prop) (m : M A) : Prop :=
  Hoare I m (λ _, I) I.

Lemma hoare_bind {A B} pre mid post exn (m : M A) (f : A → M B) :
  Hoare pre m mid exn →
  (∀ a, Hoare (mid a) (f a) post exn) →
  Hoare pre (m ≫= f) post exn.
Proof.
  intros Hm Hf s Hs. specialize (Hm s Hs). cbn.
  destruct (m s) as [a s'|e s']; [|done]. by apply Hf.
Qed.

Lemma hoare_weaken {A} (pre pre' : State → Prop) (post post' : A → State → Prop)
    (exn exn' : State → Prop) (m : M A) :
  Hoare pre' m post' exn' →
  (∀ s, pre s → pre' s) →
  (∀ a s, post' a s → post a s) →
  (∀ s, exn' s → exn s) →
  Hoare pre m post exn.
Proof.
  intros Hm H1 H2 H3 s Hs. specialize (Hm s (H1 s Hs)).
  destruct (m s); eauto.
Qed.

Lemma preserves_bind {A B} I (m : M A) (f : A → M B) :
  Preserves I m → (∀ a, Preserves I (f a)) → Preserves I (m ≫= f).
Proof. intros Hm Hf. by eapply hoare_bind. Qed.

Lemma preserves_skip I : Preserves I skip.
Proof. by intros s Hs. Qed.

Lemma preserves_gets {A} I (f : State → A) : Preserves I (gets f).
Proof. by intros s Hs. Qed.

Lemma preserves_throw {A} I e : Preserves I (@throw A e).
Proof. by intros s Hs. Qed.

Lemma preserves_try_catch {A} I (m : M A) h :
  Preserves I m → (∀ e, Preserves I (h e)) → Preserves I (try_catch m h).
Proof.
  intros Hm Hh s Hs. specialize (Hm s Hs). cbn.
  destruct (m s) as [a s'|e s']; [done|]. by apply Hh.
Qed.

Lemma preserves_final {A} I (m : M A) s :
  Preserves I m → I s → I (final_state (m s)).
Proof. intros Hm Hs. specialize (Hm s Hs). by destruct (m s). Qed.

(** *** What the dialog engine leaves alone

    An invariant that survives a delivery and a change of the cached user
    and conversation scopes survives everything the dialogs do. *)

Section Engine.
Context (I : State → Prop) (adapter : BotAdapter).
Hypothesis I_deliver : ∀ c text s, I s → I (deliver c text s).
Hypothesis I_user : ∀ c v s, I s → I (set_ctx c (sc_set_cache user_scope v (ctx c s)) s).
Hypothesis I_conv : ∀ c v s, I s → I (set_ctx c (sc_set_cache conv_scope v (ctx c s)) s).

Lemma preserves_sendActivity c text : Preserves I (sendActivity adapter c text).
Proof.
  intros s Hs. unfold sendActivity.
  destruct c; [by apply I_deliver|].
  destruct (adapter _); [by apply I_deliver|done|done].
Qed.

Lemma hoare_load_user c :
  Hoare I (load user_scope c) (λ _, I) I.
Proof.
  intros s Hs. unfold load. change (sc_cache user_scope) with user_cache.
  destruct (user_cache (ctx c s)); [done|]. by apply I_user.
Qed.

Lemma hoare_load_conv c :
  Hoare I (load conv_scope c) (λ _, I) I.
Proof.
  intros s Hs. unfold load. change (sc_cache conv_scope) with conv_cache.
  destruct (conv_cache (ctx c s)); [done|]. by apply I_conv.
Qed.

Lemma preserves_get_user c : Preserves I (property_get user_scope c).
Proof. apply preserves_bind; [apply hoare_load_user|]. by intros x s Hs. Qed.

Lemma preserves_set_user c v : Preserves I (property_set user_scope c v).
Proof.
  apply preserves_bind; [apply hoare_load_user|].
  intros x s Hs. by apply I_user.
Qed.

Lemma preserves_get_stack c : Preserves I (get_stack c).
Proof. apply preserves_bind; [apply hoare_load_conv|]. by intros x s Hs. Qed.

Lemma preserves_set_stack c stk : Preserves I (set_stack c stk).
Proof.
  apply preserves_bind; [apply hoare_load_conv|].
  intros x s Hs. by apply I_conv.
Qed.

Lemma preserves_createContext c : Preserves I (createContext c).
Proof. apply preserves_bind; [apply hoare_load_conv|]. by intros x s Hs. Qed.

Lemma preserves_prompt ds c id text : Preserves I (prompt adapter ds c id text).
Proof.
  unfold prompt. destruct (obj_get ds id) as [[|]|]; try apply preserves_throw.
  apply preserves_bind; [apply preserves_get_stack|]. intros stk.
  apply preserves_bind; [apply preserves_set_stack|]. intros _.
  apply preserves_sendActivity.
Qed.

Lemma preserves_set_stepIndex c index : Preserves I (set_stepIndex c index).
Proof.
  unfold set_stepIndex. apply preserves_bind; [apply preserves_get_stack|].
  intros stk. destruct stk as [|[id i|id text] rest];
    [apply preserves_skip|apply preserves_set_stack|apply preserves_skip].
Qed.

Lemma preserves_reprompt c text : Preserves I (reprompt adapter c text).
Proof.
  unfold reprompt. apply preserves_bind; [apply preserves_gets|].
  intros []; [apply preserves_skip|apply preserves_sendActivity].
Qed.

(** A step keeps [I] when the operations it is handed do. *)
Definition StepPreserves (f : WaterfallStep) : Prop :=
  ∀ step,
    (∀ id text, Preserves I (step_prompt step id text)) →
    (∀ r, Preserves I (step_endDialog step r)) →
    Preserves I (f step).

Lemma promptForName_preserves : StepPreserves promptForName.
Proof. intros step Hp He. apply Hp. Qed.

Lemma promptForCity_preserves : StepPreserves promptForCity.
Proof.
  intros step Hp He. unfold promptForCity.
  apply preserves_bind; [apply preserves_get_user|]. intros user.
  apply preserves_bind; [apply preserves_set_user|]. intros _.
  apply preserves_bind; [apply preserves_set_user|]. intros _.
  apply Hp.
Qed.

Lemma captureCity_preserves : StepPreserves captureCity.
Proof.
  intros step Hp He. unfold captureCity.
  apply preserves_bind; [apply preserves_get_user|]. intros user.
  apply preserves_bind; [apply preserves_set_user|]. intros _.
  apply preserves_bind; [apply preserves_set_user|]. intros _.
  apply He.
Qed.

Lemma displayProfile_preserves : StepPreserves (displayProfile adapter).
Proof.
  intros step Hp He. unfold displayProfile.
  apply preserves_bind; [apply preserves_get_user|]. intros user.
  apply preserves_bind; [apply preserves_sendActivity|]. intros _.
  apply He.
Qed.

Lemma steps_of_dialogs id :
  steps_of (dialogs adapter) id = [promptForName; promptForCity; captureCity]
  ∨ steps_of (dialogs adapter) id = [displayProfile adapter]
  ∨ steps_of (dialogs adapter) id = [].
Proof.
  unfold steps_of, dialogs. cbn.
  repeat (case_decide; cbn; [eauto|]). eauto.
Qed.

Lemma steps_preserve id : Forall StepPreserves (steps_of (dialogs adapter) id).
Proof.
  destruct (steps_of_dialogs id) as [->|[->| ->]];
    repeat constructor;
    auto using promptForName_preserves, promptForCity_preserves,
      captureCity_preserves, displayProfile_preserves.
Qed.

Lemma preserves_runStep ds c steps index result end_ :
  Forall StepPreserves steps →
  (∀ r, Preserves I (end_ r)) →
  Preserves I (runStep adapter ds c steps index result end_).
Proof.
  intros Hsteps Hend. unfold runStep.
  destruct (steps !! index) as [f|] eqn:Hf; [|apply Hend].
  apply preserves_bind; [apply preserves_set_stepIndex|]. intros _.
  eapply Forall_lookup_1 in Hsteps; [|done].
  apply Hsteps; cbn; [intros; apply preserves_prompt|done].
Qed.

Lemma preserves_endDialog_from c stk result :
  Preserves I (endDialog_from adapter (dialogs adapter) c stk result).
Proof.
  revert result. induction stk as [|top parent IH]; intros result; cbn [endDialog_from].
  - apply preserves_skip.
  - apply preserves_bind; [apply preserves_set_stack|]. intros _.
    destruct parent as [|[id index|id text] rest].
    + apply preserves_skip.
    + apply preserves_runStep; [apply steps_preserve|done].
    + apply preserves_sendActivity.
Qed.

Lemma preserves_beginDialog c id :
  Preserves I (beginDialog adapter (dialogs adapter) c id).
Proof.
  unfold beginDialog.
  destruct (obj_get (dialogs adapter) id) as [[|steps]|] eqn:Hd;
    try apply preserves_throw.
  apply preserves_bind; [apply preserves_get_stack|]. intros stk.
  apply preserves_bind; [apply preserves_set_stack|]. intros _.
  apply preserves_runStep; [|intros; apply preserves_endDialog_from].
  pose proof (steps_preserve id) as Hs. unfold steps_of in Hs. by rewrite Hd in Hs.
Qed.

Lemma preserves_continueDialog c :
  Preserves I (continueDialog adapter (dialogs adapter) c).
Proof.
  unfold continueDialog.
  apply preserves_bind; [apply preserves_get_stack|]. intros stk.
  apply preserves_bind; [apply preserves_gets|]. intros a.
  destruct stk as [|[id index|id text] rest]; [apply preserves_skip| |].
  - case_decide; [|apply preserves_skip].
    apply preserves_runStep; [apply steps_preserve|].
    intros; apply preserves_endDialog_from.
  - case_decide; [|apply preserves_skip].
    destruct (act_text a) as [t|]; [|apply preserves_reprompt].
    case_decide; [apply preserves_reprompt|apply preserves_endDialog_from].
Qed.

End Engine.

Lemma hoare_pure {A} (φ : Prop) pre (m : M A) post exn :
  (φ → Hoare pre m post exn) → Hoare (λ s, pre s ∧ φ) m post exn.
Proof. intros H s [Hs Hφ]. by apply H. Qed.

Lemma hoare_pure_l {A} (φ : Prop) pre (m : M A) post exn :
  (φ → Hoare pre m post exn) → Hoare (λ s, φ ∧ pre s) m post exn.
Proof. intros H s [Hφ Hs]. by apply H. Qed.

Lemma getMilliseconds_range now : 0 ≤ getMilliseconds now < 1000.
Proof. unfold getMilliseconds. apply Z.mod_pos_bound. lia. Qed.

(** *** Invariants of the job registry

    A property of the registry that survives the two assignments the bot
    makes to it (a fresh record under a millisecond id, the completion of a
    pending record) holds after every turn, whatever the activity, the
    clock and the adapter, and whether or not the turn throws. *)

Section JobsInvariant.
Context (P : Jobs → Prop).
Hypothesis P_create : ∀ jobs ms r,
  P jobs → 0 ≤ ms < 1000 → obj_get jobs (ToString (VNum ms)) = None →
  P (obj_set jobs (ToString (VNum ms)) {| completed := false; reference := r |}).
Hypothesis P_complete : ∀ jobs key info,
  P jobs → obj_get jobs key = Some info → completed info = false →
  P (obj_set jobs key {| completed := true; reference := reference info |}).

Definition jobs_inv (s : State) : Prop :=
  P (bot_jobs (storage (world s))) ∧
  ∀ x, bot_cache (turn s) = Some x → P (current x).

Lemma jobs_inv_deliver c text s : jobs_inv s → jobs_inv (deliver c text s).
Proof. intros [H1 H2]. by destruct c. Qed.

Lemma jobs_inv_user c v s :
  jobs_inv s → jobs_inv (set_ctx c (sc_set_cache user_scope v (ctx c s)) s).
Proof. intros [H1 H2]. by destruct c. Qed.

Lemma jobs_inv_conv c v s :
  jobs_inv s → jobs_inv (set_ctx c (sc_set_cache conv_scope v (ctx c s)) s).
Proof. intros [H1 H2]. by destruct c. Qed.

Lemma jobs_inv_send adapter c text : Preserves jobs_inv (sendActivity adapter c text).
Proof.
  apply preserves_sendActivity.
  intros; by apply jobs_inv_deliver.
Qed.

Lemma jobs_inv_get :
  Hoare jobs_inv (property_get bot_scope Turn) (λ jobs s, jobs_inv s ∧ P jobs) jobs_inv.
Proof.
  intros s [H1 H2]. cbn. destruct (bot_cache (turn s)) as [x|] eqn:Hx; cbn.
  - split; [|by apply H2]. split; [done|]. by rewrite Hx.
  - split; [|done]. split; [done|]. cbn. by intros ? [= <-].
Qed.

Lemma jobs_inv_set jobs :
  P jobs → Preserves jobs_inv (property_set bot_scope Turn jobs).
Proof.
  intros HP s [H1 H2]. cbn. destruct (bot_cache (turn s)) as [x|] eqn:Hx; cbn.
  - split; [done|]. cbn. by intros ? [= <-].
  - split; [done|]. cbn. by intros ? [= <-].
Qed.

Lemma jobs_inv_save_bot : Preserves jobs_inv (saveChanges bot_scope Turn).
Proof.
  intros s [H1 H2]. unfold saveChanges. change (sc_cache bot_scope) with bot_cache.
  unfold ctx. destruct (bot_cache (turn s)) as [x|] eqn:Hx;
    [|split; [done|by rewrite Hx]].
  case_decide; [split; [done|by rewrite Hx]|]. cbn. split; [by apply H2|].
  intros ? [= <-]. cbn. by apply H2.
Qed.

Lemma jobs_inv_save_user c : Preserves jobs_inv (saveChanges user_scope c).
Proof.
  intros s [H1 H2]. unfold saveChanges. change (sc_cache user_scope) with user_cache.
  destruct (user_cache (ctx c s)) as [x|]; [|by split].
  case_decide; [by split|]. destruct c; by split.
Qed.

Lemma jobs_inv_save_conv c : Preserves jobs_inv (saveChanges conv_scope c).
Proof.
  intros s [H1 H2]. unfold saveChanges. change (sc_cache conv_scope) with conv_cache.
  destruct (conv_cache (ctx c s)) as [x|]; [|by split].
  case_decide; [by split|]. destruct c; by split.
Qed.

Lemma jobs_inv_continueConversation adapter r logic :
  Preserves jobs_inv logic →
  Preserves jobs_inv (continueConversation adapter r logic).
Proof.
  intros Hl s [H1 H2]. unfold continueConversation.
  destruct (adapter r); try (by split); apply Hl; by split.
Qed.

Lemma jobs_inv_createJob adapter now : Preserves jobs_inv (createJob adapter Turn now).
Proof.
  unfold createJob.
  apply preserves_bind; [apply preserves_gets|]. intros r.
  eapply hoare_bind; [apply jobs_inv_get|]. intros jobs. apply hoare_pure. intros HP.
  apply preserves_try_catch; [|intros; apply jobs_inv_send].
  destruct (obj_get jobs _) eqn:Hget; cbn [isEmpty]; [apply preserves_skip|].
  apply preserves_bind; [apply jobs_inv_send|]. intros _.
  assert (P (obj_set jobs (ToString (VNum (getMilliseconds now)))
               {| completed := false; reference := r |})) as HP'
    by (apply P_create; [done|apply getMilliseconds_range|done]).
  apply preserves_bind; [by apply jobs_inv_set|]. intros _.
  apply preserves_try_catch; [|intros; apply jobs_inv_send].
  apply preserves_bind; [by apply jobs_inv_set|]. intros _.
  apply jobs_inv_send.
Qed.

Lemma jobs_inv_beginDialog adapter c id :
  Preserves jobs_inv (beginDialog adapter (dialogs adapter) c id).
Proof.
  apply preserves_beginDialog;
    auto using jobs_inv_deliver, jobs_inv_user, jobs_inv_conv.
Qed.

Lemma jobs_inv_continueDialog adapter c :
  Preserves jobs_inv (continueDialog adapter (dialogs adapter) c).
Proof.
  apply preserves_continueDialog;
    auto using jobs_inv_deliver, jobs_inv_user, jobs_inv_conv.
Qed.

Lemma jobs_inv_notify adapter jobs jobInfo jobIdNumber :
  P jobs → obj_get jobs (ToString jobIdNumber) = Some jobInfo →
  completed jobInfo = false →
  Preserves jobs_inv (notify adapter Turn jobs jobInfo jobIdNumber).
Proof.
  intros HP Hget Hdone. unfold notify.
  assert (P (obj_set jobs (ToString jobIdNumber)
               {| completed := true; reference := reference jobInfo |})) as HP'
    by (by eapply P_complete).
  apply preserves_bind; [by apply jobs_inv_set|]. intros _.
  apply preserves_bind; [by apply jobs_inv_set|]. intros _.
  apply preserves_bind; [apply jobs_inv_send|]. intros _.
  apply preserves_bind;
    [apply preserves_createContext; auto using jobs_inv_conv|]. intros _.
  apply preserves_bind;
    [apply preserves_get_user; auto using jobs_inv_user|]. intros user.
  apply preserves_bind; [|intros _; apply jobs_inv_save_conv].
  destruct (truthy (city user)); apply jobs_inv_beginDialog.
Qed.

Lemma jobs_inv_completeJob adapter jobIdNumber :
  Preserves jobs_inv (completeJob adapter Turn jobIdNumber).
Proof.
  unfold completeJob.
  eapply hoare_bind; [apply jobs_inv_get|]. intros jobs. apply hoare_pure. intros HP.
  destruct (obj_get jobs _) as [info|] eqn:Hget; cbn [isEmpty]; [|apply jobs_inv_send].
  destruct (completed info) eqn:Hdone; cbn [truthy_object negb andb].
  - apply jobs_inv_send.
  - apply preserves_bind; [|intros; apply jobs_inv_send].
    apply jobs_inv_continueConversation. by apply jobs_inv_notify.
Qed.

Lemma jobs_inv_showJobs adapter : Preserves jobs_inv (showJobs adapter Turn).
Proof.
  unfold showJobs.
  eapply hoare_bind; [apply jobs_inv_get|]. intros jobs. apply hoare_pure. intros HP.
  case_decide; [|apply jobs_inv_send].
  destruct (mapM _ _); [apply jobs_inv_send|apply preserves_throw].
Qed.

Lemma jobs_inv_onMessage adapter now u : Preserves jobs_inv (onMessage adapter Turn now u).
Proof.
  unfold onMessage.
  case_decide; [apply jobs_inv_createJob|].
  case_decide; [apply jobs_inv_showJobs|].
  case_decide; [|apply preserves_skip].
  destruct (negb _); [apply jobs_inv_completeJob|].
  destruct (_ && _)%bool; [apply jobs_inv_send|apply preserves_skip].
Qed.

Lemma jobs_inv_onTurn adapter now : Preserves jobs_inv (onTurn adapter Turn now).
Proof.
  unfold onTurn.
  apply preserves_bind; [apply preserves_gets|]. intros a.
  apply preserves_bind.
  - case_decide.
    + apply preserves_bind;
        [apply preserves_createContext; auto using jobs_inv_conv|]. intros _.
      apply preserves_bind; [apply jobs_inv_onMessage|]. intros _.
      apply preserves_bind; [apply preserves_gets|].
      intros []; [apply preserves_skip|apply jobs_inv_continueDialog].
    + destruct (_ && _)%bool.
      * destruct (negb _); [apply jobs_inv_completeJob|apply preserves_skip].
      * case_decide; [|apply preserves_skip].
        destruct (act_membersAdded a); [apply preserves_throw|].
        case_decide; [apply jobs_inv_send|apply preserves_skip].
  - intros _.
    apply preserves_bind; [apply jobs_inv_save_user|]. intros _.
    apply preserves_bind; [apply jobs_inv_save_conv|]. intros _.
    apply jobs_inv_save_bot.
Qed.

Lemma run_turn_invariant adapter now a w :
  P (jobs_of w) → P (jobs_of (run_turn adapter now a w).1).
Proof.
  intros HP. unfold run_turn. cbn [fst jobs_of].
  apply (preserves_final jobs_inv); [apply jobs_inv_onTurn|].
  split; [done|]. by intros x [=].
Qed.

Lemma run_turns_invariant turns w :
  P (jobs_of w) → P (jobs_of (run_turns turns w)).
Proof.
  revert w. induction turns as [|t turns IH]; intros w HP; [done|].
  cbn. apply IH. by apply run_turn_invariant.
Qed.

End JobsInvariant.

(* ===================================================================== *)
(** ** Objects as maps *)
(* ===================================================================== *)

Lemma obj_get_set_eq {A} (o : JsObject A) k v : obj_get (obj_set o k v) k = Some v.
Proof.
  induction o as [|[k' v'] o IH]; cbn; [by rewrite decide_True|].
  case_decide; cbn; [by rewrite decide_True|by rewrite decide_False].
Qed.

Lemma obj_get_set_ne {A} (o : JsObject A) k k' v :
  k ≠ k' → obj_get (obj_set o k v) k' = obj_get o k'.
Proof.
  intros Hne. induction o as [|[k0 v0] o IH]; cbn; [by rewrite decide_False|].
  case_decide; cbn.
  - subst k0. by rewrite !decide_False.
  - case_decide; [done|apply IH].
Qed.

Lemma obj_get_None {A} (o : JsObject A) k : obj_get o k = None ↔ k ∉ o.*1.
Proof.
  induction o as [|[k' v'] o IH]; cbn.
  - split; [intros _; apply not_elem_of_nil|done].
  - case_decide.
    + subst k'. split; [done|]. intros H. exfalso. apply H. by left.
    + rewrite IH, not_elem_of_cons. split; [by intros ?; split|by intros [_ ?]].
Qed.

Lemma obj_set_keys_absent {A} (o : JsObject A) k v :
  obj_get o k = None → (obj_set o k v).*1 = (o.*1 ++ [k])%list.
Proof.
  induction o as [|[k' v'] o IH]; cbn; [done|].
  case_decide; [done|]. intros H'. cbn. by rewrite IH.
Qed.

Lemma obj_set_keys_present {A} (o : JsObject A) k v :
  is_Some (obj_get o k) → (obj_set o k v).*1 = o.*1.
Proof.
  induction o as [|[k' v'] o IH]; cbn; [by intros [? ?]|].
  case_decide; [by subst|]. intros H'. cbn. by rewrite IH.
Qed.

Lemma obj_set_id {A} (o : JsObject A) k v : obj_get o k = Some v → obj_set o k v = o.
Proof.
  induction o as [|[k' v'] o IH]; cbn; [done|].
  case_decide; [by intros [= ->]; subst|]. intros H'. by rewrite IH.
Qed.

(* ===================================================================== *)
(** ** Completing a job *)
(* ===================================================================== *)

(** What of a state the completion of a job is about: the stored registry,
    the registry as the turn has it, and the resumes so far. *)
Definition bot_view (s : State) : Jobs * option (Cached Jobs) * list ConversationReference :=
  (bot_jobs (storage (world s)), bot_cache (turn s), resumes (world s)).

Section BotView.
Context (Q : Jobs * option (Cached Jobs) * list ConversationReference → Prop).
Context (adapter : BotAdapter).

Definition on_view (s : State) : Prop := Q (bot_view s).

Lemma on_view_deliver c text s : on_view s → on_view (deliver c text s).
Proof. by destruct c. Qed.

Lemma on_view_user c v s :
  on_view s → on_view (set_ctx c (sc_set_cache user_scope v (ctx c s)) s).
Proof. by destruct c. Qed.

Lemma on_view_conv c v s :
  on_view s → on_view (set_ctx c (sc_set_cache conv_scope v (ctx c s)) s).
Proof. by destruct c. Qed.

Lemma on_view_send c text : Preserves on_view (sendActivity adapter c text).
Proof. apply preserves_sendActivity. apply on_view_deliver. Qed.

Lemma on_view_createContext c : Preserves on_view (createContext c).
Proof. apply preserves_createContext. apply on_view_conv. Qed.

Lemma on_view_beginDialog c id :
  Preserves on_view (beginDialog adapter (dialogs adapter) c id).
Proof.
  apply preserves_beginDialog;
    auto using on_view_deliver, on_view_user, on_view_conv.
Qed.

Lemma on_view_continueDialog c :
  Preserves on_view (continueDialog adapter (dialogs adapter) c).
Proof.
  apply preserves_continueDialog;
    auto using on_view_deliver, on_view_user, on_view_conv.
Qed.

Lemma on_view_save_user c : Preserves on_view (saveChanges user_scope c).
Proof.
  intros s Hs. unfold saveChanges. change (sc_cache user_scope) with user_cache.
  destruct (user_cache (ctx c s)) as [x|]; [|done].
  case_decide; [done|]. by destruct c.
Qed.

Lemma on_view_save_conv c : Preserves on_view (saveChanges conv_scope c).
Proof.
  intros s Hs. unfold saveChanges. change (sc_cache conv_scope) with conv_cache.
  destruct (conv_cache (ctx c s)) as [x|]; [|done].
  case_decide; [done|]. by destruct c.
Qed.

(** The part of [notify] that runs after the registry is updated. *)
Lemma on_view_notify_rest text :
  Preserves on_view
    (sendActivity adapter Proactive text;;
     createContext Proactive;;
     user ← property_get user_scope Proactive;
     (if truthy (city user)
      then beginDialog adapter (dialogs adapter) Proactive HELLO_USER
      else beginDialog adapter (dialogs adapter) Proactive WHO_ARE_YOU);;
     saveChanges conv_scope Proactive).
Proof.
  apply preserves_bind; [apply on_view_send|]. intros _.
  apply preserves_bind; [apply on_view_createContext|]. intros _.
  apply preserves_bind; [apply preserves_get_user; apply on_view_user|]. intros user.
  apply preserves_bind; [|intros _; apply on_view_save_conv].
  destruct (truthy (city user)); apply on_view_beginDialog.
Qed.

End BotView.

(** [Returns pre m post]: when [m] returns from a state in [pre], it
    returns in [post]. *)
Definition Returns {A} (pre : State → Prop) (m : M A) (post : A → State → Prop) : Prop :=
  Hoare pre m post (λ _, True).

Lemma returns_bind {A B} pre mid post (m : M A) (f : A → M B) :
  Returns pre m mid → (∀ a, Returns (mid a) (f a) post) → Returns pre (m ≫= f) post.
Proof. apply hoare_bind. Qed.

Lemma preserves_returns {A} I (m : M A) : Preserves I m → Returns I m (λ _, I).
Proof. intros H. eapply hoare_weaken; [exact H|auto..]. Qed.

Lemma returns_pure {A} (φ : Prop) pre (m : M A) post :
  (φ → Returns pre m post) → Returns (λ s, φ ∧ pre s) m post.
Proof. intros H s [Hφ Hs]. by apply H. Qed.

Lemma returns_ok {A} pre (m : M A) post s :
  Returns pre m post → pre s → thrown (m s) = None →
  ∃ a, m s = Ok a (final_state (m s)) ∧ post a (final_state (m s)).
Proof.
  intros H Hs Hn. specialize (H s Hs). destruct (m s) as [a s'|e s']; [|done].
  by exists a.
Qed.

Abbreviation view_is v := (on_view (λ v', v' = v)).

Lemma view_is_iff jobs c res s :
  view_is (jobs, c, res) s
  ↔ bot_jobs (storage (world s)) = jobs ∧ bot_cache (turn s) = c
    ∧ resumes (world s) = res.
Proof.
  unfold on_view, bot_view. split; [by intros [= -> -> ->]|].
  by intros (-> & -> & ->).
Qed.

Section CompleteJob.
Context (adapter : BotAdapter).

Lemma returns_get_jobs jobs res :
  Returns (view_is (jobs, None, res)) (property_get bot_scope Turn)
    (λ j s, j = jobs ∧ view_is (jobs, Some {| loaded := jobs; current := jobs |}, res) s).
Proof.
  intros s Hs. apply view_is_iff in Hs as (H1 & H2 & H3).
  cbn. rewrite H2. cbn. split; [done|]. apply view_is_iff. cbn. by rewrite H1.
Qed.

Lemma returns_set_jobs jobs x res v :
  Returns (view_is (jobs, Some x, res)) (property_set bot_scope Turn v)
    (λ _, view_is (jobs, Some {| loaded := loaded x; current := v |}, res)).
Proof.
  intros s Hs. apply view_is_iff in Hs as (H1 & H2 & H3).
  cbn. rewrite H2. cbn. by apply view_is_iff.
Qed.

Lemma returns_continueConversation jobs c res r logic post :
  Returns (view_is (jobs, c, (res ++ [r])%list)) logic post →
  Returns (view_is (jobs, c, res)) (continueConversation adapter r logic) post.
Proof.
  intros Hl s Hs. apply view_is_iff in Hs as (H1 & H2 & H3).
  unfold continueConversation.
  destruct (adapter r); [|done|]; apply Hl; apply view_is_iff; cbn;
    by rewrite H3.
Qed.

Lemma returns_save_jobs jobs x res :
  loaded x = jobs →
  Returns (view_is (jobs, Some x, res)) (saveChanges bot_scope Turn)
    (λ _ s, bot_jobs (storage (world s)) = current x ∧ resumes (world s) = res).
Proof.
  intros Hx s Hs. apply view_is_iff in Hs as (H1 & H2 & H3).
  unfold saveChanges. change (sc_cache bot_scope) with bot_cache. unfold ctx.
  rewrite H2. case_decide; cbn; [|done]. split; congruence.
Qed.

(** A [done <id>] turn that returns on a pending job has completed the
    record and resumed its conversation once. *)
Lemma returns_done_turn now w id r :
  obj_get (jobs_of w) id = Some r →
  completed r = false →
  Returns (view_is (jobs_of w, None, resumes w))
    (message_turn adapter now (DONE id))
    (λ _ s,
       bot_jobs (storage (world s))
       = obj_set (jobs_of w) id {| completed := true; reference := reference r |}
       ∧ resumes (world s) = (resumes w ++ [reference r])%list).
Proof.
  intros Hj Hdone. unfold message_turn, save_all.
  set (jobs1 := obj_set _ _ _).
  set (V1 := (jobs_of w, Some {| loaded := jobs_of w; current := jobs1 |},
              (resumes w ++ [reference r])%list)).
  eapply returns_bind with (mid := λ _, view_is V1).
  - eapply returns_bind;
      [apply preserves_returns, on_view_createContext|]. intros ?.
    eapply returns_bind with (mid := λ _, view_is V1).
    + cbn [spec_dispatch]. unfold completeJob.
      eapply returns_bind; [apply returns_get_jobs|]. intros jobs.
      apply returns_pure. intros ->. cbn [ToString]. rewrite Hj. cbn [isEmpty].
      rewrite Hdone. cbn [truthy_object negb andb].
      eapply returns_bind;
        [|intros ?; apply preserves_returns, on_view_send].
      apply returns_continueConversation. unfold notify. cbn [ToString].
      eapply returns_bind; [apply returns_set_jobs|]. intros ?.
      eapply returns_bind; [apply returns_set_jobs|]. intros ?.
      apply preserves_returns, on_view_notify_rest.
    + intros ?. eapply returns_bind;
        [apply preserves_returns, preserves_gets|].
      intros []; apply preserves_returns;
        [apply preserves_skip|apply on_view_continueDialog].
  - intros ?.
    eapply returns_bind; [apply preserves_returns, on_view_save_user|]. intros ?.
    eapply returns_bind; [apply preserves_returns, on_view_save_conv|]. intros ?.
    by apply returns_save_jobs.
Qed.

Lemma done_turn_success now a w id r :
  act_type a = Message →
  spec_classify (act_text a) = DONE id →
  obj_get (jobs_of w) id = Some r →
  completed r = false →
  (run_turn adapter now a w).2 = None →
  jobs_of (run_turn adapter now a w).1
  = obj_set (jobs_of w) id {| completed := true; reference := reference r |}
  ∧ resumes (run_turn adapter now a w).1 = (resumes w ++ [reference r])%list.
Proof.
  intros Ht Hc Hj Hdone. unfold run_turn.
  rewrite onTurn_message by done. cbn [new_context activity turn start fst snd].
  rewrite Hc. intros Hok.
  destruct (returns_ok _ _ _ _ (returns_done_turn now w id r Hj Hdone)
              (eq_refl : view_is _ (start a w)) Hok)
    as (_ & _ & H). exact H.
Qed.

End CompleteJob.

(* ===================================================================== *)
(** ** A conversation to run the bot on *)
(* ===================================================================== *)

Module Fixture.

Definition alice : ConversationReference :=
  {| conversation_id := "conv-a|emulator"; user_id := "alice" |}.

Definition bob : ConversationReference :=
  {| conversation_id := "conv-b|emulator"; user_id := "bob" |}.

Definition reachable : BotAdapter := λ _, Reachable.
Definition unreachable : BotAdapter := λ _, Unreachable.
Definition invalid : BotAdapter := λ _, InvalidReference.

(** Alice has typed [run] at an instant whose millisecond part is 5. *)
Definition one_job : World :=
  (run_turn reachable 1700000000005 (message alice "run") empty_world).1.

End Fixture.

(* ===================================================================== *)
(** ** Completion happens once *)
(* ===================================================================== *)

Definition completed_in (jobs : Jobs) (id : string) : Prop :=
  ∃ r, obj_get jobs id = Some r ∧ completed r = true.

Lemma completed_in_run_turns id turns w :
  completed_in (jobs_of w) id → completed_in (jobs_of (run_turns turns w)) id.
Proof.
  apply (run_turns_invariant (λ jobs, completed_in jobs id)).
  - intros jobs ms r (r0 & Hr0 & Hc) _ Hnone.
    exists r0. split; [|done]. rewrite obj_get_set_ne; [done|]. congruence.
  - intros jobs key info (r0 & Hr0 & Hc) Hkey Hpending.
    destruct (decide (key = id)) as [->|Hne].
    + eexists. by rewrite obj_get_set_eq.
    + exists r0. by rewrite obj_get_set_ne.
Qed.

(** C1.  The completed flag of a job goes from false to true at most once.
    A [done <id>] turn that returns on a pending job leaves its record
    completed and has called [continueConversation] exactly once; and once
    a record is completed, whatever turns follow, a [done <id>] is answered
    with "This job is already completed, please start a new job.", sends
    nothing else, changes no state and calls [continueConversation] no
    more. *)
Theorem completed_at_most_once id :
  (∀ adapter now a w r,
     act_type a = Message →
     spec_classify (act_text a) = DONE id →
     obj_get (jobs_of w) id = Some r →
     completed r = false →
     (run_turn adapter now a w).2 = None →
     completed_in (jobs_of (run_turn adapter now a w).1) id
     ∧ resumes (run_turn adapter now a w).1 = (resumes w ++ [reference r])%list)
  ∧ (∀ w turns adapter now a,
       completed_in (jobs_of w) id →
       act_type a = Message →
       spec_classify (act_text a) = DONE id →
       run_turn adapter now a (run_turns turns w)
       = (replied (run_turns turns w) (act_reference a) already_text, None)).
Proof.
  split.
  - intros adapter now a w r Ht Hc Hj Hpending Hok.
    destruct (done_turn_success adapter now a w id r Ht Hc Hj Hpending Hok)
      as [Hjobs Hres].
    split; [|done]. rewrite Hjobs. eexists. by rewrite obj_get_set_eq.
  - intros w turns adapter now a Hdone Ht Hc.
    destruct (completed_in_run_turns id turns w Hdone) as (r & Hr & Hcr).
    by eapply done_turn_completed.
Qed.

Lemma completed_at_most_once_witness :
  let a := message Fixture.alice "done 5" in
  let w1 := (run_turn Fixture.reachable 7 a Fixture.one_job).1 in
  completed_in (jobs_of w1) "5"
  ∧ run_turn Fixture.reachable 9 a (run_turns [] w1)
    = (replied (run_turns [] w1) Fixture.alice already_text, None).
Proof.
  destruct (completed_at_most_once "5") as [Hfirst Hnext].
  assert (completed_in
            (jobs_of (run_turn Fixture.reachable 7 (message Fixture.alice "done 5")
                        Fixture.one_job).1) "5") as Hdone.
  { refine (proj1 (Hfirst Fixture.reachable 7 (message Fixture.alice "done 5")
                     Fixture.one_job
                     {| completed := false; reference := Fixture.alice |}
                     _ _ _ _ _)); vm_compute; reflexivity. }
  split; [exact Hdone|].
  apply (Hnext _ [] Fixture.reachable 9 (message Fixture.alice "done 5") Hdone);
    vm_compute; reflexivity.
Defined.

(* ===================================================================== *)
(** ** [done] on an unknown id *)
(* ===================================================================== *)

(** C7.  For an id with no record in the registry, [done <id>] replies
    exactly "Sorry no job with ID <id>." and changes nothing else: the
    storage (and so the registry) is the same, no other activity is sent,
    [continueConversation] is not called and the turn does not throw. *)
Theorem done_unknown_id adapter now a w id :
  act_type a = Message →
  spec_classify (act_text a) = DONE id →
  obj_get (jobs_of w) id = None →
  run_turn adapter now a w
  = ({| storage := storage w;
        outbox := outbox w ++ [say (act_reference a) ("Sorry no job with ID " ++ id ++ ".")];
        resumes := resumes w |}, None).
Proof.
  intros Ht Hc Hj. run_message_turn Hc.
  destruct w as [[jobs profs stacks] out res]. simpl in Hj.
  cbn. rewrite Hj. cbn.
  erewrite saveChanges_none by done.
  erewrite saveChanges_same by done.
  erewrite saveChanges_same by done.
  reflexivity.
Qed.

Lemma done_unknown_id_witness :
  run_turn Fixture.reachable 0 (message Fixture.alice "done 9999") Fixture.one_job
  = ({| storage := storage Fixture.one_job;
        outbox := outbox Fixture.one_job
                  ++ [say Fixture.alice "Sorry no job with ID 9999."];
        resumes := resumes Fixture.one_job |}, None).
Proof.
  apply (done_unknown_id Fixture.reachable 0 (message Fixture.alice "done 9999")
           Fixture.one_job "9999"); vm_compute; reflexivity.
Defined.

(* ===================================================================== *)
(** ** A resume that fails *)
(* ===================================================================== *)

(** The handling of a failed resume as the specification describes it: the
    turn does not throw, it sends the caller a message, and the record is
    completed afterwards. *)
Definition resume_failure_handled (adapter : BotAdapter) (now : Z) (a : Activity)
    (w : World) (id : string) : Prop :=
  (run_turn adapter now a w).2 = None
  ∧ (∃ m, m ∈ sent_during w (run_turn adapter now a w).1 ∧ sent_to m = act_reference a)
  ∧ completed_in (jobs_of (run_turn adapter now a w).1) id.

(** With an adapter that cannot reach Alice, Bob's [done 5] throws out of
    [onTurn], sends nothing to anyone and leaves job 5 pending: each part
    of the handling fails. *)
Lemma resume_failure_not_handled :
  let a := message Fixture.bob "done 5" in
  let res := run_turn Fixture.unreachable 7 a Fixture.one_job in
  res.2 ≠ None
  ∧ sent_during Fixture.one_job res.1 = []
  ∧ ¬ completed_in (jobs_of res.1) "5"
  ∧ ¬ resume_failure_handled Fixture.unreachable 7 a Fixture.one_job "5".
Proof.
  cbv zeta. split; [by vm_compute|]. split; [by vm_compute|].
  assert (¬ completed_in
            (jobs_of (run_turn Fixture.unreachable 7 (message Fixture.bob "done 5")
                        Fixture.one_job).1) "5") as Hpending.
  { intros (r & Hr & Hc). vm_compute in Hr. injection Hr as <-. discriminate. }
  split; [exact Hpending|]. by intros (_ & _ & ?).
Qed.

(** C2, as the code has it.  When the resume of [done <id>] fails, because
    the adapter rejects the stored reference or cannot deliver to it, the
    error leaves [onTurn], nothing is sent to the caller or to anyone else,
    and the storage is what it was: the record of the job stays pending.
    All that remains of the turn is the call of [continueConversation]. *)
Theorem resume_failure_propagates adapter now a w id r :
  act_type a = Message →
  spec_classify (act_text a) = DONE id →
  obj_get (jobs_of w) id = Some r →
  completed r = false →
  adapter (reference r) ≠ Reachable →
  ∃ err,
    run_turn adapter now a w
    = ({| storage := storage w; outbox := outbox w;
          resumes := resumes w ++ [reference r] |}, Some err).
Proof.
  intros Ht Hc Hj Hdone Hreach. run_message_turn Hc.
  destruct w as [[jobs profs stacks] out res]. simpl in Hj.
  cbn. rewrite Hj. cbn. rewrite Hdone. cbn.
  destruct (adapter (reference r)) eqn:Had; [done| |]; cbn; eauto.
Qed.

Lemma resume_failure_propagates_witness :
  ∃ err,
    run_turn Fixture.invalid 7 (message Fixture.bob "done 5") Fixture.one_job
    = ({| storage := storage Fixture.one_job; outbox := outbox Fixture.one_job;
          resumes := resumes Fixture.one_job ++ [Fixture.alice] |}, Some err).
Proof.
  apply (resume_failure_propagates Fixture.invalid 7 (message Fixture.bob "done 5")
           Fixture.one_job "5" {| completed := false; reference := Fixture.alice |});
    vm_compute; (reflexivity || discriminate).
Defined.

(* ===================================================================== *)
(** ** The command dispatcher *)
(* ===================================================================== *)

Ltac split_cases :=
  repeat split; intros;
  repeat match goal with
         | H : _ ∧ _ |- _ => destruct H
         | H : _ ∨ _ |- _ => destruct H
         | H : ∃ _, _ |- _ => destruct H
         end;
  simplify_eq; try done; try congruence; eauto 6.

Lemma classify_cases text :
  let u := utterance_of text in
    (spec_classify text = RUN ↔ u = "run")
  ∧ (spec_classify text = SHOW ↔ u = "show")
  ∧ (∀ id, spec_classify text = DONE id
           ↔ first_token u = Some "done" ∧ second_token u = Some id
             ∧ parses_as_integer id = true)
  ∧ (spec_classify text = DONE_MISSING_ID
     ↔ first_token u = Some "done"
       ∧ (second_token u = None
          ∨ ∃ t, second_token u = Some t ∧ parses_as_integer t = false))
  ∧ (spec_classify text = UNRECOGNIZED
     ↔ u ≠ "run" ∧ u ≠ "show" ∧ first_token u ≠ Some "done").
Proof.
  intros u. unfold spec_classify. fold u.
  destruct (decide (u = "run")) as [Hr|Hr].
  { rewrite Hr. split_cases. }
  destruct (decide (u = "show")) as [Hs|Hs].
  { rewrite Hs. split_cases. }
  destruct (decide (first_token u = Some "done")) as [Hd|Hd]; [|split_cases].
  destruct (second_token u) as [t|] eqn:Ht; [|split_cases].
  destruct (parses_as_integer t) eqn:Hp; split_cases.
Qed.

(** What is left of a message turn when no command claims the text. *)
Definition dialog_continuation (adapter : BotAdapter) : M unit :=
  createContext Turn;;
  continueDialog adapter (dialogs adapter) Turn;;
  save_all.

Lemma unrecognized_turn adapter now a w :
  act_type a = Message →
  spec_classify (act_text a) = UNRECOGNIZED →
  onTurn adapter Turn now (start a w) = dialog_continuation adapter (start a w).
Proof.
  intros Ht Hc. rewrite onTurn_message by done. cbn [start turn new_context activity].
  rewrite Hc. reflexivity.
Qed.

Lemma missing_id_turn adapter now a w :
  act_type a = Message →
  spec_classify (act_text a) = DONE_MISSING_ID →
  run_turn adapter now a w = (replied w (act_reference a) usage_hint, None).
Proof.
  intros Ht Hc. run_message_turn Hc.
  destruct w as [st out res].
  cbn.
  erewrite saveChanges_none by done.
  erewrite saveChanges_same by done.
  erewrite saveChanges_none by done.
  reflexivity.
Qed.

(** C8.  The chain of tests [onTurn] makes on the trimmed, lower-cased text
    of a message is the dispatch table applied to the classification of
    the specification, and that classification is: RUN iff the text is
    exactly "run"; SHOW iff exactly "show"; DONE(id) iff the first token is
    "done" and the second token, id, parses as an integer; DONE_MISSING_ID
    iff the first token is "done" and the second is absent or does not
    parse; UNRECOGNIZED otherwise.  A DONE_MISSING_ID turn sends the usage
    hint and changes no state; an UNRECOGNIZED turn is the continuation of
    the dialog. *)
Theorem dispatcher_classification adapter c now text :
  let u := utterance_of text in
  onMessage adapter c now u = spec_dispatch adapter c now (spec_classify text)
  ∧ (spec_classify text = RUN ↔ u = "run")
  ∧ (spec_classify text = SHOW ↔ u = "show")
  ∧ (∀ id, spec_classify text = DONE id
           ↔ first_token u = Some "done" ∧ second_token u = Some id
             ∧ parses_as_integer id = true)
  ∧ (spec_classify text = DONE_MISSING_ID
     ↔ first_token u = Some "done"
       ∧ (second_token u = None
          ∨ ∃ t, second_token u = Some t ∧ parses_as_integer t = false))
  ∧ (spec_classify text = UNRECOGNIZED
     ↔ u ≠ "run" ∧ u ≠ "show" ∧ first_token u ≠ Some "done")
  ∧ (∀ a w, act_type a = Message → act_text a = text →
            spec_classify text = DONE_MISSING_ID →
            run_turn adapter now a w
            = ({| storage := storage w;
                  outbox := outbox w ++ [say (act_reference a) usage_hint];
                  resumes := resumes w |}, None))
  ∧ (∀ a w, act_type a = Message → act_text a = text →
            spec_classify text = UNRECOGNIZED →
            onTurn adapter Turn now (start a w)
            = dialog_continuation adapter (start a w)).
Proof.
  intros u. split; [apply onMessage_dispatch|].
  destruct (classify_cases text) as (H1 & H2 & H3 & H4 & H5).
  repeat (split; [assumption|]). split.
  - intros a w Ht <- Hc. by apply missing_id_turn.
  - intros a w Ht <- Hc. by apply unrecognized_turn.
Qed.

Lemma dispatcher_classification_witness :
  spec_classify (Some " Done 12abc ") = DONE "12abc"
  ∧ spec_classify (Some "DONE") = DONE_MISSING_ID
  ∧ run_turn Fixture.reachable 0 (message Fixture.alice "DONE") Fixture.one_job
    = ({| storage := storage Fixture.one_job;
          outbox := outbox Fixture.one_job ++ [say Fixture.alice usage_hint];
          resumes := resumes Fixture.one_job |}, None)
  ∧ onTurn Fixture.reachable Turn 0 (start (message Fixture.alice "hello") Fixture.one_job)
    = dialog_continuation Fixture.reachable
        (start (message Fixture.alice "hello") Fixture.one_job).
Proof.
  destruct (dispatcher_classification Fixture.reachable Turn 0 (Some " Done 12abc "))
    as (_ & _ & _ & Hdone & _).
  destruct (dispatcher_classification Fixture.reachable Turn 0 (Some "DONE"))
    as (_ & _ & _ & _ & Hmissing & _ & Hhint & _).
  destruct (dispatcher_classification Fixture.reachable Turn 0 (Some "hello"))
    as (_ & _ & _ & _ & _ & _ & _ & Hfall).
  split; [|split; [|split]].
  - apply Hdone. vm_compute. auto.
  - apply Hmissing. vm_compute. auto.
  - apply Hhint; vm_compute; reflexivity.
  - apply Hfall; vm_compute; reflexivity.
Defined.

(* ===================================================================== *)
(** ** The notification and the two dialogs *)
(* ===================================================================== *)

Lemma run_turn_ok adapter now a w s W :
  onTurn adapter Turn now (start a w) = Ok tt s → world s = W →
  run_turn adapter now a w = (W, None).
Proof. intros H <-. unfold run_turn. fold (start a w). by rewrite H. Qed.

Ltac start_message_turn Hc :=
  eapply run_turn_ok;
  [rewrite onTurn_message by done; cbn [start turn new_context activity];
   rewrite Hc;
   unfold message_turn, save_all, spec_dispatch, completeJob, notify|].

Definition greeting (p : UserProfile) : string :=
  "Hello, " ++ template (name p) ++ " from " ++ template (city p).

Definition with_jobs (jobs : Jobs) (st : Storage) : Storage :=
  {| bot_jobs := jobs; user_profiles := user_profiles st; dialog_states := dialog_states st |}.

Definition complete (id : string) (r : JobRecord) (jobs : Jobs) : Jobs :=
  obj_set jobs id {| completed := true; reference := reference r |}.

Lemma obj_set_changes {A} (o : JsObject A) k v v' :
  obj_get o k = Some v → v ≠ v' → o ≠ obj_set o k v'.
Proof.
  intros Hget Hne Heq. rewrite Heq, obj_get_set_eq in Hget. congruence.
Qed.

Lemma dialogs_hello adapter :
  obj_get (dialogs adapter) HELLO_USER = Some (WaterfallDialog [displayProfile adapter]).
Proof. reflexivity. Qed.

Lemma dialogs_who adapter :
  obj_get (dialogs adapter) WHO_ARE_YOU
  = Some (WaterfallDialog [promptForName; promptForCity; captureCity]).
Proof. reflexivity. Qed.

Lemma dialogs_name adapter : obj_get (dialogs adapter) NAME_PROMPT = Some TextPrompt.
Proof. reflexivity. Qed.

Lemma dialogs_city adapter : obj_get (dialogs adapter) CITY_PROMPT = Some TextPrompt.
Proof. reflexivity. Qed.

Lemma steps_of_who adapter :
  steps_of (dialogs adapter) WHO_ARE_YOU = [promptForName; promptForCity; captureCity].
Proof. reflexivity. Qed.

Lemma steps_of_hello adapter :
  steps_of (dialogs adapter) HELLO_USER = [displayProfile adapter].
Proof. reflexivity. Qed.

Lemma done_turn_hello adapter now a w id r :
  act_type a = Message →
  spec_classify (act_text a) = DONE id →
  obj_get (jobs_of w) id = Some r →
  completed r = false →
  adapter (reference r) = Reachable →
  stack_of (storage w) (reference r) = [] →
  truthy (city (profile_of (storage w) (reference r))) = true →
  run_turn adapter now a w
  = ({| storage := with_jobs (complete id r (jobs_of w)) (storage w);
        outbox := outbox w ++ [say (reference r) (notice_text id);
                               say (reference r) (greeting (profile_of (storage w) (reference r)));
                               say (act_reference a) ack_text];
        resumes := resumes w ++ [reference r] |}, None).
Proof.
  intros Ht Hc Hj Hpending Hreach Hstk Hcity.
  destruct w as [st out res]. cbn in Hj, Hstk, Hcity.
  start_message_turn Hc.
  - cbn. rewrite Hj. cbn. rewrite Hpending. cbn. rewrite Hreach. cbn.
    rewrite Hcity, Hstk. cbn.
    unfold beginDialog. rewrite dialogs_hello.
    unfold runStep, set_stepIndex, displayProfile. cbn.
    rewrite Hreach. cbn.
    erewrite saveChanges_same by done. cbn.
    erewrite saveChanges_none by done.
    erewrite saveChanges_same by done.
    erewrite saveChanges_changed;
      [|done|cbn; eapply obj_set_changes; [done|destruct r; cbn in *; congruence]].
    reflexivity.
  - cbn. unfold say, notice_text, greeting, ack_text.
    rewrite <- !app_assoc. reflexivity.
Qed.

Definition with_stack (r : ConversationReference) (stk : DialogStack) (st : Storage) : Storage :=
  {| bot_jobs := bot_jobs st; user_profiles := user_profiles st;
     dialog_states := <[conversation_id r := stk]> (dialog_states st) |}.

Definition name_prompt : DialogInstance := PromptInstance NAME_PROMPT "What is your name?".
Definition city_prompt : DialogInstance := PromptInstance CITY_PROMPT "What city are you from?".

Lemma cons_cons_ne {A} (x y : A) (l : list A) : l ≠ x :: y :: l.
Proof. intros H. apply (f_equal length) in H. cbn in H. lia. Qed.

Lemma done_turn_who adapter now a w id r :
  act_type a = Message →
  spec_classify (act_text a) = DONE id →
  obj_get (jobs_of w) id = Some r →
  completed r = false →
  adapter (reference r) = Reachable →
  truthy (city (profile_of (storage w) (reference r))) = false →
  run_turn adapter now a w
  = ({| storage :=
          with_jobs (complete id r (jobs_of w))
            (with_stack (reference r)
               (name_prompt :: WaterfallInstance WHO_ARE_YOU 0
                  :: stack_of (storage w) (reference r))
               (storage w));
        outbox := outbox w ++ [say (reference r) (notice_text id);
                               say (reference r) "What is your name?";
                               say (act_reference a) ack_text];
        resumes := resumes w ++ [reference r] |}, None).
Proof.
  intros Ht Hc Hj Hpending Hreach Hcity.
  destruct w as [st out res]. cbn in Hj, Hcity.
  start_message_turn Hc.
  - cbn. rewrite Hj. cbn. rewrite Hpending. cbn. rewrite Hreach. cbn.
    rewrite Hcity.
    unfold beginDialog. rewrite dialogs_who.
    unfold runStep, set_stepIndex, promptForName. cbn.
    unfold prompt. rewrite dialogs_name. cbn.
    rewrite Hreach. cbn.
    erewrite saveChanges_changed; [|done|apply cons_cons_ne]. cbn.
    erewrite saveChanges_none by done.
    erewrite saveChanges_same by done.
    erewrite saveChanges_changed;
      [|done|cbn; eapply obj_set_changes; [done|destruct r; cbn in *; congruence]].
    reflexivity.
  - cbn. unfold say, notice_text, ack_text, with_jobs, with_stack, complete.
    rewrite <- !app_assoc. reflexivity.
Qed.

Lemma profile_of_insert st r p :
  profile_of {| bot_jobs := bot_jobs st;
                user_profiles := <[user_id r := p]> (user_profiles st);
                dialog_states := dialog_states st |} r = p.
Proof. unfold profile_of. cbn. by rewrite lookup_insert_eq. Qed.

Lemma stack_of_with_stack st r stk : stack_of (with_stack r stk st) r = stk.
Proof. unfold stack_of, with_stack. cbn. by rewrite lookup_insert_eq. Qed.

Lemma stack_ne_1 (x x' y y' : DialogInstance) (l : DialogStack) :
  y ≠ y' → x :: y :: l ≠ x' :: y' :: l.
Proof. congruence. Qed.

(** The answer to the name prompt. *)
Lemma answer_name adapter now a w t pid ptext stk :
  act_type a = Message →
  act_text a = Some t →
  t ≠ EmptyString →
  spec_classify (Some t) = UNRECOGNIZED →
  stack_of (storage w) (act_reference a)
  = PromptInstance pid ptext :: WaterfallInstance WHO_ARE_YOU 0 :: stk →
  let w' := (run_turn adapter now a w).1 in
  (run_turn adapter now a w).2 = None
  ∧ outbox w' = (outbox w ++ [say (act_reference a) "What city are you from?"])%list
  ∧ resumes w' = resumes w
  ∧ jobs_of w' = jobs_of w
  ∧ profile_of (storage w') (act_reference a)
    = {| name := Some t; city := city (profile_of (storage w) (act_reference a)) |}
  ∧ stack_of (storage w') (act_reference a)
    = city_prompt :: WaterfallInstance WHO_ARE_YOU 1 :: stk.
Proof.
  intros Ht Htext Hne Hc Hstk.
  destruct w as [st out res]. cbn in Hstk.
  unfold run_turn. cbn [fst snd].
  remember (onTurn adapter Turn now _) as result eqn:Hres.
  rewrite onTurn_message in Hres by done.
  cbn [start turn new_context activity] in Hres. rewrite Htext, Hc in Hres.
  unfold message_turn, save_all, spec_dispatch in Hres.
  cbn in Hres. rewrite Hstk in Hres. unfold continueDialog in Hres. cbn in Hres.
  rewrite Ht, Htext in Hres.
  rewrite decide_True in Hres by done. rewrite decide_False in Hres by done.
  cbn in Hres. rewrite steps_of_who in Hres.
  unfold runStep, set_stepIndex, promptForCity in Hres. cbn in Hres.
  unfold prompt in Hres. rewrite dialogs_city in Hres. cbn in Hres.
  unfold saveChanges at 1 in Hres. cbn in Hres.
  destruct (decide _) as [Hsame|Hdiff] in Hres.
  - erewrite saveChanges_changed in Hres;
      [|done|cbn; apply stack_ne_1; congruence].
    cbn in Hres. erewrite saveChanges_none in Hres by done.
    subst result. cbn. unfold profile_of, stack_of in *. cbn.
    rewrite lookup_insert_eq. by rewrite Hsame.
  - erewrite saveChanges_changed in Hres;
      [|done|cbn; apply stack_ne_1; congruence].
    cbn in Hres. erewrite saveChanges_none in Hres by done.
    subst result. cbn. unfold profile_of, stack_of in *. cbn.
    by rewrite !lookup_insert_eq.
Qed.

(** The answer to the city prompt, with no dialog below the waterfall. *)
Lemma answer_city adapter now a w t pid ptext :
  act_type a = Message →
  act_text a = Some t →
  t ≠ EmptyString →
  spec_classify (Some t) = UNRECOGNIZED →
  stack_of (storage w) (act_reference a)
  = [PromptInstance pid ptext; WaterfallInstance WHO_ARE_YOU 1] →
  let w' := (run_turn adapter now a w).1 in
  (run_turn adapter now a w).2 = None
  ∧ outbox w' = outbox w
  ∧ resumes w' = resumes w
  ∧ jobs_of w' = jobs_of w
  ∧ profile_of (storage w') (act_reference a)
    = {| name := name (profile_of (storage w) (act_reference a)); city := Some t |}
  ∧ stack_of (storage w') (act_reference a) = [].
Proof.
  intros Ht Htext Hne Hc Hstk.
  destruct w as [st out res]. cbn in Hstk.
  unfold run_turn. cbn [fst snd].
  remember (onTurn adapter Turn now _) as result eqn:Hres.
  rewrite onTurn_message in Hres by done.
  cbn [start turn new_context activity] in Hres. rewrite Htext, Hc in Hres.
  unfold message_turn, save_all, spec_dispatch in Hres.
  cbn in Hres. rewrite Hstk in Hres. unfold continueDialog in Hres. cbn in Hres.
  rewrite Ht, Htext in Hres.
  rewrite decide_True in Hres by done. rewrite decide_False in Hres by done.
  cbn in Hres. rewrite steps_of_who in Hres.
  unfold runStep, set_stepIndex, captureCity in Hres. cbn in Hres.
  unfold saveChanges at 1 in Hres. cbn in Hres.
  destruct (decide _) as [Hsame|Hdiff] in Hres.
  - erewrite saveChanges_changed in Hres; [|done|done].
    cbn in Hres. erewrite saveChanges_none in Hres by done.
    subst result. cbn. unfold profile_of, stack_of in *. cbn.
    rewrite lookup_insert_eq. by rewrite Hsame.
  - erewrite saveChanges_changed in Hres; [|done|done].
    cbn in Hres. erewrite saveChanges_none in Hres by done.
    subst result. cbn. unfold profile_of, stack_of in *. cbn.
    by rewrite !lookup_insert_eq.
Qed.

Lemma sent_during_app w w' l : outbox w' = (outbox w ++ l)%list → sent_during w w' = l.
Proof. intros H. unfold sent_during. rewrite H. by rewrite drop_app_length. Qed.

Lemma stack_of_with_jobs jobs st r : stack_of (with_jobs jobs st) r = stack_of st r.
Proof. reflexivity. Qed.

Lemma profile_of_with_jobs jobs st r : profile_of (with_jobs jobs st) r = profile_of st r.
Proof. reflexivity. Qed.

Lemma profile_of_with_stack r' stk st r : profile_of (with_stack r' stk st) r = profile_of st r.
Proof. reflexivity. Qed.

Lemma truthy_Some s : s ≠ EmptyString → truthy (Some s) = true.
Proof. intros H. unfold truthy. by rewrite decide_False. Qed.

Lemma saveChanges_returns {A} `{EqDecision A} (sc : Scope A) c s :
  ∃ s', saveChanges sc c s = Ok tt s'.
Proof.
  unfold saveChanges. destruct (sc_cache sc (ctx c s)); [|by eexists].
  case_decide; by eexists.
Qed.

Lemma saveChanges_outbox {A} `{EqDecision A} (sc : Scope A) c s s' :
  saveChanges sc c s = Ok tt s' →
  outbox (world s') = outbox (world s) ∧ resumes (world s') = resumes (world s).
Proof.
  unfold saveChanges. destruct (sc_cache sc (ctx c s)); [|by intros [= <-]].
  case_decide; intros [= <-]; [done|]. by destruct c.
Qed.

Lemma save_all_outbox s :
  ∃ s', save_all s = Ok tt s' ∧ outbox (world s') = outbox (world s).
Proof.
  unfold save_all. cbn.
  destruct (saveChanges_returns user_scope Turn s) as [s1 H1]. rewrite H1.
  destruct (saveChanges_returns conv_scope Turn s1) as [s2 H2]. rewrite H2.
  destruct (saveChanges_returns bot_scope Turn s2) as [s3 H3]. rewrite H3.
  exists s3. split; [done|].
  apply saveChanges_outbox in H1 as [E1 _].
  apply saveChanges_outbox in H2 as [E2 _].
  apply saveChanges_outbox in H3 as [E3 _]. congruence.
Qed.

(** The outbox starts with [l]. *)
Definition sent_first (l : list Sent) (s : State) : Prop :=
  ∃ rest, outbox (world s) = (l ++ rest)%list.

Lemma sent_first_deliver l c text s : sent_first l s → sent_first l (deliver c text s).
Proof.
  intros [rest H]. exists (rest ++ [say (act_reference (activity (ctx c s))) text])%list.
  destruct c; cbn; by rewrite H, app_assoc.
Qed.

Lemma sent_first_user l c v s :
  sent_first l s → sent_first l (set_ctx c (sc_set_cache user_scope v (ctx c s)) s).
Proof. by destruct c. Qed.

Lemma sent_first_conv l c v s :
  sent_first l s → sent_first l (set_ctx c (sc_set_cache conv_scope v (ctx c s)) s).
Proof. by destruct c. Qed.

(** The notification of a user whose city is stored, whatever dialog is
    suspended in the conversation: the notice and the greeting are the
    first things the turn sends. *)
Lemma done_turn_hello_first adapter now a w id r :
  act_type a = Message →
  spec_classify (act_text a) = DONE id →
  obj_get (jobs_of w) id = Some r →
  completed r = false →
  adapter (reference r) = Reachable →
  truthy (city (profile_of (storage w) (reference r))) = true →
  ∃ rest,
    outbox (run_turn adapter now a w).1
    = (outbox w ++ [say (reference r) (notice_text id);
                   say (reference r) (greeting (profile_of (storage w) (reference r)))]
         ++ rest)%list.
Proof.
  intros Ht Hc Hj Hpending Hreach Hcity.
  destruct w as [st out res]. cbn in Hj, Hcity.
  unfold run_turn. cbn [fst].
  rewrite onTurn_message by done. cbn [start turn new_context activity].
  rewrite Hc. unfold message_turn, spec_dispatch, completeJob, notify.
  cbn. rewrite Hj. cbn. rewrite Hpending. cbn. rewrite Hreach. cbn.
  rewrite Hcity. unfold beginDialog. rewrite dialogs_hello.
  remember (endDialog_from adapter (dialogs adapter) Proactive) as finish eqn:Hfinish.
  unfold runStep, set_stepIndex, displayProfile. cbn. rewrite Hreach. cbn.
  match goal with
  | |- context [finish ?stk None ?s] =>
      pose proof (preserves_endDialog_from
                    (sent_first (out ++ [say (reference r) (notice_text id);
                                         say (reference r) (greeting (profile_of st (reference r)))]))
                    adapter
                    (sent_first_deliver _) (sent_first_user _) (sent_first_conv _)
                    Proactive stk None s) as Hfirst;
      rewrite <- Hfinish in Hfirst;
      destruct (finish stk None s) as [[] s1|e s1]
  end.
  - destruct Hfirst as [rest Hrest].
    { exists []. cbn. unfold say, notice_text, greeting.
      by rewrite app_nil_r, <- app_assoc. }
    destruct (saveChanges_returns conv_scope Proactive s1) as [s2 Hs2].
    rewrite Hs2. cbn.
    apply saveChanges_outbox in Hs2 as [Hout2 _].
    match goal with
    | |- context [save_all ?s] => destruct (save_all_outbox s) as (s3 & -> & Hout3)
    end.
    cbn in Hout3 |- *. rewrite Hout3, Hout2, Hrest.
    eexists. by rewrite <- !app_assoc.
  - destruct Hfirst as [rest Hrest].
    { exists []. cbn. unfold say, notice_text, greeting.
      by rewrite app_nil_r, <- app_assoc. }
    cbn. rewrite Hrest. eexists. by rewrite <- !app_assoc.
Qed.

(** *** The notification above a waiting prompt *)

(** The text the prompt on top of a stack sends when the dialog above it
    ends and it is resumed. *)
Definition waiting_prompt (stk : DialogStack) : list string :=
  match stk with
  | PromptInstance _ text :: _ => [text]
  | _ => []
  end.

(** The stack is empty or a prompt waits on top of it, as in every stack
    the bot stores. *)
Definition no_waterfall_on_top (stk : DialogStack) : Prop :=
  match stk with
  | WaterfallInstance _ _ :: _ => False
  | _ => True
  end.

(** The notification of a user whose city is stored: HELLO_USER greets and
    ends, and a prompt that was waiting in the conversation asks again. *)
Lemma done_turn_hello_any adapter now a w id r :
  act_type a = Message →
  spec_classify (act_text a) = DONE id →
  obj_get (jobs_of w) id = Some r →
  completed r = false →
  adapter (reference r) = Reachable →
  truthy (city (profile_of (storage w) (reference r))) = true →
  no_waterfall_on_top (stack_of (storage w) (reference r)) →
  run_turn adapter now a w
  = ({| storage := with_jobs (complete id r (jobs_of w)) (storage w);
        outbox := outbox w
                  ++ [say (reference r) (notice_text id);
                      say (reference r) (greeting (profile_of (storage w) (reference r)))]
                  ++ (say (reference r) <$> waiting_prompt (stack_of (storage w) (reference r)))
                  ++ [say (act_reference a) ack_text];
        resumes := resumes w ++ [reference r] |}, None).
Proof.
  intros Ht Hc Hj Hpending Hreach Hcity Htop.
  destruct (stack_of (storage w) (reference r)) as [|[wid index|pid ptext] stk] eqn:Hstk;
    [by apply done_turn_hello|done|].
  destruct w as [st out res]. cbn in Hj, Hstk, Hcity.
  start_message_turn Hc.
  - cbn. rewrite Hj. cbn. rewrite Hpending. cbn. rewrite Hreach. cbn.
    rewrite Hcity, Hstk. cbn.
    unfold beginDialog. rewrite dialogs_hello.
    unfold runStep, set_stepIndex, displayProfile. cbn.
    rewrite Hreach. cbn. rewrite Hreach. cbn.
    erewrite saveChanges_same by done. cbn.
    erewrite saveChanges_none by done.
    erewrite saveChanges_same by done.
    erewrite saveChanges_changed;
      [|done|cbn; eapply obj_set_changes; [done|destruct r; cbn in *; congruence]].
    reflexivity.
  - cbn. unfold say, notice_text, greeting, ack_text.
    rewrite <- !app_assoc. reflexivity.
Qed.

(** The answer to the city prompt: the city is stored, the onboarding
    ends, and a prompt that was waiting below it asks again. *)
Lemma answer_city_any adapter now a w t pid ptext stk :
  act_type a = Message →
  act_text a = Some t →
  t ≠ EmptyString →
  spec_classify (Some t) = UNRECOGNIZED →
  stack_of (storage w) (act_reference a)
  = PromptInstance pid ptext :: WaterfallInstance WHO_ARE_YOU 1 :: stk →
  no_waterfall_on_top stk →
  let w' := (run_turn adapter now a w).1 in
  (run_turn adapter now a w).2 = None
  ∧ outbox w' = (outbox w ++ (say (act_reference a) <$> waiting_prompt stk))%list
  ∧ resumes w' = resumes w
  ∧ jobs_of w' = jobs_of w
  ∧ profile_of (storage w') (act_reference a)
    = {| name := name (profile_of (storage w) (act_reference a)); city := Some t |}
  ∧ stack_of (storage w') (act_reference a) = stk.
Proof.
  intros Ht Htext Hne Hc Hstk Htop.
  destruct stk as [|[wid index|pid' ptext'] stk]; [|done|].
  { destruct (answer_city adapter now a w t pid ptext Ht Htext Hne Hc Hstk)
      as (H1 & H2 & H3 & H4 & H5 & H6).
    cbn [waiting_prompt fmap list_fmap]. by rewrite app_nil_r. }
  destruct w as [st out res]. cbn in Hstk.
  unfold run_turn. cbn [fst snd].
  remember (onTurn adapter Turn now _) as result eqn:Hres.
  rewrite onTurn_message in Hres by done.
  cbn [start turn new_context activity] in Hres. rewrite Htext, Hc in Hres.
  unfold message_turn, save_all, spec_dispatch in Hres.
  cbn in Hres. rewrite Hstk in Hres. unfold continueDialog in Hres. cbn in Hres.
  rewrite Ht, Htext in Hres.
  rewrite decide_True in Hres by done. rewrite decide_False in Hres by done.
  cbn in Hres. rewrite steps_of_who in Hres.
  unfold runStep, set_stepIndex, captureCity in Hres. cbn in Hres.
  assert (PromptInstance pid ptext :: WaterfallInstance WHO_ARE_YOU 1
            :: PromptInstance pid' ptext' :: stk ≠ PromptInstance pid' ptext' :: stk)
    as Hpop by (intros H; symmetry in H; by apply cons_cons_ne in H).
  unfold saveChanges at 1 in Hres. cbn in Hres.
  destruct (decide _) as [Hsame|Hdiff] in Hres.
  - erewrite saveChanges_changed in Hres; [|done|done].
    cbn in Hres. erewrite saveChanges_none in Hres by done.
    subst result. cbn. unfold profile_of, stack_of in *. cbn.
    rewrite lookup_insert_eq. by rewrite Hsame.
  - erewrite saveChanges_changed in Hres; [|done|done].
    cbn in Hres. erewrite saveChanges_none in Hres by done.
    subst result. cbn. unfold profile_of, stack_of in *. cbn.
    by rewrite !lookup_insert_eq.
Qed.

(** *** The branch rule of the specification *)

Definition is_prompt_text (text : string) : bool :=
  bool_decide (text = "What is your name?")
  || bool_decide (text = "What city are you from?").

(** The prompts among the activities sent, in the order they were sent. *)
Definition prompts_in (l : list Sent) : list string :=
  List.filter is_prompt_text (sent_text <$> l).

Lemma not_prompt_text c s : c ≠ "W"%char → is_prompt_text (String c s) = false.
Proof.
  intros Hc. unfold is_prompt_text.
  rewrite !bool_decide_eq_false_2; [done|by intros [= ->]..].
Qed.

(** The rule as the specification words it, for the notification of the
    job [r]: with a city stored, the turn greets and sends no prompt;
    with none, the notification and the two answers that follow see
    exactly two prompts, for the name and then for the city. *)
Definition branch_as_specified (adapter : BotAdapter) (now : Z) (a : Activity)
    (w : World) (r : JobRecord) : Prop :=
  let ref := reference r in
  let p := profile_of (storage w) ref in
  let w' := (run_turn adapter now a w).1 in
  (truthy (city p) = true →
     say ref (greeting p) ∈ sent_during w w'
     ∧ prompts_in (sent_during w w') = [])
  ∧ (truthy (city p) = false →
     ∀ t1 t2,
       t1 ≠ EmptyString → spec_classify (Some t1) = UNRECOGNIZED →
       t2 ≠ EmptyString → spec_classify (Some t2) = UNRECOGNIZED →
       let w1 := (run_turn adapter now (message ref t1) w').1 in
       let w2 := (run_turn adapter now (message ref t2) w1).1 in
       prompts_in (sent_during w w2)
       = ["What is your name?"; "What city are you from?"]).

(** Alice has started jobs 5 and 6, and Bob has completed job 5: Alice is
    at the name prompt of her onboarding, with job 6 pending. *)
Definition asked_once : World :=
  run_turns
    [ {| in_adapter := Fixture.reachable; in_now := 1700000000005;
         in_activity := message Fixture.alice "run" |};
      {| in_adapter := Fixture.reachable; in_now := 1700000000006;
         in_activity := message Fixture.alice "run" |};
      {| in_adapter := Fixture.reachable; in_now := 1700000000100;
         in_activity := message Fixture.bob "done 5" |} ] empty_world.

(** Then Bob completes job 6 before Alice has answered, Alice answers
    both questions of the second onboarding, and starts job 7: her city is
    stored, and the name prompt of the first onboarding is waiting. *)
Definition onboarded_once : World :=
  run_turns
    [ {| in_adapter := Fixture.reachable; in_now := 1700000000200;
         in_activity := message Fixture.bob "done 6" |};
      {| in_adapter := Fixture.reachable; in_now := 1700000000300;
         in_activity := message Fixture.alice "Ada" |};
      {| in_adapter := Fixture.reachable; in_now := 1700000000400;
         in_activity := message Fixture.alice "Seattle" |};
      {| in_adapter := Fixture.reachable; in_now := 1700000000007;
         in_activity := message Fixture.alice "run" |} ] asked_once.

(** Where the rule fails.  The notification of job 6 reaches Alice while
    the name prompt of the first onboarding waits: the second onboarding
    asks for the name and the city, and its end resumes the prompt below,
    a third prompt.  The notification of job 7 finds her city stored: it
    greets her, and the prompt that still waits asks again in the same
    turn. *)
Lemma notification_not_as_specified :
  let done6 := message Fixture.bob "done 6" in
  let done7 := message Fixture.bob "done 7" in
  let job := {| completed := false; reference := Fixture.alice |} in
  let asked1 := (run_turn Fixture.reachable 0 done6 asked_once).1 in
  let asked2 := (run_turn Fixture.reachable 0 (message Fixture.alice "Ada") asked1).1 in
  let asked3 := (run_turn Fixture.reachable 0 (message Fixture.alice "Seattle") asked2).1 in
  prompts_in (sent_during asked_once asked3)
  = ["What is your name?"; "What city are you from?"; "What is your name?"]
  ∧ ¬ branch_as_specified Fixture.reachable 0 done6 asked_once job
  ∧ sent_during onboarded_once (run_turn Fixture.reachable 0 done7 onboarded_once).1
    = [say Fixture.alice "Your queued job 7 just completed.";
       say Fixture.alice "Hello, Ada from Seattle";
       say Fixture.alice "What is your name?";
       say Fixture.bob "Job completed. Notification sent."]
  ∧ ¬ branch_as_specified Fixture.reachable 0 done7 onboarded_once job.
Proof.
  cbv zeta. split; [by vm_compute|]. split; [|split; [by vm_compute|]].
  - intros [_ Hwho].
    assert (truthy (city (profile_of (storage asked_once) Fixture.alice)) = false)
      as Hcity by (by vm_compute).
    specialize (Hwho Hcity "Ada" "Seattle").
    cbv zeta in Hwho. vm_compute in Hwho.
    by specialize (Hwho ltac:(discriminate) eq_refl ltac:(discriminate) eq_refl).
  - intros [Hhello _].
    assert (truthy (city (profile_of (storage onboarded_once) Fixture.alice)) = true)
      as Hcity by (by vm_compute).
    destruct (Hhello Hcity) as [_ Hnone]. by vm_compute in Hnone.
Qed.

(** C5, as the code has it.  In the notification of a job the dialog begun
    depends only on whether the stored profile of the notified user has a
    city.  If it has, HELLO_USER runs: the turn sends the notice and the
    greeting, then the text of the prompt that was waiting in the
    conversation, if one was, then the acknowledgement, and the stack is
    stored as it was.  If it has not, WHO_ARE_YOU runs above whatever
    waits: the turn sends the notice and the name prompt, the answer to it
    gets the city prompt, and the answer to that is stored and ends the
    onboarding with no greeting; the prompt that was waiting below, if one
    was, then asks again.  With no dialog waiting the greeting comes with
    no prompt and the onboarding has exactly two. *)
Theorem notification_branch_and_waiting_prompt adapter now a w id r :
  act_type a = Message →
  spec_classify (act_text a) = DONE id →
  obj_get (jobs_of w) id = Some r →
  completed r = false →
  adapter (reference r) = Reachable →
  let ref := reference r in
  let p := profile_of (storage w) ref in
  let stk := stack_of (storage w) ref in
  let w' := (run_turn adapter now a w).1 in
  (truthy (city p) = true →
     (∃ rest,
        sent_during w w'
        = ([say ref ("Your queued job " ++ id ++ " just completed.");
            say ref ("Hello, " ++ template (name p) ++ " from " ++ template (city p))]
             ++ rest)%list)
     ∧ (no_waterfall_on_top stk →
        (run_turn adapter now a w).2 = None
        ∧ sent_during w w'
          = ([say ref ("Your queued job " ++ id ++ " just completed.");
              say ref ("Hello, " ++ template (name p) ++ " from " ++ template (city p))]
               ++ (say ref <$> waiting_prompt stk)
               ++ [say (act_reference a) "Job completed. Notification sent."])%list
        ∧ stack_of (storage w') ref = stk
        ∧ (stk = [] → prompts_in (sent_during w w') = [])))
  ∧ (truthy (city p) = false →
     (run_turn adapter now a w).2 = None
     ∧ sent_during w w'
       = [say ref ("Your queued job " ++ id ++ " just completed.");
          say ref "What is your name?";
          say (act_reference a) "Job completed. Notification sent."]
     ∧ stack_of (storage w') ref
       = PromptInstance NAME_PROMPT "What is your name?"
           :: WaterfallInstance WHO_ARE_YOU 0 :: stk
     ∧ ∀ adapter1 now1 t1,
         t1 ≠ EmptyString → spec_classify (Some t1) = UNRECOGNIZED →
         let w1 := (run_turn adapter1 now1 (message ref t1) w').1 in
         sent_during w' w1 = [say ref "What city are you from?"]
         ∧ stack_of (storage w1) ref
           = PromptInstance CITY_PROMPT "What city are you from?"
               :: WaterfallInstance WHO_ARE_YOU 1 :: stk
         ∧ ∀ adapter2 now2 t2,
             t2 ≠ EmptyString → spec_classify (Some t2) = UNRECOGNIZED →
             no_waterfall_on_top stk →
             let w2 := (run_turn adapter2 now2 (message ref t2) w1).1 in
             sent_during w1 w2 = (say ref <$> waiting_prompt stk)
             ∧ stack_of (storage w2) ref = stk
             ∧ profile_of (storage w2) ref = {| name := Some t1; city := Some t2 |}).
Proof.
  intros Ht Hc Hj Hpending Hreach ref p stk w'. split.
  - intros Hcity. split.
    + destruct (done_turn_hello_first adapter now a w id r) as [rest Hrest]; try done.
      exists rest. by apply sent_during_app.
    + intros Htop. subst w'.
      rewrite (done_turn_hello_any adapter now a w id r) by done. cbn [fst snd].
      split; [done|]. split; [by apply sent_during_app|].
      split; [cbn [storage]; by rewrite stack_of_with_jobs|].
      intros Hempty. erewrite sent_during_app by done.
      fold ref stk. rewrite Hempty.
      unfold prompts_in. cbn [waiting_prompt fmap list_fmap app sent_text say List.filter].
      assert (∀ q, is_prompt_text (greeting q) = false) as Hgreeting
        by (intros q; exact (not_prompt_text "H" _ ltac:(discriminate))).
      rewrite (not_prompt_text "Y" _ ltac:(discriminate) : is_prompt_text (notice_text id) = _).
      rewrite Hgreeting.
      by rewrite (not_prompt_text "J" _ ltac:(discriminate) : is_prompt_text ack_text = _).
  - intros Hcity. subst w'.
    rewrite (done_turn_who adapter now a w id r) by done. cbn [fst snd].
    split; [done|].
    set (w' := {| storage := _ |}).
    assert (stack_of (storage w') ref = name_prompt :: WaterfallInstance WHO_ARE_YOU 0 :: stk)
      as Hstk'.
    { subst w'. cbn [storage]. by rewrite stack_of_with_jobs, stack_of_with_stack. }
    split; [by apply sent_during_app|]. split; [exact Hstk'|].
    intros adapter1 now1 t1 Hne1 Hc1.
    set (w1 := (run_turn adapter1 now1 (message ref t1) w').1).
    destruct (answer_name adapter1 now1 (message ref t1) w' t1 _ _ stk
                eq_refl eq_refl Hne1 Hc1 Hstk')
      as (_ & Hout1 & _ & _ & Hprof1 & Hstk1).
    fold w1 in Hout1, Hprof1, Hstk1. cbn [message act_reference] in *.
    split; [by apply sent_during_app|]. split; [exact Hstk1|].
    intros adapter2 now2 t2 Hne2 Hc2 Htop.
    set (w2 := (run_turn adapter2 now2 (message ref t2) w1).1).
    destruct (answer_city_any adapter2 now2 (message ref t2) w1 t2 _ _ stk
                eq_refl eq_refl Hne2 Hc2 Hstk1 Htop)
      as (_ & Hout2 & _ & _ & Hprof2 & Hstk2).
    fold w2 in Hout2, Hprof2, Hstk2. cbn [message act_reference] in *.
    split; [by apply sent_during_app|].
    split; [done|]. rewrite Hprof2, Hprof1. done.
Qed.

Lemma notification_branch_and_waiting_prompt_witness :
  let done7 := message Fixture.bob "done 7" in
  let w' := (run_turn Fixture.reachable 0 done7 onboarded_once).1 in
  sent_during onboarded_once w'
  = [say Fixture.alice "Your queued job 7 just completed.";
     say Fixture.alice "Hello, Ada from Seattle";
     say Fixture.alice "What is your name?";
     say Fixture.bob "Job completed. Notification sent."]
  ∧ stack_of (storage w') Fixture.alice
    = [PromptInstance NAME_PROMPT "What is your name?";
       WaterfallInstance WHO_ARE_YOU 0].
Proof.
  destruct (notification_branch_and_waiting_prompt Fixture.reachable 0
              (message Fixture.bob "done 7") onboarded_once "7"
              {| completed := false; reference := Fixture.alice |})
    as (Hhello & _); [by vm_compute..|].
  destruct Hhello as (_ & Hexact); [by vm_compute|].
  destruct Hexact as (_ & Hsent & Hstack & _); [by vm_compute|].
  split; [exact Hsent|exact Hstack].
Defined.




(* ===================================================================== *)
(** ** Creating a job *)
(* ===================================================================== *)

(** The id [createJob] gives the job of a [run] typed at [now]. *)
Definition job_id (now : Z) : string := ToString (VNum (getMilliseconds now)).

Definition need_text (now : Z) : string := "Need to create new job ID: " ++ job_id now.
Definition success_text : string := "Successful write to log.".

Lemma obj_set_fresh_ne {A} (o : JsObject A) k v : obj_get o k = None → o ≠ obj_set o k v.
Proof. intros Hget Heq. rewrite Heq, obj_get_set_eq in Hget. congruence. Qed.

(** [run] with an id that is free. *)
Lemma run_turn_new_job adapter now a w :
  act_type a = Message →
  spec_classify (act_text a) = RUN →
  obj_get (jobs_of w) (job_id now) = None →
  run_turn adapter now a w
  = ({| storage :=
          with_jobs
            (obj_set (jobs_of w) (job_id now)
               {| completed := false; reference := act_reference a |})
            (storage w);
        outbox := outbox w ++ [say (act_reference a) (need_text now);
                               say (act_reference a) success_text];
        resumes := resumes w |}, None).
Proof.
  intros Ht Hc Hj. destruct w as [st out res]. cbn in Hj. unfold job_id in Hj.
  eapply run_turn_ok.
  - rewrite onTurn_message by done. cbn [start turn new_context activity].
    rewrite Hc. unfold message_turn, save_all, spec_dispatch, createJob.
    cbn. rewrite Hj. cbn.
    erewrite saveChanges_none by done.
    erewrite saveChanges_same by done.
    erewrite saveChanges_changed; [|done|cbn; by apply obj_set_fresh_ne].
    reflexivity.
  - cbn. unfold with_jobs, need_text, success_text, job_id, say.
    rewrite <- !app_assoc. reflexivity.
Qed.

(** [createJob] on an id that is taken: the registry is read, and that is
    all. *)
Lemma createJob_duplicate adapter now s r :
  bot_cache (turn s) = None →
  obj_get (bot_jobs (storage (world s))) (job_id now) = Some r →
  createJob adapter Turn now s
  = Ok tt (set_ctx Turn
             (sc_set_cache bot_scope
                (Some {| loaded := bot_jobs (storage (world s));
                         current := bot_jobs (storage (world s)) |})
                (turn s)) s).
Proof.
  intros Hcache Hj. unfold createJob, job_id in *. cbn in Hj |- *.
  rewrite Hcache. cbn. rewrite Hj. reflexivity.
Qed.

(** The registry and the resume log are as they were, and the registry the
    turn has cached, if any, is the stored one. *)
Definition registry_kept (jobs : Jobs) (res : list ConversationReference)
    (v : Jobs * option (Cached Jobs) * list ConversationReference) : Prop :=
  v.1.1 = jobs ∧ v.2 = res
  ∧ ∀ x, v.1.2 = Some x → loaded x = jobs ∧ current x = jobs.

Lemma registry_kept_get jobs res :
  Hoare (on_view (registry_kept jobs res)) (property_get bot_scope Turn)
    (λ j s, j = jobs ∧ on_view (registry_kept jobs res) s)
    (on_view (registry_kept jobs res)).
Proof.
  intros s (H1 & H2 & H3). unfold on_view, bot_view in *. cbn in *.
  destruct (bot_cache (turn s)) as [x|] eqn:Hx; cbn.
  - destruct (H3 x eq_refl) as [Hl Hc]. split; [done|].
    unfold registry_kept. cbn. rewrite Hx. split; [done|]. split; [done|].
    by intros ? [= <-].
  - split; [done|]. unfold registry_kept. cbn. split; [done|]. split; [done|].
    intros ? [= <-]. cbn. by rewrite H1.
Qed.

Lemma registry_kept_save jobs res :
  Preserves (on_view (registry_kept jobs res)) (saveChanges bot_scope Turn).
Proof.
  intros s (H1 & H2 & H3). unfold on_view, bot_view in *. cbn in *.
  unfold saveChanges. change (sc_cache bot_scope) with bot_cache. unfold ctx.
  destruct (bot_cache (turn s)) as [x|] eqn:Hx.
  - destruct (H3 x eq_refl) as [Hl Hc]. rewrite decide_True by congruence.
    unfold registry_kept. cbn. rewrite Hx. split; [done|]. split; [done|].
    by intros ? [= <-].
  - unfold registry_kept. cbn. by rewrite Hx.
Qed.

Lemma duplicate_run_keeps_registry adapter now a w r :
  act_type a = Message →
  spec_classify (act_text a) = RUN →
  obj_get (jobs_of w) (job_id now) = Some r →
  jobs_of (run_turn adapter now a w).1 = jobs_of w
  ∧ resumes (run_turn adapter now a w).1 = resumes w.
Proof.
  intros Ht Hc Hj. unfold run_turn. cbn [fst].
  rewrite onTurn_message by done. cbn [start turn new_context activity]. rewrite Hc.
  set (I := on_view (registry_kept (jobs_of w) (resumes w))).
  assert (Preserves I (message_turn adapter now RUN)) as Hpres.
  { unfold message_turn, save_all. apply preserves_bind.
    - apply preserves_bind; [apply on_view_createContext|]. intros _.
      apply preserves_bind.
      + cbn [spec_dispatch]. unfold createJob.
        apply preserves_bind; [apply preserves_gets|]. intros ref.
        eapply hoare_bind; [apply registry_kept_get|]. intros jobs.
        apply hoare_pure_l. intros ->.
        apply preserves_try_catch; [|intros; apply on_view_send].
        fold (job_id now). rewrite Hj. cbn [isEmpty]. apply preserves_skip.
      + intros _. apply preserves_bind; [apply preserves_gets|].
        intros []; [apply preserves_skip|apply on_view_continueDialog].
    - intros _.
      apply preserves_bind; [apply on_view_save_user|]. intros _.
      apply preserves_bind; [apply on_view_save_conv|]. intros _.
      apply registry_kept_save. }
  assert (I (start a w)) as HI.
  { subst I. unfold on_view, bot_view, registry_kept. cbn. done. }
  pose proof (preserves_final I _ _ Hpres HI) as (H1 & H2 & _).
  split; [exact H1|exact H2].
Qed.

(** The duplicate notice of the specification: the turn sends the caller
    something. *)
Definition duplicate_reported (adapter : BotAdapter) (now : Z) (a : Activity)
    (w : World) : Prop :=
  ∃ m, m ∈ sent_during w (run_turn adapter now a w).1 ∧ sent_to m = act_reference a.

(** A second [run] on the millisecond of job 5 finds the id taken and sends
    nothing at all. *)
Lemma duplicate_run_not_reported :
  let a := message Fixture.alice "run" in
  is_Some (obj_get (jobs_of Fixture.one_job) (job_id 1700000002005))
  ∧ sent_during Fixture.one_job (run_turn Fixture.reachable 1700000002005 a Fixture.one_job).1
    = []
  ∧ ¬ duplicate_reported Fixture.reachable 1700000002005 a Fixture.one_job.
Proof.
  cbv zeta. split; [by vm_compute; eexists|].
  assert (sent_during Fixture.one_job
            (run_turn Fixture.reachable 1700000002005 (message Fixture.alice "run")
               Fixture.one_job).1 = []) as Hnone by (by vm_compute).
  split; [exact Hnone|]. intros (m & Hm & _). unfold duplicate_reported in *.
  rewrite Hnone in Hm. by apply not_elem_of_nil in Hm.
Qed.

(** C3, as the code has it.  A [run] whose id already has a record creates
    nothing and reports nothing: [createJob] reads the registry and
    returns, without sending an activity and without marking the turn as
    responded (so that [onTurn] goes on to continue the dialog), and the
    registry and the resume log after the turn are those before it. *)
Theorem duplicate_run_is_silent adapter now a w r :
  act_type a = Message →
  spec_classify (act_text a) = RUN →
  obj_get (jobs_of w) (ToString (VNum (getMilliseconds now))) = Some r →
  (∀ s, bot_cache (turn s) = None → bot_jobs (storage (world s)) = jobs_of w →
        ∃ s', createJob adapter Turn now s = Ok tt s'
              ∧ world s' = world s ∧ responded (turn s') = responded (turn s))
  ∧ jobs_of (run_turn adapter now a w).1 = jobs_of w
  ∧ resumes (run_turn adapter now a w).1 = resumes w.
Proof.
  intros Ht Hc Hj. split.
  - intros s Hcache Hjobs. eexists. split.
    + apply (createJob_duplicate adapter now s r Hcache).
      unfold job_id. by rewrite Hjobs.
    + done.
  - by eapply duplicate_run_keeps_registry.
Qed.

Lemma duplicate_run_is_silent_witness :
  let a := message Fixture.alice "run" in
  jobs_of (run_turn Fixture.reachable 1700000002005 a Fixture.one_job).1
  = jobs_of Fixture.one_job
  ∧ resumes (run_turn Fixture.reachable 1700000002005 a Fixture.one_job).1
    = resumes Fixture.one_job.
Proof.
  apply (duplicate_run_is_silent Fixture.reachable 1700000002005
           (message Fixture.alice "run") Fixture.one_job
           {| completed := false; reference := Fixture.alice |});
    vm_compute; reflexivity.
Defined.

(* ===================================================================== *)
(** ** Job ids *)
(* ===================================================================== *)

Definition millisecond_key (k : string) : Prop :=
  ∃ ms, 0 ≤ ms < 1000 ∧ k = ToString (VNum ms).

(** The registry the bot builds: one record per key, every key the decimal
    form of a millisecond count. *)
Definition wf_jobs (jobs : Jobs) : Prop :=
  NoDup jobs.*1 ∧ Forall millisecond_key jobs.*1.

Lemma wf_jobs_run_turns turns w : wf_jobs (jobs_of w) → wf_jobs (jobs_of (run_turns turns w)).
Proof.
  apply (run_turns_invariant wf_jobs).
  - intros jobs ms r [Hnd Hall] Hms Hnone.
    unfold wf_jobs. rewrite obj_set_keys_absent by done. split.
    + apply NoDup_app. split; [done|]. split; [|apply NoDup_singleton].
      intros k Hk Hk'. apply list_elem_of_singleton in Hk'. subst k.
      by apply obj_get_None in Hnone.
    + apply Forall_app. split; [done|]. apply Forall_singleton. by exists ms.
  - intros jobs key info [Hnd Hall] Hkey _.
    unfold wf_jobs. by rewrite obj_set_keys_present.
Qed.

Definition millisecond_keys : list string :=
  (λ n, ToString (VNum (Z.of_nat n))) <$> seq 0 1000.

Lemma wf_jobs_length jobs : wf_jobs jobs → (length jobs ≤ 1000)%nat.
Proof.
  intros [Hnd Hall].
  rewrite <- (length_fmap fst jobs).
  replace 1000%nat with (length millisecond_keys)
    by (unfold millisecond_keys; by rewrite length_fmap, length_seq).
  apply submseteq_length, NoDup_submseteq; [done|].
  intros k Hk. rewrite Forall_forall in Hall.
  destruct (Hall k Hk) as (ms & Hms & ->).
  apply list_elem_of_fmap. exists (Z.to_nat ms). split.
  - by rewrite Z2Nat.id by lia.
  - apply elem_of_seq. lia.
Qed.

(** C10.  The id [createJob] generates is the millisecond part of the
    current time, an integer from 0 to 999: a [run] on a free id stores the
    new record under the decimal form of that number.  So the registry
    never holds more than 1000 records; and two [run]s on the same
    millisecond value have the same id, and the second creates nothing. *)
Theorem job_ids_are_milliseconds :
  (∀ now, 0 ≤ getMilliseconds now < 1000)
  ∧ (∀ adapter now a w,
       act_type a = Message →
       spec_classify (act_text a) = RUN →
       obj_get (jobs_of w) (job_id now) = None →
       jobs_of (run_turn adapter now a w).1
       = obj_set (jobs_of w) (ToString (VNum (getMilliseconds now)))
           {| completed := false; reference := act_reference a |})
  ∧ (∀ turns, (length (jobs_of (run_turns turns empty_world)) ≤ 1000)%nat)
  ∧ (∀ adapter1 now1 a1 adapter2 now2 a2 w,
       act_type a1 = Message → spec_classify (act_text a1) = RUN →
       act_type a2 = Message → spec_classify (act_text a2) = RUN →
       getMilliseconds now1 = getMilliseconds now2 →
       job_id now1 = job_id now2
       ∧ is_Some (obj_get (jobs_of (run_turn adapter1 now1 a1 w).1) (job_id now1))
       ∧ jobs_of (run_turn adapter2 now2 a2 (run_turn adapter1 now1 a1 w).1).1
         = jobs_of (run_turn adapter1 now1 a1 w).1).
Proof.
  split; [apply getMilliseconds_range|]. split; [|split].
  - intros adapter now a w Ht Hc Hj. by rewrite run_turn_new_job.
  - intros turns. apply wf_jobs_length, wf_jobs_run_turns.
    split; [apply NoDup_nil_2|apply Forall_nil_2].
  - intros adapter1 now1 a1 adapter2 now2 a2 w Ht1 Hc1 Ht2 Hc2 Hms.
    assert (job_id now1 = job_id now2) as Hid by (unfold job_id; by rewrite Hms).
    split; [exact Hid|].
    assert (is_Some (obj_get (jobs_of (run_turn adapter1 now1 a1 w).1) (job_id now1)))
      as [r Hr].
    { destruct (obj_get (jobs_of w) (job_id now1)) as [r|] eqn:Hj.
      - destruct (duplicate_run_keeps_registry adapter1 now1 a1 w r Ht1 Hc1 Hj)
          as [-> _]. by exists r.
      - rewrite run_turn_new_job by done. cbn. rewrite obj_get_set_eq. by eexists. }
    split; [by exists r|].
    rewrite Hid in Hr.
    by destruct (duplicate_run_keeps_registry adapter2 now2 a2 _ r Ht2 Hc2 Hr).
Qed.

Lemma job_ids_are_milliseconds_witness :
  let a := message Fixture.alice "run" in
  jobs_of (run_turn Fixture.reachable 1700000000005 a empty_world).1
  = [("5", {| completed := false; reference := Fixture.alice |})]
  ∧ jobs_of (run_turn Fixture.reachable 1700000002005 a
               (run_turn Fixture.reachable 1700000000005 a empty_world).1).1
    = jobs_of (run_turn Fixture.reachable 1700000000005 a empty_world).1.
Proof.
  destruct job_ids_are_milliseconds as (_ & Hnew & _ & Hsame).
  split.
  - apply (Hnew Fixture.reachable 1700000000005 (message Fixture.alice "run")
             empty_world); vm_compute; reflexivity.
  - apply (Hsame Fixture.reachable 1700000000005 (message Fixture.alice "run")
             Fixture.reachable 1700000002005 (message Fixture.alice "run")
             empty_world); vm_compute; reflexivity.
Defined.

(* ===================================================================== *)
(** ** [show] after [run]s on one millisecond *)
(* ===================================================================== *)

(** C4, where it fails.  Two [run]s whose instants have the same
    millisecond part leave one record, and [show] renders one row. *)
Lemma two_runs_same_millisecond_one_row :
  let run := message Fixture.alice "run" in
  let w2 := run_turns
              [ {| in_adapter := Fixture.reachable; in_now := 1700000000005;
                   in_activity := run |};
                {| in_adapter := Fixture.reachable; in_now := 1700000001005;
                   in_activity := run |} ] empty_world in
  let w3 := (run_turn Fixture.reachable 1700000002000 (message Fixture.alice "show") w2).1 in
  length (jobs_of w2) = 1%nat
  ∧ sent_during w2 w3
    = [say Fixture.alice (table_header ++ "5 &nbsp; | conv-a &nbsp; | false")].
Proof. cbv zeta. split; by vm_compute. Qed.

(* ===================================================================== *)
(** ** [show] after [run]s on distinct milliseconds *)
(* ===================================================================== *)

Lemma to_int_proper z : Z.to_int z ≠ Decimal.Pos Decimal.Nil ∧ Z.to_int z ≠ Decimal.Neg Decimal.Nil.
Proof.
  destruct z as [|p|p]; cbn; split; try done;
    intros [= H]; by apply (DecimalPos.Unsigned.to_uint_nonnil p).
Qed.

Lemma ToString_VNum_inj a b : ToString (VNum a) = ToString (VNum b) → a = b.
Proof.
  cbn. intros H. apply DecimalZ.to_int_inj.
  destruct (to_int_proper a) as [Ha1 Ha2]. destruct (to_int_proper b) as [Hb1 Hb2].
  pose proof (NilZero.isi _ Ha1 Ha2) as Ea. pose proof (NilZero.isi _ Hb1 Hb2) as Eb.
  rewrite H in Ea. congruence.
Qed.

(** The keys [Object.keys] lists are the keys of the object, each once. *)
Lemma index_keys_elem ks n k : (n, k) ∈ index_keys ks → k ∈ ks.
Proof.
  unfold index_keys. rewrite list_elem_of_omap. intros (k' & Hk' & Heq).
  destruct (index_of_key k'); [|done]. cbn in Heq. by injection Heq as _ <-.
Qed.

Lemma Object_keys_elem {A} (o : JsObject A) k : k ∈ Object_keys o → k ∈ o.*1.
Proof.
  unfold Object_keys. rewrite elem_of_app. intros [H|H].
  - apply list_elem_of_fmap in H as ([n k'] & -> & H).
    rewrite merge_sort_Permutation in H. by eapply index_keys_elem.
  - apply list_elem_of_In, List.filter_In in H as [H _]. by apply list_elem_of_In.
Qed.

Lemma Object_keys_length {A} (o : JsObject A) : length (Object_keys o) = length o.
Proof.
  unfold Object_keys. rewrite length_app, length_fmap, merge_sort_Permutation.
  rewrite <- (length_fmap fst o). generalize (o.*1). intros ks.
  induction ks as [|k ks IH]; [done|].
  unfold index_keys, is_index_key in *. cbn.
  destruct (index_of_key k); cbn; lia.
Qed.

Lemma obj_get_Some_key {A} (o : JsObject A) k : k ∈ o.*1 → is_Some (obj_get o k).
Proof.
  intros H. destruct (obj_get o k) eqn:E; [by eexists|].
  by apply obj_get_None in E.
Qed.

(** The rows [show] renders. *)
Definition render_row (key : string) (job : JobRecord) : string :=
  key ++ " &nbsp; | " ++ List.hd EmptyString (split "|" (conversation_id (reference job)))
  ++ " &nbsp; | " ++ show_bool (completed job).

Definition show_rows (jobs : Jobs) : list string :=
  omap (λ key, render_row key <$> obj_get jobs key) (Object_keys jobs).

Lemma job_row_render jobs key job :
  obj_get jobs key = Some job → job_row jobs key = Some (render_row key job).
Proof. intros H. unfold job_row. by rewrite H. Qed.

Lemma job_rows_some jobs keys :
  (∀ k, k ∈ keys → is_Some (obj_get jobs k)) →
  mapM (job_row jobs) keys = Some (omap (λ key, render_row key <$> obj_get jobs key) keys)
  ∧ length (omap (λ key, render_row key <$> obj_get jobs key) keys) = length keys.
Proof.
  intros Hall.
  assert (Forall2 (λ key row, job_row jobs key = Some row) keys
            (omap (λ key, render_row key <$> obj_get jobs key) keys)) as H.
  { induction keys as [|k keys IH]; [constructor|].
    destruct (Hall k) as [job Hjob]; [by left|].
    cbn [omap list_omap]. rewrite Hjob. cbn [fmap option_fmap option_map].
    constructor; [by apply job_row_render|].
    apply IH. intros k' Hk'. apply Hall. by right. }
  split; [by apply mapM_Some_2|]. symmetry. by eapply Forall2_length.
Qed.

Lemma show_rows_length jobs : length (show_rows jobs) = length jobs.
Proof.
  unfold show_rows.
  destruct (job_rows_some jobs (Object_keys jobs)) as [_ ->];
    [|apply Object_keys_length].
  intros k Hk. by apply obj_get_Some_key, Object_keys_elem.
Qed.

#[local] Arguments Object_keys : simpl never.
#[local] Arguments mapM : simpl never.
#[local] Arguments job_row : simpl never.

(** [show] on a registry that is not empty. *)
Lemma show_turn adapter now a w :
  act_type a = Message →
  spec_classify (act_text a) = SHOW →
  jobs_of w ≠ [] →
  run_turn adapter now a w
  = (replied w (act_reference a) (table_header ++ join "<br>" (show_rows (jobs_of w))),
     None).
Proof.
  intros Ht Hc Hne. destruct w as [st out res]. cbn in Hne.
  eapply run_turn_ok.
  - rewrite onTurn_message by done. cbn [start turn new_context activity].
    rewrite Hc. unfold message_turn, save_all, spec_dispatch, showJobs.
    cbn. rewrite decide_True.
    2:{ rewrite Object_keys_length. by destruct (bot_jobs st). }
    destruct (job_rows_some (bot_jobs st) (Object_keys (bot_jobs st))) as [-> _].
    { intros k Hk. by apply obj_get_Some_key, Object_keys_elem. }
    cbn.
    erewrite saveChanges_none by done.
    erewrite saveChanges_same by done.
    erewrite saveChanges_same by done.
    reflexivity.
  - reflexivity.
Qed.

Lemma obj_set_fresh {A} (o : JsObject A) k v :
  obj_get o k = None → obj_set o k v = (o ++ [(k, v)])%list.
Proof.
  induction o as [|[k' v'] o IH]; cbn; [done|].
  case_decide; [done|]. intros H'. by rewrite IH.
Qed.

Lemma Object_keys_set {A} (o : JsObject A) k v :
  is_Some (obj_get o k) → Object_keys (obj_set o k v) = Object_keys o.
Proof. intros H. unfold Object_keys. by rewrite obj_set_keys_present. Qed.

(** A [run] message. *)
Definition is_run (t : TurnInput) : Prop :=
  act_type (in_activity t) = Message ∧ spec_classify (act_text (in_activity t)) = RUN.

(** The record a [run] stores. *)
Definition new_record (t : TurnInput) : string * JobRecord :=
  (job_id (in_now t),
   {| completed := false; reference := act_reference (in_activity t) |}).

Lemma run_turns_cons t turns w :
  run_turns (t :: turns) w
  = run_turns turns (run_turn (in_adapter t) (in_now t) (in_activity t) w).1.
Proof. reflexivity. Qed.

(** [run]s on ids that are free and pairwise distinct append one pending
    record each. *)
Lemma runs_on_distinct_ids turns w :
  Forall is_run turns →
  NoDup ((λ t, job_id (in_now t)) <$> turns) →
  (∀ t, t ∈ turns → obj_get (jobs_of w) (job_id (in_now t)) = None) →
  jobs_of (run_turns turns w) = (jobs_of w ++ (new_record <$> turns))%list.
Proof.
  revert w. induction turns as [|t turns IH]; intros w Hrun Hnd Hfree.
  - cbn. by rewrite app_nil_r.
  - apply Forall_cons in Hrun as [[Ht Hc] Hrun].
    cbn [fmap list_fmap] in Hnd. apply NoDup_cons in Hnd as [Hnotin Hnd].
    assert (obj_get (jobs_of w) (job_id (in_now t)) = None) as Hnone
      by (apply Hfree; by left).
    rewrite run_turns_cons.
    rewrite IH; [|done|done|].
    + rewrite run_turn_new_job by done. cbn [fst jobs_of storage with_jobs bot_jobs].
      rewrite obj_set_fresh by done. by rewrite <- app_assoc.
    + intros t' Ht'. rewrite run_turn_new_job by done.
      cbn [fst jobs_of storage with_jobs bot_jobs].
      rewrite obj_get_set_ne; [apply Hfree; by right|].
      intros Heq. apply Hnotin. apply list_elem_of_fmap. by exists t'.
Qed.

(** With ids that are pairwise distinct the table is as one expects: after
    N [run]s from the empty registry the registry has N records, all
    pending, and [show] renders N rows; a [done <id>] that returns on one
    of them changes the row of that id to completed and no other row. *)
Lemma show_after_runs_on_distinct_ids turns :
  Forall is_run turns →
  NoDup ((λ t, job_id (in_now t)) <$> turns) →
  let w := run_turns turns empty_world in
  length (show_rows (jobs_of w)) = length turns
  ∧ (∀ key job, obj_get (jobs_of w) key = Some job → completed job = false)
  ∧ (turns ≠ [] →
     ∀ adapter now a, act_type a = Message → spec_classify (act_text a) = SHOW →
       run_turn adapter now a w
       = (replied w (act_reference a)
            (table_header ++ join "<br>" (show_rows (jobs_of w))), None))
  ∧ (∀ adapter now a id job,
       act_type a = Message → spec_classify (act_text a) = DONE id →
       obj_get (jobs_of w) id = Some job →
       (run_turn adapter now a w).2 = None →
       show_rows (jobs_of (run_turn adapter now a w).1)
       = omap (λ key,
                 render_row key
                   <$> (if decide (key = id)
                        then Some {| completed := true; reference := reference job |}
                        else obj_get (jobs_of w) key))
           (Object_keys (jobs_of w))).
Proof.
  intros Hrun Hnd w.
  assert (jobs_of w = new_record <$> turns) as Hjobs.
  { subst w. by rewrite runs_on_distinct_ids. }
  assert (∀ key job, obj_get (jobs_of w) key = Some job → completed job = false)
    as Hpending.
  { intros key job. rewrite Hjobs. clear.
    induction turns as [|t turns IH]; [done|]. cbn.
    case_decide; [by intros [= <-]|done]. }
  split; [by rewrite show_rows_length, Hjobs, length_fmap|].
  split; [exact Hpending|]. split.
  - intros Hne adapter now a Ht Hc. apply show_turn; [done|done|].
    rewrite Hjobs. by destruct turns.
  - intros adapter now a id job Ht Hc Hj Hok.
    destruct (done_turn_success adapter now a w id job Ht Hc Hj
                (Hpending _ _ Hj) Hok) as [-> _].
    unfold show_rows. rewrite Object_keys_set by (by eexists).
    apply list_omap_ext, Forall2_same_length_lookup_2; [done|].
    intros i key key' Hk Hk'. assert (key' = key) as -> by congruence.
    case_decide as Hkey.
    + subst key. by rewrite obj_get_set_eq.
    + by rewrite obj_get_set_ne.
Qed.

(* ===================================================================== *)
(** ** The decimal form of a number, as a token of a message *)
(* ===================================================================== *)

Definition is_digit (c : ascii) : bool :=
  let n := N_of_ascii c in (N.leb 48 n && N.leb n 57)%bool.

Fixpoint all_digits (s : string) : bool :=
  match s with
  | EmptyString => true
  | String c s' => is_digit c && all_digits s'
  end.

(** A non-empty run of digits, with or without a minus sign before it. *)
Definition numeral (s : string) : Prop :=
  ∃ ds, ds ≠ EmptyString ∧ all_digits ds = true ∧ (s = ds ∨ s = String "-" ds).

Lemma digit_char c :
  is_digit c = true →
  is_ws c = false ∧ lower_char c = c ∧ Ascii.eqb c " " = false
  ∧ is_Some (digit_val 10 c) ∧ c ≠ "x"%char ∧ c ≠ "X"%char
  ∧ c ≠ "-"%char ∧ c ≠ "+"%char.
Proof.
  destruct c as [[] [] [] [] [] [] [] []]; intros H; try discriminate H;
    repeat split; try done; by eexists.
Qed.

Lemma string_of_uint_digits d : all_digits (NilEmpty.string_of_uint d) = true.
Proof. induction d; cbn; auto. Qed.

Lemma ToString_numeral v : numeral (ToString (VNum v)).
Proof.
  unfold ToString, Z.to_int, NilZero.string_of_int, NilZero.string_of_uint.
  destruct v as [|p|p].
  - exists "0". by eauto.
  - pose proof (DecimalPos.Unsigned.to_uint_nonnil p) as Hnil.
    exists (NilEmpty.string_of_uint (Pos.to_uint p)).
    split; [by destruct (Pos.to_uint p)|].
    split; [apply string_of_uint_digits|]. left. by destruct (Pos.to_uint p).
  - pose proof (DecimalPos.Unsigned.to_uint_nonnil p) as Hnil.
    exists (NilEmpty.string_of_uint (Pos.to_uint p)).
    split; [by destruct (Pos.to_uint p)|].
    split; [apply string_of_uint_digits|]. right. by destruct (Pos.to_uint p).
Qed.

Lemma append_cons c s t : (String c s ++ t) = String c (s ++ t).
Proof. reflexivity. Qed.

Lemma append_nil_r s : (s ++ EmptyString) = s.
Proof. induction s as [|c s IH]; [done|]. by rewrite append_cons, IH. Qed.

Lemma rev_app_rev_app a b c :
  String.rev_app (String.rev_app a b) c = String.rev_app b (a ++ c).
Proof.
  revert b c. induction a as [|x a IH]; intros b c; cbn; [done|].
  by rewrite IH, append_cons.
Qed.

Lemma rev_rev s : String.rev (String.rev s) = s.
Proof. unfold String.rev. rewrite rev_app_rev_app. cbn. apply append_nil_r. Qed.

Lemma rev_app_append a b acc :
  String.rev_app (a ++ b) acc = String.rev_app b (String.rev_app a acc).
Proof.
  revert acc. induction a as [|x a IH]; intros acc; [done|].
  rewrite append_cons. cbn. by rewrite IH.
Qed.

(** A text that neither starts nor ends with white space is its own
    trimmed form. *)
Lemma trim_id p c :
  trimStart (p ++ String c EmptyString) = (p ++ String c EmptyString) →
  is_ws c = false →
  trim (p ++ String c EmptyString) = (p ++ String c EmptyString).
Proof.
  intros Hstart Hc. unfold trim. rewrite Hstart.
  assert (String.rev (p ++ String c EmptyString) = String c (String.rev p)) as Hrev.
  { unfold String.rev. by rewrite rev_app_append. }
  rewrite Hrev. cbn. rewrite Hc. rewrite <- Hrev. apply rev_rev.
Qed.

Lemma digits_last ds :
  ds ≠ EmptyString → all_digits ds = true →
  ∃ p c, ds = (p ++ String c EmptyString) ∧ is_ws c = false.
Proof.
  induction ds as [|x ds IH]; [done|]. intros _ Hd. cbn in Hd.
  apply andb_true_iff in Hd as [Hx Hds].
  destruct ds as [|y ds].
  - exists EmptyString, x. split; [done|]. by apply digit_char.
  - destruct (IH ltac:(done) Hds) as (p & c & Hp & Hc).
    exists (String x p), c. split; [|done]. by rewrite append_cons, <- Hp.
Qed.

Lemma digits_lower ds : all_digits ds = true → toLowerCase ds = ds.
Proof.
  induction ds as [|x ds IH]; [done|]. cbn. intros [Hx Hds]%andb_true_iff.
  rewrite IH by done. by destruct (digit_char x Hx) as (_ & -> & _).
Qed.

Lemma digits_split ds : all_digits ds = true → split " " ds = [ds].
Proof.
  induction ds as [|x ds IH]; [done|]. cbn. intros [Hx Hds]%andb_true_iff.
  destruct (digit_char x Hx) as (_ & _ & -> & _). by rewrite IH.
Qed.

Lemma digits_prefix_Some radix a s : is_Some (digits_prefix radix (Some a) s).
Proof.
  revert a. induction s as [|c s IH]; intros a; cbn; [by eexists|].
  destruct (digit_val radix c); [apply IH|by eexists].
Qed.

Lemma digits_parse ds :
  ds ≠ EmptyString → all_digits ds = true →
  is_Some (digits_prefix 10 None ds)
  ∧ match ds with
    | String "0" (String "x" r) => False
    | String "0" (String "X" r) => False
    | _ => True
    end.
Proof.
  destruct ds as [|x ds]; [done|]. intros _ Hd. cbn in Hd.
  apply andb_true_iff in Hd as [Hx Hds]. split.
  - cbn. destruct (digit_char x Hx) as (_ & _ & _ & [d ->] & _).
    apply digits_prefix_Some.
  - destruct ds as [|y ds]; [by destruct x as [[] [] [] [] [] [] [] []]|].
    cbn in Hds. apply andb_true_iff in Hds as [Hy _].
    destruct (digit_char y Hy) as (_ & _ & _ & _ & Hx1 & Hx2 & _).
    destruct x as [[] [] [] [] [] [] [] []]; try done.
    destruct y as [[] [] [] [] [] [] [] []]; try done.
Qed.

Lemma isNaN_fmap f x : isNaN (f <$> x) = isNaN x.
Proof. by destruct x. Qed.

Lemma digits_parseInt sign ds :
  ds ≠ EmptyString → all_digits ds = true →
  isNaN
    (let '(radix, s2) :=
       match ds with
       | String "0" (String "x" r) => (16, r)
       | String "0" (String "X" r) => (16, r)
       | _ => (10, ds)
       end in
     Z.mul sign <$> digits_prefix radix None s2) = false.
Proof.
  intros Hne Hd. destruct (digits_parse ds Hne Hd) as [[n Hn] Hx].
  assert (match ds with
          | String "0" (String "x" r) => (16, r)
          | String "0" (String "X" r) => (16, r)
          | _ => (10, ds)
          end = (10, ds)) as ->.
  { destruct ds as [|x [|y r]]; try done;
      destruct x as [[] [] [] [] [] [] [] []]; try done;
      destruct y as [[] [] [] [] [] [] [] []]; try done. }
  by rewrite isNaN_fmap, Hn.
Qed.

Lemma digits_trimStart ds : all_digits ds = true → trimStart ds = ds.
Proof.
  destruct ds as [|x r]; [done|]. cbn. intros [Hx _]%andb_true_iff.
  by destruct (digit_char x Hx) as (-> & _).
Qed.

Lemma digits_sign ds :
  all_digits ds = true →
  match ds with
  | String "-" r => (-1, r)
  | String "+" r => (1, r)
  | _ => (1, ds)
  end = (1, ds).
Proof.
  destruct ds as [|x r]; [done|]. cbn. intros [Hx _]%andb_true_iff.
  destruct x as [[] [] [] [] [] [] [] []]; done.
Qed.

Lemma numeral_parses s : numeral s → isNaN (parseInt (VStr s)) = false.
Proof.
  intros (ds & Hne & Hd & Hs). unfold parseInt. cbn [ToString].
  destruct Hs as [-> | ->].
  - rewrite digits_trimStart, digits_sign by done. by apply digits_parseInt.
  - cbn [trimStart]. change (is_ws "-") with false. cbv iota.
    by apply digits_parseInt.
Qed.

Lemma numeral_utterance s :
  numeral s → utterance_of (Some ("done " ++ s)) = ("done " ++ s).
Proof.
  intros (ds & Hne & Hd & Hs).
  change (utterance_of (Some ("done " ++ s))) with (toLowerCase (trim ("done " ++ s))).
  destruct (digits_last ds Hne Hd) as (p & c & Hp & Hc).
  assert (∃ q, s = (q ++ String c EmptyString)) as [q Hq].
  { destruct Hs as [-> | ->]; [by exists p|]. exists (String "-" p).
    by rewrite append_cons, <- Hp. }
  assert (toLowerCase s = s) as Hlower.
  { destruct Hs as [-> | ->]; [by apply digits_lower|].
    cbn. by rewrite digits_lower. }
  assert (trim ("done " ++ s) = ("done " ++ s)) as ->.
  { rewrite Hq.
    change ("done " ++ (q ++ String c EmptyString))
      with (("done " ++ q) ++ String c EmptyString).
    by apply trim_id. }
  change (toLowerCase ("done " ++ s)) with ("done " ++ toLowerCase s).
  by rewrite Hlower.
Qed.

Lemma numeral_split s : numeral s → split " " ("done " ++ s) = ["done"; s].
Proof.
  intros (ds & Hne & Hd & Hs).
  assert (split " " s = [s]) as Hsplit.
  { destruct Hs as [-> | ->]; [by apply digits_split|].
    cbn. by rewrite digits_split. }
  change ("done " ++ s)
    with (String "d" (String "o" (String "n" (String "e" (String " " s))))).
  cbn. by rewrite Hsplit.
Qed.

(** The message [done <number>] is the command DONE on that number. *)
Lemma numeral_classify s : numeral s → spec_classify (Some ("done " ++ s)) = DONE s.
Proof.
  intros Hs. unfold spec_classify. rewrite numeral_utterance by done.
  rewrite decide_False by done. rewrite decide_False by done.
  unfold first_token, second_token. rewrite numeral_split by done. cbn.
  unfold parses_as_integer. by rewrite numeral_parses.
Qed.
(* ===================================================================== *)
(** ** What [completeJob] does not look at *)
(* ===================================================================== *)

(** [completeJob] depends on the activity of the turn only through the
    conversation reference it answers to, and it neither reads nor changes
    the dialog stack the turn has cached. *)

Section Frame.
Context (a' : Activity) (x : option (Cached DialogStack)).

(** The same state in a turn that carries the activity [a'] and has [x] as
    its cached dialog stack. *)
Definition reframe (s : State) : State :=
  {| world := world s;
     turn := {| activity := a'; responded := responded (turn s);
                bot_cache := bot_cache (turn s); user_cache := user_cache (turn s);
                conv_cache := x |};
     proactive := proactive s |}.

Definition same_caller (s : State) : Prop :=
  act_reference (activity (turn s)) = act_reference a'.

Definition reframed {A} (r : Result A) : Result A :=
  match r with
  | Ok v s => Ok v (reframe s)
  | Threw e s => Threw e (reframe s)
  end.

Definition Framed {A} (m : M A) : Prop :=
  ∀ s, same_caller s →
    m (reframe s) = reframed (m s) ∧ same_caller (final_state (m s)).

Lemma framed_bind {A B} (m : M A) (f : A → M B) :
  Framed m → (∀ a, Framed (f a)) → Framed (m ≫= f).
Proof.
  intros Hm Hf s Hs. destruct (Hm s Hs) as [Heq Hs']. cbn. rewrite Heq.
  destruct (m s) as [v s1|e s1]; cbn in *; [by apply Hf|done].
Qed.

Lemma framed_skip : Framed skip.
Proof. by intros s Hs. Qed.

Lemma framed_throw {A} e : Framed (@throw A e).
Proof. by intros s Hs. Qed.

Lemma framed_try_catch {A} (m : M A) h :
  Framed m → (∀ e, Framed (h e)) → Framed (try_catch m h).
Proof.
  intros Hm Hh s Hs. destruct (Hm s Hs) as [Heq Hs']. cbn. rewrite Heq.
  destruct (m s) as [v s1|e s1]; cbn in *; [done|by apply Hh].
Qed.

Ltac framed_prim :=
  intros [w [a r bc uc cc] [pa pr pbc puc pcc]] Hs;
  unfold same_caller in *; cbn in *;
  repeat (match goal with
          | |- context [match ?o with Some _ => _ | None => _ end] => destruct o
          end; cbn);
  try (split; done).

Lemma framed_get_jobs : Framed (property_get bot_scope Turn).
Proof. framed_prim. Qed.

Lemma framed_set_jobs v : Framed (property_set bot_scope Turn v).
Proof. framed_prim. Qed.

Lemma framed_get_user : Framed (property_get user_scope Proactive).
Proof. framed_prim. Qed.

Lemma framed_set_user v : Framed (property_set user_scope Proactive v).
Proof. framed_prim. Qed.

Lemma framed_get_stack : Framed (get_stack Proactive).
Proof. framed_prim. Qed.

Lemma framed_set_stack stk : Framed (set_stack Proactive stk).
Proof. framed_prim. Qed.

Lemma framed_createContext : Framed (createContext Proactive).
Proof. framed_prim. Qed.

Lemma framed_send adapter c text : Framed (sendActivity adapter c text).
Proof.
  destruct c; [framed_prim; by rewrite Hs|].
  intros [w [a r bc uc cc] [pa pr pbc puc pcc]] Hs. cbn.
  by destruct (adapter _).
Qed.

Lemma framed_continueConversation adapter r logic :
  Framed logic → Framed (continueConversation adapter r logic).
Proof.
  intros Hl s Hs. unfold continueConversation.
  destruct (adapter r); try done; apply (Hl (set_ctx Proactive _ (set_world _ s))); done.
Qed.

Lemma framed_save_conv : Framed (saveChanges conv_scope Proactive).
Proof.
  intros [w [a r bc uc cc] [pa pr pbc puc pcc]] Hs. unfold saveChanges. cbn.
  destruct pcc as [y|]; [|done]. by case_decide.
Qed.

Lemma framed_save_user : Framed (saveChanges user_scope Turn).
Proof.
  intros [w [a r bc uc cc] [pa pr pbc puc pcc]] Hs. unfold saveChanges.
  unfold same_caller in Hs. cbn in *.
  destruct uc as [y|]; [|done]. case_decide; [done|]. by rewrite Hs.
Qed.

Lemma framed_save_jobs : Framed (saveChanges bot_scope Turn).
Proof.
  intros [w [a r bc uc cc] [pa pr pbc puc pcc]] Hs. unfold saveChanges.
  unfold same_caller in Hs. cbn in *.
  destruct bc as [y|]; [|done]. by case_decide.
Qed.

(** The dialogs, run in the proactive context. *)

Section Dialogs.
Context (adapter : BotAdapter).

Lemma framed_prompt id text : Framed (prompt adapter (dialogs adapter) Proactive id text).
Proof.
  unfold prompt. destruct (obj_get _ id) as [[|]|]; try apply framed_throw.
  apply framed_bind; [apply framed_get_stack|]. intros stk.
  apply framed_bind; [apply framed_set_stack|]. intros _.
  apply framed_send.
Qed.

Lemma framed_set_stepIndex index : Framed (set_stepIndex Proactive index).
Proof.
  unfold set_stepIndex. apply framed_bind; [apply framed_get_stack|].
  intros stk. destruct stk as [|[id i|id text] rest];
    [apply framed_skip|apply framed_set_stack|apply framed_skip].
Qed.

Definition StepFramed (f : WaterfallStep) : Prop :=
  ∀ result end_,
    (∀ r, Framed (end_ r)) →
    Framed (f {| step_context := Proactive; step_result := result;
                 step_prompt := prompt adapter (dialogs adapter) Proactive;
                 step_endDialog := end_ |}).

Lemma steps_framed id : Forall StepFramed (steps_of (dialogs adapter) id).
Proof.
  destruct (steps_of_dialogs adapter id) as [->|[->| ->]];
    [apply Forall_cons_2; [|apply Forall_cons_2; [|apply Forall_cons_2; [|apply Forall_nil_2]]]
    |apply Forall_cons_2; [|apply Forall_nil_2]
    |apply Forall_nil_2].
  - intros result end_ Hend. apply framed_prompt.
  - intros result end_ Hend. unfold promptForCity. cbn.
    apply framed_bind; [apply framed_get_user|]. intros user.
    apply framed_bind; [apply framed_set_user|]. intros _.
    apply framed_bind; [apply framed_set_user|]. intros _.
    apply framed_prompt.
  - intros result end_ Hend. unfold captureCity. cbn.
    apply framed_bind; [apply framed_get_user|]. intros user.
    apply framed_bind; [apply framed_set_user|]. intros _.
    apply framed_bind; [apply framed_set_user|]. intros _.
    apply Hend.
  - intros result end_ Hend. unfold displayProfile. cbn.
    apply framed_bind; [apply framed_get_user|]. intros user.
    apply framed_bind; [apply framed_send|]. intros _.
    apply Hend.
Qed.

Lemma framed_runStep steps index result end_ :
  Forall StepFramed steps →
  (∀ r, Framed (end_ r)) →
  Framed (runStep adapter (dialogs adapter) Proactive steps index result end_).
Proof.
  intros Hsteps Hend. unfold runStep.
  destruct (steps !! index) as [f|] eqn:Hf; [|apply Hend].
  apply framed_bind; [apply framed_set_stepIndex|]. intros _.
  eapply Forall_lookup_1 in Hsteps; [|done]. by apply Hsteps.
Qed.

Lemma framed_endDialog_from stk result :
  Framed (endDialog_from adapter (dialogs adapter) Proactive stk result).
Proof.
  revert result. induction stk as [|top parent IH]; intros result; cbn [endDialog_from].
  - apply framed_skip.
  - apply framed_bind; [apply framed_set_stack|]. intros _.
    destruct parent as [|[id index|id text] rest].
    + apply framed_skip.
    + apply framed_runStep; [apply steps_framed|done].
    + apply framed_send.
Qed.

Lemma framed_beginDialog id : Framed (beginDialog adapter (dialogs adapter) Proactive id).
Proof.
  unfold beginDialog.
  destruct (obj_get (dialogs adapter) id) as [[|steps]|] eqn:Hd;
    try apply framed_throw.
  apply framed_bind; [apply framed_get_stack|]. intros stk.
  apply framed_bind; [apply framed_set_stack|]. intros _.
  apply framed_runStep; [|intros; apply framed_endDialog_from].
  pose proof (steps_framed id) as Hs. unfold steps_of in Hs. by rewrite Hd in Hs.
Qed.

Lemma framed_notify jobs jobInfo jobIdNumber :
  Framed (notify adapter Turn jobs jobInfo jobIdNumber).
Proof.
  unfold notify.
  apply framed_bind; [apply framed_set_jobs|]. intros _.
  apply framed_bind; [apply framed_set_jobs|]. intros _.
  apply framed_bind; [apply framed_send|]. intros _.
  apply framed_bind; [apply framed_createContext|]. intros _.
  apply framed_bind; [apply framed_get_user|]. intros user.
  apply framed_bind; [|intros _; apply framed_save_conv].
  destruct (truthy (city user)); apply framed_beginDialog.
Qed.

Lemma framed_completeJob jobIdNumber : Framed (completeJob adapter Turn jobIdNumber).
Proof.
  unfold completeJob.
  apply framed_bind; [apply framed_get_jobs|]. intros jobs.
  destruct (obj_get jobs _) as [info|]; cbn [isEmpty]; [|apply framed_send].
  destruct (_ && _)%bool.
  - apply framed_bind; [|intros _; apply framed_send].
    apply framed_continueConversation, framed_notify.
  - destruct (completed info); [apply framed_send|apply framed_skip].
Qed.

End Dialogs.

End Frame.

Lemma returns_send_responded adapter pre text :
  Returns pre (sendActivity adapter Turn text) (λ _ s, responded (turn s) = true).
Proof. by intros s _. Qed.

Lemma returns_any {A} pre (m : M A) : Returns pre m (λ _ _, True).
Proof. intros s _. by destruct (m s). Qed.

(** A [completeJob] that returns has answered the caller. *)
Lemma completeJob_responds adapter jobIdNumber s s' :
  completeJob adapter Turn jobIdNumber s = Ok tt s' → responded (turn s') = true.
Proof.
  assert (Returns (λ _, True) (completeJob adapter Turn jobIdNumber)
            (λ _ s, responded (turn s) = true)) as H.
  { unfold completeJob.
    eapply returns_bind; [apply returns_any|]. intros jobs.
    destruct (obj_get jobs _) as [info|]; cbn [isEmpty];
      [|apply returns_send_responded].
    destruct (completed info); cbn [truthy_object negb andb];
      [apply returns_send_responded|].
    eapply returns_bind; [apply returns_any|]. intros ?.
    apply returns_send_responded. }
  intros Hrun. specialize (H s I). by rewrite Hrun in H.
Qed.

Lemma reframe_fixed a s :
  activity (turn s) = a → conv_cache (turn s) = None → reframe a None s = s.
Proof. destruct s as [w [a0 r bc uc cc] p]. cbn. by intros -> ->. Qed.

(** What is framed leaves the cached dialog stack of the turn, and its
    activity, as they were. *)
Lemma framed_fixed {A} a (m : M A) s :
  Framed a None m →
  activity (turn s) = a → conv_cache (turn s) = None →
  activity (turn (final_state (m s))) = a
  ∧ conv_cache (turn (final_state (m s))) = None.
Proof.
  intros Hm Ha Hc. destruct (Hm s) as [Heq _]; [unfold same_caller; by rewrite Ha|].
  rewrite reframe_fixed in Heq by done.
  destruct (m s) as [v s1|e s1]; cbn in *.
  - injection Heq as Heq. by rewrite Heq.
  - injection Heq as Heq. by rewrite Heq.
Qed.

(** The three [saveChanges] of a turn that has not touched its dialog
    stack, in the two frames. *)
Lemma save_all_reframe a a' stk s :
  act_reference a = act_reference a' →
  activity (turn s) = a → conv_cache (turn s) = None →
  ∃ s', save_all s = Ok tt s'
        ∧ save_all (reframe a' (Some {| loaded := stk; current := stk |}) s)
          = Ok tt (reframe a' (Some {| loaded := stk; current := stk |}) s').
Proof.
  intros Href Ha Hc. unfold save_all.
  set (x := Some {| loaded := stk; current := stk |}).
  assert (same_caller a' s) as Hs by (unfold same_caller; by rewrite Ha).
  destruct (framed_save_user a' x s Hs) as [Hu Hs1].
  destruct (framed_fixed a (saveChanges user_scope Turn) s
              (framed_save_user a None) Ha Hc) as [Ha1 Hc1].
  destruct (saveChanges_returns user_scope Turn s) as [s1 Hs1'].
  rewrite Hs1' in Hu, Hs1, Ha1, Hc1. cbn in Hu, Hs1, Ha1, Hc1.
  cbn. rewrite Hs1', Hu. cbn.
  rewrite (saveChanges_none conv_scope Turn s1) by done.
  erewrite (saveChanges_same conv_scope Turn (reframe a' x s1)); [|reflexivity|done].
  destruct (framed_save_jobs a' x s1 Hs1) as [Hb _].
  destruct (saveChanges_returns bot_scope Turn s1) as [s2 Hs2].
  rewrite Hs2 in Hb. rewrite Hb, Hs2. cbn. by exists s2.
Qed.

(** C9.  A [jobCompleted] event whose value is the number [v] and the
    message [done v] from the same conversation have the same outcome:
    the same storage (job registry, dialog stacks, user profiles), the same
    activities sent, the same calls of [continueConversation], the same
    error if one escapes. *)
Theorem jobCompleted_event_is_done adapter now ref v w :
  run_turn adapter now (jobCompleted ref (VNum v)) w
  = run_turn adapter now (message ref ("done " ++ ToString (VNum v))) w.
Proof.
  pose proof (ToString_numeral v) as Hnum.
  set (id := ToString (VNum v)) in *.
  set (a_e := jobCompleted ref (VNum v)). set (a_m := message ref ("done " ++ id)).
  set (stk := stack_of (storage w) ref).
  set (x := Some {| loaded := stk; current := stk |}).
  unfold run_turn.
  rewrite (onTurn_event adapter now (start a_e w)) by done.
  rewrite (onTurn_message adapter now (start a_m w)) by done.
  change (act_text (activity (turn (start a_m w)))) with (Some ("done " ++ id)).
  rewrite numeral_classify by done.
  change (act_value (activity (turn (start a_e w)))) with (VNum v).
  unfold event_turn, message_turn.
  assert (isNaN (parseInt (VNum v)) = false) as -> by (by apply numeral_parses).
  cbn [negb spec_dispatch].
  change (completeJob adapter Turn (VStr id)) with (completeJob adapter Turn (VNum v)).
  assert (same_caller a_m (start a_e w)) as Hcaller by done.
  destruct (framed_completeJob a_m x adapter (VNum v) (start a_e w) Hcaller)
    as [Hframed Hcaller'].
  destruct (framed_fixed a_e (completeJob adapter Turn (VNum v)) (start a_e w)
              (framed_completeJob a_e None adapter (VNum v)) eq_refl eq_refl)
    as [Hact Hconv].
  assert (createContext Turn (start a_m w) = Ok tt (reframe a_m x (start a_e w)))
    as Hcreate by reflexivity.
  cbn [mbind M_bind]. rewrite Hcreate. cbn [mbind M_bind]. rewrite Hframed.
  destruct (completeJob adapter Turn (VNum v) (start a_e w)) as [[] s1|e s1] eqn:Hrun;
    cbn [reframed final_state thrown] in *; [|done].
  apply completeJob_responds in Hrun. cbn. rewrite Hrun.
  change (skip (reframe a_m x s1)) with (Ok tt (reframe a_m x s1)). cbv beta iota.
  subst x.
  destruct (save_all_reframe a_e a_m stk s1 eq_refl Hact Hconv) as (s2 & -> & ->).
  reflexivity.
Qed.

(* ===================================================================== *)
(** ** Turns that are not commands *)
(* ===================================================================== *)

(** X1.  A conversation update looks at the first added member only: the
    help text goes to the sender unless that member is named Bot, whoever
    else was added; with no added member the read of its name fails, the
    error leaves [onTurn] and nothing is sent.  In every case the storage
    and the resume log are as they were. *)
Theorem conversation_update_greets_first_member adapter now a w :
  act_type a = ConversationUpdate →
  match act_membersAdded a with
  | [] => (run_turn adapter now a w).1 = w ∧ is_Some (run_turn adapter now a w).2
  | member :: _ =>
      run_turn adapter now a w
      = (if decide (member = Some "Bot") then w
         else replied w (act_reference a) help_text, None)
  end.
Proof.
  intros Ht. unfold run_turn, onTurn. destruct w as [st out res]. cbn.
  rewrite Ht. rewrite decide_False by done.
  rewrite bool_decide_eq_false_2 by done. cbn [andb].
  rewrite decide_True by done.
  destruct (act_membersAdded a) as [|member rest]; cbn.
  - split; [done|]. by eexists.
  - destruct (decide (member = Some "Bot")) as [->|Hne].
    + rewrite decide_False by (by intros []). cbn.
      erewrite !saveChanges_none by done. reflexivity.
    + rewrite decide_True by done. cbn.
      erewrite !saveChanges_none by done. reflexivity.
Qed.

Lemma conversation_update_greets_first_member_witness :
  let a := {| act_type := ConversationUpdate; act_text := None; act_name := None;
              act_value := VUndefined;
              act_membersAdded := [Some "Alice"; Some "Bot"];
              act_reference := Fixture.alice |} in
  run_turn Fixture.reachable 0 a empty_world
  = (replied empty_world Fixture.alice help_text, None).
Proof.
  apply (conversation_update_greets_first_member Fixture.reachable 0
           {| act_type := ConversationUpdate; act_text := None; act_name := None;
              act_value := VUndefined;
              act_membersAdded := [Some "Alice"; Some "Bot"];
              act_reference := Fixture.alice |} empty_world).
  reflexivity.
Defined.

(** X2.  An activity that is not a message, not a conversation update and
    not a [jobCompleted] event whose value parses as an integer is
    ignored: nothing is sent, nothing is stored, no conversation is
    resumed and nothing is thrown. *)
Theorem other_activities_are_ignored adapter now a w :
  act_type a ≠ Message →
  act_type a ≠ ConversationUpdate →
  (act_type a = Event → act_name a = Some "jobCompleted" →
   parseInt (act_value a) = None) →
  run_turn adapter now a w = (w, None).
Proof.
  intros Hm Hu Hev. unfold run_turn, onTurn. destruct w as [st out res]. cbn.
  rewrite decide_False by done.
  destruct (bool_decide (act_type a = Event)) eqn:He;
    [destruct (bool_decide (act_name a = Some "jobCompleted")) eqn:Hn|];
    cbn [andb].
  - apply bool_decide_eq_true_1 in He, Hn. rewrite (Hev He Hn). cbn.
    erewrite !saveChanges_none by done. reflexivity.
  - rewrite decide_False by done. cbn.
    erewrite !saveChanges_none by done. reflexivity.
  - rewrite decide_False by done. cbn.
    erewrite !saveChanges_none by done. reflexivity.
Qed.

Lemma other_activities_are_ignored_witness :
  run_turn Fixture.reachable 0 (jobCompleted Fixture.bob (VStr "soon")) Fixture.one_job
  = (Fixture.one_job, None).
Proof.
  apply (other_activities_are_ignored Fixture.reachable 0
           (jobCompleted Fixture.bob (VStr "soon")) Fixture.one_job);
    [discriminate|discriminate|reflexivity].
Defined.

(** X3.  [show] always answers with one activity and changes nothing else:
    the text is the notice of an empty log when the registry has no
    record, and otherwise the table, with one row per record.  The read
    of a record under a key of [Object.keys] never fails. *)
Theorem show_reports_and_keeps_state adapter now a w :
  act_type a = Message →
  spec_classify (act_text a) = SHOW →
  run_turn adapter now a w
  = (replied w (act_reference a)
       (if decide (jobs_of w = []) then "The job log is empty."
        else table_header ++ join "<br>" (show_rows (jobs_of w))), None)
  ∧ length (show_rows (jobs_of w)) = length (jobs_of w).
Proof.
  intros Ht Hc. split; [|apply show_rows_length].
  destruct (decide (jobs_of w = [])) as [He|Hne]; [|by apply show_turn].
  destruct w as [[jobs profs stacks] out res]. cbn in He. subst jobs.
  eapply run_turn_ok.
  - rewrite onTurn_message by done. cbn [start turn new_context activity].
    rewrite Hc. unfold message_turn, save_all, spec_dispatch, showJobs.
    cbn. rewrite decide_False by (rewrite Object_keys_length; by intros []).
    cbn.
    erewrite saveChanges_none by done.
    erewrite saveChanges_same by done.
    erewrite saveChanges_same by done.
    reflexivity.
  - reflexivity.
Qed.

Lemma show_reports_and_keeps_state_witness :
  run_turn Fixture.reachable 0 (message Fixture.bob " Show ") empty_world
  = (replied empty_world Fixture.bob "The job log is empty.", None).
Proof.
  apply (show_reports_and_keeps_state Fixture.reachable 0
           (message Fixture.bob " Show ") empty_world); reflexivity.
Defined.

(** A message that is no command, with no dialog in progress. *)
Lemma unrecognized_turn_without_dialog adapter now a w :
  act_type a = Message →
  spec_classify (act_text a) = UNRECOGNIZED →
  stack_of (storage w) (act_reference a) = [] →
  run_turn adapter now a w = (w, None).
Proof.
  intros Ht Hc Hstk. destruct w as [st out res]. cbn in Hstk.
  eapply run_turn_ok.
  - rewrite onTurn_message by done. cbn [start turn new_context activity].
    rewrite Hc. unfold message_turn, save_all, spec_dispatch, continueDialog.
    cbn. rewrite Hstk. cbn.
    erewrite saveChanges_none by done.
    erewrite saveChanges_same by done.
    erewrite saveChanges_none by done.
    reflexivity.
  - reflexivity.
Qed.

(** X6.  A message that is no command, in a conversation with no dialog in
    progress, is dropped: the turn returns, sends nothing and resumes no
    conversation, and the registry, the dialog stack of every conversation
    and the profile of every user read afterwards as they read before.
    (What the turn may write is the empty stack of a conversation that
    had none stored, which reads the same.) *)
Theorem unrecognized_without_dialog_is_silent adapter now a w :
  act_type a = Message →
  spec_classify (act_text a) = UNRECOGNIZED →
  stack_of (storage w) (act_reference a) = [] →
  let w' := (run_turn adapter now a w).1 in
  (run_turn adapter now a w).2 = None
  ∧ sent_during w w' = []
  ∧ resumes w' = resumes w
  ∧ jobs_of w' = jobs_of w
  ∧ (∀ r, stack_of (storage w') r = stack_of (storage w) r)
  ∧ (∀ r, profile_of (storage w') r = profile_of (storage w) r).
Proof.
  intros Ht Hc Hstk. cbv zeta.
  rewrite (unrecognized_turn_without_dialog adapter now a w) by done.
  cbn [fst snd]. repeat split.
  unfold sent_during. by rewrite drop_all.
Qed.

Lemma unrecognized_without_dialog_is_silent_witness :
  let a := message Fixture.bob "hello there" in
  let w' := (run_turn Fixture.reachable 0 a Fixture.one_job).1 in
  sent_during Fixture.one_job w' = []
  ∧ jobs_of w' = jobs_of Fixture.one_job
  ∧ stack_of (storage w') Fixture.bob = [].
Proof.
  cbv zeta.
  destruct (unrecognized_without_dialog_is_silent Fixture.reachable 0
              (message Fixture.bob "hello there") Fixture.one_job
              eq_refl eq_refl eq_refl)
    as (_ & Hsent & _ & Hjobs & Hstk & _).
  split; [exact Hsent|]. split; [exact Hjobs|].
  by rewrite Hstk.
Defined.

(** X7.  A message with no text, or with the empty text, is no answer to a
    prompt: the prompt sends its text again and stays the active dialog,
    and nothing is stored. *)
Theorem empty_answer_prompts_again adapter now a w pid ptext stk :
  act_type a = Message →
  act_text a = None ∨ act_text a = Some EmptyString →
  stack_of (storage w) (act_reference a) = PromptInstance pid ptext :: stk →
  run_turn adapter now a w = (replied w (act_reference a) ptext, None).
Proof.
  intros Ht Htext Hstk. destruct w as [st out res]. cbn in Hstk.
  assert (spec_classify (act_text a) = UNRECOGNIZED) as Hc
    by (destruct Htext as [-> | ->]; reflexivity).
  eapply run_turn_ok.
  - rewrite onTurn_message by done. cbn [start turn new_context activity].
    rewrite Hc. unfold message_turn, save_all, spec_dispatch, continueDialog.
    cbn. rewrite Hstk. cbn. rewrite Ht. rewrite decide_True by done.
    assert (∀ s, match act_text a with
                 | Some t => if decide (t = EmptyString)
                             then reprompt adapter Turn ptext
                             else endDialog_from adapter (dialogs adapter) Turn
                                    (PromptInstance pid ptext :: stk) (Some t)
                 | None => reprompt adapter Turn ptext
                 end s = reprompt adapter Turn ptext s) as ->
      by (intros s; destruct Htext as [-> | ->]; reflexivity).
    unfold reprompt. cbn.
    erewrite saveChanges_none by done.
    erewrite saveChanges_same by done.
    erewrite saveChanges_none by done.
    reflexivity.
  - reflexivity.
Qed.

Lemma empty_answer_prompts_again_witness :
  let w := {| storage := with_stack Fixture.alice
                           [name_prompt; WaterfallInstance WHO_ARE_YOU 0] empty_storage;
              outbox := []; resumes := [] |} in
  run_turn Fixture.reachable 0 (message Fixture.alice EmptyString) w
  = (replied w Fixture.alice "What is your name?", None).
Proof.
  apply (empty_answer_prompts_again Fixture.reachable 0
           (message Fixture.alice EmptyString)
           {| storage := with_stack Fixture.alice
                           [name_prompt; WaterfallInstance WHO_ARE_YOU 0] empty_storage;
              outbox := []; resumes := [] |}
           NAME_PROMPT "What is your name?" [WaterfallInstance WHO_ARE_YOU 0]);
    [reflexivity|by right|reflexivity].
Defined.

(* ===================================================================== *)
(** ** The registry over time *)
(* ===================================================================== *)

Definition kept_from (jobs0 jobs : Jobs) : Prop :=
  ∀ id r, obj_get jobs0 id = Some r →
    ∃ r', obj_get jobs id = Some r' ∧ reference r' = reference r
          ∧ (completed r = true → completed r' = true).

(** X9.  No turn removes a job: over any sequence of turns, with any
    adapters, clocks and activities, every id of the registry keeps a
    record, the record keeps the conversation reference of its creator,
    and a completed record stays completed. *)
Theorem registry_only_grows turns w :
  ∀ id r, obj_get (jobs_of w) id = Some r →
    ∃ r', obj_get (jobs_of (run_turns turns w)) id = Some r'
          ∧ reference r' = reference r
          ∧ (completed r = true → completed r' = true).
Proof.
  change (kept_from (jobs_of w) (jobs_of (run_turns turns w))).
  apply (run_turns_invariant (kept_from (jobs_of w))).
  - intros jobs ms r Hrec Hms Hnone id r0 Hid.
    destruct (Hrec id r0 Hid) as (r' & Hr' & Href & Hdone).
    exists r'. split; [|done]. rewrite obj_get_set_ne; [done|].
    intros <-. congruence.
  - intros jobs key info Hrec Hkey Hpending id r0 Hid.
    destruct (Hrec id r0 Hid) as (r' & Hr' & Href & Hdone).
    destruct (decide (key = id)) as [->|Hne].
    + rewrite obj_get_set_eq. eexists. split; [done|]. cbn.
      split; [congruence|done].
    + rewrite obj_get_set_ne by done. by exists r'.
  - intros id r Hid. by exists r.
Qed.

Lemma registry_only_grows_witness :
  let turns :=
    [ {| in_adapter := Fixture.reachable; in_now := 1700000000007;
         in_activity := message Fixture.bob "run" |};
      {| in_adapter := Fixture.unreachable; in_now := 1700000000008;
         in_activity := message Fixture.bob "done 5" |} ] in
  ∃ r', obj_get (jobs_of (run_turns turns Fixture.one_job)) "5" = Some r'
        ∧ reference r' = Fixture.alice.
Proof.
  cbv zeta.
  destruct (registry_only_grows
              [ {| in_adapter := Fixture.reachable; in_now := 1700000000007;
                   in_activity := message Fixture.bob "run" |};
                {| in_adapter := Fixture.unreachable; in_now := 1700000000008;
                   in_activity := message Fixture.bob "done 5" |} ]
              Fixture.one_job "5"
              {| completed := false; reference := Fixture.alice |} eq_refl)
    as (r' & Hr' & Href & _).
  exists r'. split; [exact Hr'|exact Href].
Defined.

(* ===================================================================== *)
(** ** The decimal form of a number, read back *)
(* ===================================================================== *)

Lemma digits_prefix_of_uint_acc d acc :
  digits_prefix 10 (Some (Z.pos acc)) (NilEmpty.string_of_uint d)
  = Some (Z.pos (Pos.of_uint_acc d acc)).
Proof.
  revert acc. induction d; intros acc; cbn [NilEmpty.string_of_uint digits_prefix];
    [done|..];
    match goal with
    | |- context [digit_val 10 ?c] =>
        let v := eval vm_compute in (digit_val 10 c) in
        change (digit_val 10 c) with v
    end; cbn [Pos.of_uint_acc]; rewrite <- IHd; do 2 f_equal;
    unfold default, from_option, id; lia.
Qed.

Lemma digits_prefix_of_uint d :
  digits_prefix 10 (Some 0) (NilEmpty.string_of_uint d) = Some (Z.of_N (Pos.of_uint d)).
Proof.
  induction d; cbn [NilEmpty.string_of_uint digits_prefix Pos.of_uint];
    [done|..];
    match goal with
    | |- context [digit_val 10 ?c] =>
        let v := eval vm_compute in (digit_val 10 c) in
        change (digit_val 10 c) with v
    end; unfold default, from_option, id; cbn [Z.mul Z.add];
    first [ exact IHd | apply digits_prefix_of_uint_acc ].
Qed.

Lemma digits_prefix_start ds :
  ds ≠ EmptyString → all_digits ds = true →
  digits_prefix 10 None ds = digits_prefix 10 (Some 0) ds.
Proof.
  destruct ds as [|c ds]; [done|]. cbn. intros _ [Hc _]%andb_true_iff.
  by destruct (digit_char c Hc) as (_ & _ & _ & [d ->] & _).
Qed.

Lemma digits_radix ds :
  ds ≠ EmptyString → all_digits ds = true →
  match ds with
  | String "0" (String "x" r) => (16, r)
  | String "0" (String "X" r) => (16, r)
  | _ => (10, ds)
  end = (10, ds).
Proof.
  intros Hne Hd. destruct (digits_parse ds Hne Hd) as [_ Hx].
  destruct ds as [|x [|y r]]; try done;
    destruct x as [[] [] [] [] [] [] [] []]; try done;
    destruct y as [[] [] [] [] [] [] [] []]; try done.
Qed.

Lemma digits_value sign ds :
  ds ≠ EmptyString → all_digits ds = true →
  (let '(radix, s2) :=
     match ds with
     | String "0" (String "x" r) => (16, r)
     | String "0" (String "X" r) => (16, r)
     | _ => (10, ds)
     end in
   Z.mul sign <$> digits_prefix radix None s2)
  = Z.mul sign <$> digits_prefix 10 (Some 0) ds.
Proof.
  intros Hne Hd. rewrite digits_radix by done. by rewrite digits_prefix_start.
Qed.

(** [parseInt] reads the decimal form of an integer back as that integer. *)
Lemma parseInt_ToString z : parseInt (VNum z) = Some z.
Proof.
  unfold parseInt. cbn [ToString].
  unfold Z.to_int, NilZero.string_of_int, NilZero.string_of_uint.
  destruct z as [|p|p]; [done|..];
    pose proof (DecimalPos.Unsigned.to_uint_nonnil p) as Hnil;
    pose proof (string_of_uint_digits (Pos.to_uint p)) as Hd;
    assert (NilEmpty.string_of_uint (Pos.to_uint p) ≠ EmptyString) as Hne
      by (by destruct (Pos.to_uint p)).
  - assert (match Pos.to_uint p with
            | Decimal.Nil => "0"
            | _ => NilEmpty.string_of_uint (Pos.to_uint p)
            end = NilEmpty.string_of_uint (Pos.to_uint p)) as ->
      by (by destruct (Pos.to_uint p)).
    rewrite digits_trimStart, digits_sign by done.
    rewrite digits_value by done.
    rewrite digits_prefix_of_uint, DecimalPos.Unsigned.of_to. done.
  - assert (match Pos.to_uint p with
            | Decimal.Nil => "0"
            | _ => NilEmpty.string_of_uint (Pos.to_uint p)
            end = NilEmpty.string_of_uint (Pos.to_uint p)) as ->
      by (by destruct (Pos.to_uint p)).
    cbn [trimStart]. change (is_ws "-") with false. cbv iota.
    rewrite digits_value by done.
    rewrite digits_prefix_of_uint, DecimalPos.Unsigned.of_to. done.
Qed.

Lemma parseInt_VStr_ToString z : parseInt (VStr (ToString (VNum z))) = Some z.
Proof. apply (parseInt_ToString z). Qed.

(* ===================================================================== *)
(** ** The token of [done] and the keys of the registry *)
(* ===================================================================== *)

(** [done] on a token with no record. *)
Lemma done_turn_no_record adapter now a w id :
  act_type a = Message →
  spec_classify (act_text a) = DONE id →
  obj_get (jobs_of w) id = None →
  run_turn adapter now a w
  = (replied w (act_reference a) ("Sorry no job with ID " ++ id ++ "."), None).
Proof.
  intros Ht Hc Hj. run_message_turn Hc.
  destruct w as [[jobs profs stacks] out res]. simpl in Hj.
  cbn. rewrite Hj. cbn.
  erewrite saveChanges_none by done.
  erewrite saveChanges_same by done.
  erewrite saveChanges_same by done.
  reflexivity.
Qed.

Lemma obj_get_Some_elem {A} (o : JsObject A) k v : obj_get o k = Some v → k ∈ o.*1.
Proof.
  intros H. destruct (decide (k ∈ o.*1)) as [|Hn]; [done|].
  apply obj_get_None in Hn. congruence.
Qed.

Lemma wf_jobs_reachable turns : wf_jobs (jobs_of (run_turns turns empty_world)).
Proof.
  apply wf_jobs_run_turns. split; [apply NoDup_nil_2|apply Forall_nil_2].
Qed.

(** X5.  [done] looks the job up under the token as it was typed, not
    under the number the token parses to.  In a registry the bot has
    built, every key is the plain decimal form of a number from 0 to 999;
    so a token that parses as an integer but is written otherwise (a
    leading zero or plus sign, trailing letters, a hexadecimal form), or
    that parses to a number out of that range, never finds a job: the
    reply is that there is no job with that id, even when the number is
    the id of a job, and nothing else changes. *)
Theorem done_looks_up_the_token_as_typed turns adapter now a id n :
  let w := run_turns turns empty_world in
  act_type a = Message →
  spec_classify (act_text a) = DONE id →
  parseInt (VStr id) = Some n →
  id ≠ ToString (VNum n) ∨ n < 0 ∨ 1000 ≤ n →
  run_turn adapter now a w
  = (replied w (act_reference a) ("Sorry no job with ID " ++ id ++ "."), None).
Proof.
  intros w Ht Hc Hparse Hne. apply done_turn_no_record; [done|done|].
  destruct (obj_get (jobs_of w) id) as [r|] eqn:Hr; [|done]. exfalso.
  apply obj_get_Some_elem in Hr.
  destruct (wf_jobs_reachable turns) as [_ Hall].
  rewrite Forall_forall in Hall. destruct (Hall id Hr) as (ms & Hms & Hid).
  rewrite Hid in Hparse. rewrite parseInt_VStr_ToString in Hparse.
  injection Hparse as <-. destruct Hne as [Hne|Hne]; [done|lia].
Qed.

Lemma done_looks_up_the_token_as_typed_witness :
  let turns := [ {| in_adapter := Fixture.reachable; in_now := 1700000000005;
                    in_activity := message Fixture.alice "run" |} ] in
  let w := run_turns turns empty_world in
  is_Some (obj_get (jobs_of w) "5")
  ∧ run_turn Fixture.reachable 0 (message Fixture.bob "done 05") w
    = (replied w Fixture.bob "Sorry no job with ID 05.", None).
Proof.
  cbv zeta. split; [by eexists|].
  apply (done_looks_up_the_token_as_typed
           [ {| in_adapter := Fixture.reachable; in_now := 1700000000005;
                in_activity := message Fixture.alice "run" |} ]
           Fixture.reachable 0 (message Fixture.bob "done 05") "05" 5);
    [reflexivity|reflexivity|reflexivity|left; discriminate].
Defined.

(* ===================================================================== *)
(** ** The order of the rows of [show] *)
(* ===================================================================== *)

Lemma index_of_key_ms ms :
  0 ≤ ms < 1000 → index_of_key (ToString (VNum ms)) = Some (Z.to_N ms).
Proof.
  intros Hms. unfold index_of_key.
  assert (NilZero.uint_of_string (ToString (VNum ms)) = Some (N.to_uint (Z.to_N ms)))
    as ->.
  { cbn [ToString]. destruct ms as [|p|p]; [done| |lia].
    cbn [Z.to_int NilZero.string_of_int Z.to_N N.to_uint].
    apply NilZero.usu, DecimalPos.Unsigned.to_uint_nonnil. }
  rewrite DecimalN.Unsigned.of_to. rewrite decide_True; [done|].
  split; [by rewrite Z2N.id by lia|lia].
Qed.

#[local] Instance index_le_trans : Transitive index_le.
Proof. intros a b c. unfold index_le. lia. Qed.

#[local] Instance index_le_total : Total index_le.
Proof. intros a b. unfold index_le. lia. Qed.

Definition key_of (ms : Z) : string := ToString (VNum ms).
#[local] Arguments key_of : simpl never.

Lemma millisecond_keys_ids ks :
  Forall millisecond_key ks →
  ∃ ids, ks = key_of <$> ids ∧ Forall (λ ms, 0 ≤ ms < 1000) ids.
Proof.
  induction 1 as [|k ks (ms & Hms & ->) _ (ids & -> & Hids)].
  - by exists [].
  - exists (ms :: ids). split; [done|]. by constructor.
Qed.

Lemma index_keys_ids ids :
  Forall (λ ms, 0 ≤ ms < 1000) ids →
  index_keys (key_of <$> ids) = (λ ms, (Z.to_N ms, key_of ms)) <$> ids
  ∧ List.filter (λ k, negb (is_index_key k)) (key_of <$> ids) = [].
Proof.
  induction 1 as [|ms ids Hms _ [IH1 IH2]]; [done|].
  unfold index_keys, is_index_key in *.
  cbn [fmap list_fmap omap list_omap List.filter].
  rewrite (index_of_key_ms ms Hms : index_of_key (key_of ms) = _).
  cbn [fmap option_fmap option_map negb]. by rewrite IH1, IH2.
Qed.

Lemma sorted_le_lt (l : list Z) :
  StronglySorted Z.le l → NoDup l → StronglySorted Z.lt l.
Proof.
  induction 1 as [|x l Hl IH Hx]; intros Hnd; [constructor|].
  apply NoDup_cons in Hnd as [Hnotin Hnd]. constructor; [by apply IH|].
  rewrite Forall_forall in Hx |- *. intros y Hy.
  assert (x ≠ y) by (intros ->; done). specialize (Hx y Hy). lia.
Qed.

(** The keys of a registry of millisecond ids, as [Object.keys] lists
    them: in ascending order of the number. *)
Lemma Object_keys_ascending (jobs : Jobs) :
  wf_jobs jobs →
  ∃ ids, Object_keys jobs = key_of <$> ids
         ∧ StronglySorted Z.lt ids
         ∧ Object_keys jobs ≡ₚ jobs.*1.
Proof.
  intros [Hnd Hall].
  destruct (millisecond_keys_ids _ Hall) as (ids0 & Hks & Hids0).
  destruct (index_keys_ids ids0 Hids0) as [Hidx Hrest].
  unfold Object_keys. rewrite Hks, Hidx, Hrest, app_nil_r.
  set (pairs := (λ ms, (Z.to_N ms, key_of ms)) <$> ids0).
  pose proof (merge_sort_Permutation index_le pairs) as Hperm.
  pose proof (StronglySorted_merge_sort index_le pairs) as Hsorted.
  set (sorted := merge_sort index_le pairs) in *.
  assert (Forall (λ p, p.2 = key_of (Z.of_N p.1)) sorted) as Hkeys.
  { rewrite Hperm. subst pairs. apply Forall_fmap, Forall_forall.
    intros ms Hms. rewrite Forall_forall in Hids0. specialize (Hids0 ms Hms).
    cbn. by rewrite Z2N.id by lia. }
  assert (sorted.*2 ≡ₚ key_of <$> ids0) as Hperm2.
  { rewrite Hperm. subst pairs. rewrite <- list_fmap_compose.
    apply reflexive_eq. by apply list_fmap_ext. }
  exists ((λ p, Z.of_N p.1) <$> sorted). split; [|split; [|done]].
  - rewrite <- list_fmap_compose.
    apply list_fmap_ext. intros i p Hp.
    rewrite Forall_forall in Hkeys. apply Hkeys.
    by eapply list_elem_of_lookup_2.
  - apply sorted_le_lt.
    + eapply StronglySorted_fmap; [|exact Hsorted].
      intros p q. unfold index_le. lia.
    + assert (NoDup (sorted.*2)) as Hnd2 by (by rewrite Hperm2, <- Hks).
      assert (sorted.*2 = key_of <$> ((λ p, Z.of_N p.1) <$> sorted)) as Heq.
      { rewrite <- list_fmap_compose. apply list_fmap_ext. intros i p Hp.
        rewrite Forall_forall in Hkeys. apply Hkeys.
        by eapply list_elem_of_lookup_2. }
      rewrite Heq in Hnd2. by apply NoDup_fmap_1 in Hnd2.
Qed.

(** X4.  [show] lists the jobs in ascending order of their number, in
    whatever order they were created: in a registry the bot has built,
    [Object.keys] enumerates the ids, each once, as the decimal forms of a
    strictly increasing sequence of numbers, and the rows of the table
    follow that sequence. *)
Theorem show_rows_ascend turns :
  let jobs := jobs_of (run_turns turns empty_world) in
  ∃ ids, StronglySorted Z.lt ids
         ∧ Object_keys jobs = key_of <$> ids
         ∧ key_of <$> ids ≡ₚ jobs.*1
         ∧ show_rows jobs
           = omap (λ ms, render_row (key_of ms) <$> obj_get jobs (key_of ms)) ids.
Proof.
  cbv zeta.
  destruct (Object_keys_ascending _ (wf_jobs_reachable turns))
    as (ids & Hkeys & Hsorted & Hperm).
  exists ids. split; [done|]. split; [done|]. split; [by rewrite <- Hkeys|].
  unfold show_rows. rewrite Hkeys.
  generalize (jobs_of (run_turns turns empty_world)). intros jobs. clear.
  induction ids as [|ms ids IH]; [done|].
  cbn [fmap list_fmap omap list_omap]. fold (@fmap list _ _ _ key_of ids).
  fold (@omap list _ _ _ (λ key, render_row key <$> obj_get jobs key)
          (key_of <$> ids)).
  fold (@omap list _ _ _
          (λ ms, render_row (key_of ms) <$> obj_get jobs (key_of ms)) ids).
  by rewrite IH.
Qed.

(** Two jobs created in descending order of their ids are shown in
    ascending order. *)
Example show_rows_ascend_example :
  let run := message Fixture.alice "run" in
  let w := run_turns
             [ {| in_adapter := Fixture.reachable; in_now := 1700000000007;
                  in_activity := run |};
               {| in_adapter := Fixture.reachable; in_now := 1700000001005;
                  in_activity := run |} ] empty_world in
  (jobs_of w).*1 = ["7"; "5"]
  ∧ show_rows (jobs_of w)
    = ["5 &nbsp; | conv-a &nbsp; | false"; "7 &nbsp; | conv-a &nbsp; | false"].
Proof. cbv zeta. split; by vm_compute. Qed.

(* ===================================================================== *)
(** ** What a turn can touch *)
(* ===================================================================== *)

(** [Hoare I m (λ _, I) E] for the whole of [onTurn], from what [I] and [E]
    have to survive: the deliveries, the changes of the cached scopes, the
    writes of [saveChanges], the start of a resume, and the three places
    where a turn can throw (a resume the adapter rejects, a delivery to a
    conversation it cannot reach, a conversation update with no member). *)

Definition CacheStable {A} (I : State → Prop) (sc : Scope A) (c : Ctx) : Prop :=
  ∀ v s, I s → I (set_ctx c (sc_set_cache sc v (ctx c s)) s).

Definition WriteStable {A} (I : State → Prop) (sc : Scope A) (c : Ctx) : Prop :=
  ∀ v s, I s →
    I (set_world
         (set_storage (sc_write sc (reference_of c s) v (storage (world s))) (world s)) s).

Definition resumed (r : ConversationReference) (s : State) : State :=
  set_world {| storage := storage (world s); outbox := outbox (world s);
               resumes := resumes (world s) ++ [r] |} s.

Lemma quiet_load {A} I (sc : Scope A) c X :
  CacheStable I sc c → Hoare I (load sc c) (λ _, I) X.
Proof.
  intros Hc s Hs. unfold load.
  destruct (sc_cache sc (ctx c s)); [done|]. by apply Hc.
Qed.

Lemma quiet_get {A} I (sc : Scope A) c X :
  CacheStable I sc c → Hoare I (property_get sc c) (λ _, I) X.
Proof.
  intros Hc. eapply hoare_bind; [by apply quiet_load|]. by intros x s Hs.
Qed.

Lemma quiet_set {A} I (sc : Scope A) c v X :
  CacheStable I sc c → Hoare I (property_set sc c v) (λ _, I) X.
Proof.
  intros Hc. eapply hoare_bind; [by apply quiet_load|].
  intros x s Hs. by apply Hc.
Qed.

Lemma quiet_save {A} `{EqDecision A} I (sc : Scope A) c X :
  CacheStable I sc c → WriteStable I sc c → Hoare I (saveChanges sc c) (λ _, I) X.
Proof.
  intros Hc Hw s Hs. unfold saveChanges.
  destruct (sc_cache sc (ctx c s)) as [x|]; [|done].
  case_decide; [done|].
  specialize (Hw (current x) s Hs).
  specialize (Hc (Some {| loaded := current x; current := current x |}) _ Hw).
  by destruct c.
Qed.

Lemma quiet_skip I X : Hoare I skip (λ _, I) X.
Proof. by intros s Hs. Qed.

Lemma quiet_gets {A} I (f : State → A) X : Hoare I (gets f) (λ _, I) X.
Proof. by intros s Hs. Qed.

Lemma quiet_bind {A B} I X (m : M A) (f : A → M B) :
  Hoare I m (λ _, I) X → (∀ a, Hoare I (f a) (λ _, I) X) →
  Hoare I (m ≫= f) (λ _, I) X.
Proof. intros Hm Hf. by eapply hoare_bind. Qed.

Lemma hoare_try_quiet {A} I (m : M A) h post E :
  Hoare I m post (λ _, False) → Hoare I (try_catch m h) post E.
Proof.
  intros Hm s Hs. specialize (Hm s Hs). cbn. by destruct (m s).
Qed.

Section Turn.
Context (I E : State → Prop) (adapter : BotAdapter).
Hypothesis I_deliver : ∀ c text s, I s → I (deliver c text s).
Hypothesis I_bot : CacheStable I bot_scope Turn.
Hypothesis I_user : ∀ c, CacheStable I user_scope c.
Hypothesis I_conv : ∀ c, CacheStable I conv_scope c.
Hypothesis I_write_bot : WriteStable I bot_scope Turn.
Hypothesis I_write_user : WriteStable I user_scope Turn.
Hypothesis I_write_conv : ∀ c, WriteStable I conv_scope c.
Hypothesis I_resume : ∀ r s,
  I s → adapter r ≠ InvalidReference →
  I (set_ctx Proactive (new_context (continuation_activity r)) (resumed r s)).
Hypothesis E_resume : ∀ r s, I s → adapter r = InvalidReference → E (resumed r s).
Hypothesis E_send : ∀ s, I s → adapter (reference_of Proactive s) ≠ Reachable → E s.
Hypothesis E_update : ∀ s,
  I s → act_type (activity (turn s)) = ConversationUpdate →
  act_membersAdded (activity (turn s)) = [] → E s.

Definition Keeps {A} (m : M A) : Prop := Hoare I m (λ _, I) E.

Lemma keeps_bind {A B} (m : M A) (f : A → M B) :
  Keeps m → (∀ a, Keeps (f a)) → Keeps (m ≫= f).
Proof. intros Hm Hf. by eapply hoare_bind. Qed.

Lemma quiet_send_turn X text : Hoare I (sendActivity adapter Turn text) (λ _, I) X.
Proof. intros s Hs. cbn. by apply (I_deliver Turn). Qed.

Lemma keeps_send c text : Keeps (sendActivity adapter c text).
Proof.
  destruct c; [apply quiet_send_turn|].
  intros s Hs. unfold sendActivity.
  destruct (adapter (reference_of Proactive s)) eqn:Had.
  - by apply (I_deliver Proactive).
  - apply E_send; [done|]. by rewrite Had.
  - apply E_send; [done|]. by rewrite Had.
Qed.

Lemma keeps_get_stack c : Keeps (get_stack c).
Proof. by apply quiet_get. Qed.

Lemma keeps_set_stack c stk : Keeps (set_stack c stk).
Proof. by apply quiet_set. Qed.

Lemma keeps_createContext c : Keeps (createContext c).
Proof.
  apply keeps_bind; [by apply quiet_load|]. intros _. apply quiet_skip.
Qed.

Lemma keeps_prompt c id text :
  obj_get (dialogs adapter) id = Some TextPrompt →
  Keeps (prompt adapter (dialogs adapter) c id text).
Proof.
  intros Hid. unfold prompt. rewrite Hid.
  apply keeps_bind; [apply keeps_get_stack|]. intros stk.
  apply keeps_bind; [apply keeps_set_stack|]. intros _.
  apply keeps_send.
Qed.

Lemma keeps_set_stepIndex c index : Keeps (set_stepIndex c index).
Proof.
  unfold set_stepIndex. apply keeps_bind; [apply keeps_get_stack|].
  intros stk. destruct stk as [|[id i|id text] rest];
    [apply quiet_skip|apply keeps_set_stack|apply quiet_skip].
Qed.

Lemma keeps_reprompt c text : Keeps (reprompt adapter c text).
Proof.
  unfold reprompt. apply keeps_bind; [apply quiet_gets|].
  intros []; [apply quiet_skip|apply keeps_send].
Qed.

(** A step of the bot, handed the prompt of the dialog set and an
    [endDialog] that keeps [I]. *)
Definition StepKeeps (f : WaterfallStep) : Prop :=
  ∀ c result end_,
    (∀ r, Keeps (end_ r)) →
    Keeps (f {| step_context := c; step_result := result;
                step_prompt := prompt adapter (dialogs adapter) c;
                step_endDialog := end_ |}).

Lemma steps_keep id : Forall StepKeeps (steps_of (dialogs adapter) id).
Proof.
  destruct (steps_of_dialogs adapter id) as [->|[->| ->]];
    repeat apply Forall_cons_2; try apply Forall_nil_2;
    intros c result end_ Hend.
  - apply keeps_prompt, dialogs_name.
  - unfold promptForCity. cbn [step_context step_result step_prompt].
    apply keeps_bind; [by apply quiet_get|]. intros user.
    apply keeps_bind; [by apply quiet_set|]. intros _.
    apply keeps_bind; [by apply quiet_set|]. intros _.
    apply keeps_prompt, dialogs_city.
  - unfold captureCity. cbn [step_context step_result step_endDialog].
    apply keeps_bind; [by apply quiet_get|]. intros user.
    apply keeps_bind; [by apply quiet_set|]. intros _.
    apply keeps_bind; [by apply quiet_set|]. intros _.
    apply Hend.
  - unfold displayProfile. cbn [step_context step_endDialog].
    apply keeps_bind; [by apply quiet_get|]. intros user.
    apply keeps_bind; [apply keeps_send|]. intros _.
    apply Hend.
Qed.

Lemma keeps_runStep c steps index result end_ :
  Forall StepKeeps steps →
  (∀ r, Keeps (end_ r)) →
  Keeps (runStep adapter (dialogs adapter) c steps index result end_).
Proof.
  intros Hsteps Hend. unfold runStep.
  destruct (steps !! index) as [f|] eqn:Hf; [|apply Hend].
  apply keeps_bind; [apply keeps_set_stepIndex|]. intros _.
  eapply Forall_lookup_1 in Hsteps; [|done]. by apply Hsteps.
Qed.

Lemma keeps_endDialog_from c stk result :
  Keeps (endDialog_from adapter (dialogs adapter) c stk result).
Proof.
  revert result. induction stk as [|top parent IH]; intros result; cbn [endDialog_from].
  - apply quiet_skip.
  - apply keeps_bind; [apply keeps_set_stack|]. intros _.
    destruct parent as [|[id index|id text] rest].
    + apply quiet_skip.
    + apply keeps_runStep; [apply steps_keep|done].
    + apply keeps_send.
Qed.

Lemma keeps_beginDialog c id :
  id = HELLO_USER ∨ id = WHO_ARE_YOU →
  Keeps (beginDialog adapter (dialogs adapter) c id).
Proof.
  intros Hid. unfold beginDialog.
  pose proof (steps_keep id) as Hs. unfold steps_of in Hs.
  assert (∃ steps, obj_get (dialogs adapter) id = Some (WaterfallDialog steps))
    as [steps Hd] by (destruct Hid as [-> | ->]; by eexists).
  rewrite Hd in Hs |- *.
  apply keeps_bind; [apply keeps_get_stack|]. intros stk.
  apply keeps_bind; [apply keeps_set_stack|]. intros _.
  apply keeps_runStep; [done|]. intros; apply keeps_endDialog_from.
Qed.

Lemma keeps_continueDialog c :
  Keeps (continueDialog adapter (dialogs adapter) c).
Proof.
  unfold continueDialog.
  apply keeps_bind; [apply keeps_get_stack|]. intros stk.
  apply keeps_bind; [apply quiet_gets|]. intros a.
  destruct stk as [|[id index|id text] rest]; [apply quiet_skip| |].
  - case_decide; [|apply quiet_skip].
    apply keeps_runStep; [apply steps_keep|].
    intros; apply keeps_endDialog_from.
  - case_decide; [|apply quiet_skip].
    destruct (act_text a) as [t|]; [|apply keeps_reprompt].
    case_decide; [apply keeps_reprompt|apply keeps_endDialog_from].
Qed.

Lemma keeps_createJob now : Keeps (createJob adapter Turn now).
Proof.
  unfold createJob.
  apply keeps_bind; [apply quiet_gets|]. intros r.
  apply keeps_bind; [by apply quiet_get|]. intros jobs.
  apply hoare_try_quiet.
  destruct (isEmpty _); [|apply quiet_skip].
  apply quiet_bind; [apply quiet_send_turn|]. intros _.
  apply quiet_bind; [by apply quiet_set|]. intros _.
  apply hoare_try_quiet.
  apply quiet_bind; [by apply quiet_set|]. intros _.
  apply quiet_send_turn.
Qed.

Lemma keeps_continueConversation r logic :
  Keeps logic → Keeps (continueConversation adapter r logic).
Proof.
  intros Hl s Hs. unfold continueConversation. fold (resumed r s).
  destruct (adapter r) eqn:Had.
  - apply Hl, I_resume; [done|]. by rewrite Had.
  - by apply E_resume.
  - apply Hl, I_resume; [done|]. by rewrite Had.
Qed.

Lemma keeps_notify jobs jobInfo jobIdNumber :
  Keeps (notify adapter Turn jobs jobInfo jobIdNumber).
Proof.
  unfold notify.
  apply keeps_bind; [by apply quiet_set|]. intros _.
  apply keeps_bind; [by apply quiet_set|]. intros _.
  apply keeps_bind; [apply keeps_send|]. intros _.
  apply keeps_bind; [apply keeps_createContext|]. intros _.
  apply keeps_bind; [by apply quiet_get|]. intros user.
  apply keeps_bind; [|intros ?; by apply quiet_save].
  destruct (truthy (city user)); apply keeps_beginDialog; auto.
Qed.

Lemma keeps_completeJob jobIdNumber : Keeps (completeJob adapter Turn jobIdNumber).
Proof.
  unfold completeJob.
  apply keeps_bind; [by apply quiet_get|]. intros jobs.
  destruct (obj_get jobs _) as [info|]; cbn [isEmpty]; [|apply keeps_send].
  destruct (completed info); cbn [truthy_object negb andb].
  - apply keeps_send.
  - apply keeps_bind; [|intros; apply keeps_send].
    apply keeps_continueConversation, keeps_notify.
Qed.

Lemma keeps_showJobs : Keeps (showJobs adapter Turn).
Proof.
  unfold showJobs.
  apply keeps_bind; [by apply quiet_get|]. intros jobs.
  case_decide; [|apply keeps_send].
  destruct (job_rows_some jobs (Object_keys jobs)) as [-> _]; [|apply keeps_send].
  intros k Hk. by apply obj_get_Some_key, Object_keys_elem.
Qed.

Lemma keeps_onMessage now u : Keeps (onMessage adapter Turn now u).
Proof.
  unfold onMessage.
  case_decide; [apply keeps_createJob|].
  case_decide; [apply keeps_showJobs|].
  case_decide; [|apply quiet_skip].
  destruct (negb _); [apply keeps_completeJob|].
  destruct (_ && _)%bool; [apply keeps_send|apply quiet_skip].
Qed.

Lemma keeps_from {A} (P : State → Prop) (m : M A) :
  (∀ s, P s → I s) → Keeps m → Hoare P m (λ _, I) E.
Proof. intros HP Hm s Hs. by apply Hm, HP. Qed.

Lemma keeps_onTurn now : Keeps (onTurn adapter Turn now).
Proof.
  unfold onTurn.
  eapply hoare_bind with (mid := λ a s, I s ∧ a = activity (turn s)).
  { by intros s Hs. }
  intros a. eapply hoare_bind with (mid := λ _, I).
  - case_decide.
    + apply keeps_from; [by intros s [Hs _]|].
      apply keeps_bind; [apply keeps_createContext|]. intros _.
      apply keeps_bind; [apply keeps_onMessage|]. intros _.
      apply keeps_bind; [apply quiet_gets|].
      intros []; [apply quiet_skip|apply keeps_continueDialog].
    + destruct (_ && _)%bool.
      * apply keeps_from; [by intros s [Hs _]|].
        destruct (negb _); [apply keeps_completeJob|apply quiet_skip].
      * case_decide as Hu;
          [|apply keeps_from; [by intros s [Hs _]|apply quiet_skip]].
        destruct (act_membersAdded a) as [|member rest] eqn:Hmem.
        -- intros s [Hs ->]. cbn. by apply E_update.
        -- apply keeps_from; [by intros s [Hs _]|].
           case_decide; [apply keeps_send|apply quiet_skip].
  - intros _.
    apply keeps_bind; [by apply quiet_save|]. intros _.
    apply keeps_bind; [by apply quiet_save|]. intros _.
    by apply quiet_save.
Qed.

End Turn.

(* ===================================================================== *)
(** ** When a turn throws *)
(* ===================================================================== *)

Lemma run_turn_returns adapter now a w :
  (∀ r, adapter r = Reachable) →
  (act_type a = ConversationUpdate → act_membersAdded a ≠ []) →
  (run_turn adapter now a w).2 = None.
Proof.
  intros Hreach Hupdate. unfold run_turn. cbn [snd].
  pose proof (keeps_onTurn (λ s, activity (turn s) = a) (λ _, False) adapter) as H.
  specialize (H ltac:(by intros [] text s Hs)).
  specialize (H ltac:(by intros v s Hs)).
  specialize (H ltac:(by intros [] v s Hs)).
  specialize (H ltac:(by intros [] v s Hs)).
  specialize (H ltac:(by intros v s Hs)).
  specialize (H ltac:(by intros v s Hs)).
  specialize (H ltac:(by intros [] v s Hs)).
  specialize (H ltac:(by intros r s Hs _)).
  specialize (H ltac:(intros r s _ Hr; by rewrite Hreach in Hr)).
  specialize (H ltac:(intros s _ Hr; by rewrite Hreach in Hr)).
  specialize (H ltac:(intros s <- Ht Hm; by apply Hupdate)).
  specialize (H now (start a w) eq_refl).
  by destruct (onTurn adapter Turn now (start a w)).
Qed.

(** X13.  [onTurn] fails only where the adapter fails, or on a
    conversation update that names no added member: with an adapter that
    reaches every conversation (and a storage that does not fail), a turn
    throws exactly when it is such an update, whatever the clock, the
    registry, the profiles and the dialogs in progress.  No prompt or
    dialog is begun under an id the dialog set lacks, and [show] reads no
    record that is not there. *)
Theorem turn_fails_only_with_the_adapter adapter now a w :
  (∀ r, adapter r = Reachable) →
  (run_turn adapter now a w).2 = None
  ↔ ¬ (act_type a = ConversationUpdate ∧ act_membersAdded a = []).
Proof.
  intros Hreach. split.
  - intros Hok [Ht Hm]. revert Hok. unfold run_turn, onTurn. cbn.
    rewrite Ht. rewrite decide_False by done.
    rewrite bool_decide_eq_false_2 by done. cbn [andb].
    rewrite decide_True by done. by rewrite Hm.
  - intros Hn. apply run_turn_returns; [done|].
    intros Ht Hm. by apply Hn.
Qed.

Lemma turn_fails_only_with_the_adapter_witness :
  (run_turn Fixture.reachable 0 (message Fixture.bob "done 5") Fixture.one_job).2 = None.
Proof.
  destruct (turn_fails_only_with_the_adapter Fixture.reachable 0
              (message Fixture.bob "done 5") Fixture.one_job ltac:(reflexivity))
    as [_ H].
  apply H. intros [Ht _]. discriminate Ht.
Defined.

(* ===================================================================== *)
(** ** Whom a turn reaches *)
(* ===================================================================== *)

(** What a turn of the sender [ref0] leaves of the world [w0] it started
    in, at every point of the turn. *)
Definition touches_only (ref0 : ConversationReference) (w0 : World) (s : State) : Prop :=
  act_reference (activity (turn s)) = ref0
  ∧ ∃ sent rs,
      outbox (world s) = (outbox w0 ++ sent)%list
      ∧ resumes (world s) = (resumes w0 ++ rs)%list
      ∧ (act_reference (activity (proactive s)) = ref0
         ∨ act_reference (activity (proactive s)) ∈ rs)
      ∧ Forall (λ m, sent_to m = ref0 ∨ sent_to m ∈ rs) sent
      ∧ (∀ u, u ≠ user_id ref0 →
           user_profiles (storage (world s)) !! u = user_profiles (storage w0) !! u)
      ∧ (∀ c, c ≠ conversation_id ref0 → c ∉ conversation_id <$> rs →
           dialog_states (storage (world s)) !! c = dialog_states (storage w0) !! c).

Lemma touches_only_start a w : touches_only (act_reference a) w (start a w).
Proof.
  split; [done|]. exists [], []. cbn. rewrite !app_nil_r.
  repeat split; auto.
Qed.

Lemma touches_only_onTurn adapter now ref0 w0 :
  Preserves (touches_only ref0 w0) (onTurn adapter Turn now).
Proof.
  apply keeps_onTurn.
  - intros c text s (Href & sent & rs & Hout & Hres & Hpro & Hsent & Hprof & Hstk).
    destruct c; (split; [done|]); cbn.
    + exists (sent ++ [say ref0 text])%list, rs.
      rewrite Hout, Href, <- app_assoc. repeat split; try done.
      apply Forall_app. split; [done|]. apply Forall_singleton. by left.
    + exists (sent ++ [say (act_reference (activity (proactive s))) text])%list, rs.
      rewrite Hout, <- app_assoc. repeat split; try done.
      apply Forall_app. split; [done|]. by apply Forall_singleton.
  - by intros v s H.
  - by intros [] v s H.
  - by intros [] v s H.
  - by intros v s H.
  - intros v s (Href & sent & rs & Hout & Hres & Hpro & Hsent & Hprof & Hstk).
    split; [done|]. exists sent, rs. repeat split; try done.
    intros u Hu. cbn. rewrite Href. rewrite lookup_insert_ne by done. by apply Hprof.
  - intros c v s (Href & sent & rs & Hout & Hres & Hpro & Hsent & Hprof & Hstk).
    split; [by destruct c|]. exists sent, rs.
    split; [by destruct c|]. split; [by destruct c|]. split; [by destruct c|].
    split; [done|]. split; [by destruct c|].
    intros k Hk Hk'.
    assert (k ≠ conversation_id (reference_of c s)) as Hne.
    { destruct c; cbn; [by rewrite Href|].
      destruct Hpro as [-> | Hin]; [done|].
      intros ->. apply Hk'. apply list_elem_of_fmap. by eexists. }
    destruct c; cbn in *; rewrite lookup_insert_ne by done; by apply Hstk.
  - intros r s (Href & sent & rs & Hout & Hres & Hpro & Hsent & Hprof & Hstk) _.
    split; [done|]. exists sent, (rs ++ [r])%list. cbn.
    rewrite Hres, <- app_assoc. repeat split; try done.
    + right. apply elem_of_app. right. by apply list_elem_of_singleton.
    + eapply Forall_impl; [done|]. intros m [H|H]; [by left|right].
      apply elem_of_app. by left.
    + intros c Hc Hc'. apply Hstk; [done|]. intros Hin. apply Hc'.
      rewrite fmap_app. apply elem_of_app. by left.
  - intros r s (Href & sent & rs & Hout & Hres & Hpro & Hsent & Hprof & Hstk) _.
    split; [done|]. exists sent, (rs ++ [r])%list. cbn.
    rewrite Hres, <- app_assoc. repeat split; try done.
    + destruct Hpro as [H|H]; [by left|right]. apply elem_of_app. by left.
    + eapply Forall_impl; [done|]. intros m [H|H]; [by left|right].
      apply elem_of_app. by left.
    + intros c Hc Hc'. apply Hstk; [done|]. intros Hin. apply Hc'.
      rewrite fmap_app. apply elem_of_app. by left.
  - by intros s H _.
  - by intros s H _ _.
Qed.

Lemma touches_only_run_turn adapter now a w :
  let w' := (run_turn adapter now a w).1 in
  ∃ sent rs,
    outbox w' = (outbox w ++ sent)%list
    ∧ resumes w' = (resumes w ++ rs)%list
    ∧ Forall (λ m, sent_to m = act_reference a ∨ sent_to m ∈ rs) sent
    ∧ (∀ u, u ≠ user_id (act_reference a) →
         user_profiles (storage w') !! u = user_profiles (storage w) !! u)
    ∧ (∀ c, c ≠ conversation_id (act_reference a) → c ∉ conversation_id <$> rs →
         dialog_states (storage w') !! c = dialog_states (storage w) !! c).
Proof.
  cbv zeta. unfold run_turn. cbn [fst].
  pose proof (preserves_final _ _ (start a w)
                (touches_only_onTurn adapter now (act_reference a) w)
                (touches_only_start a w))
    as (_ & sent & rs & Hout & Hres & _ & Hsent & Hprof & Hstk).
  by exists sent, rs.
Qed.

(** X10.  A turn changes no stored profile but that of the user who sent
    the activity: not that of the user it notifies, and not that of anyone
    else.  So over any sequence of turns, the profile of a user who sends
    none of them is what it was. *)
Theorem profiles_of_others_are_kept turns w u :
  Forall (λ t, user_id (act_reference (in_activity t)) ≠ u) turns →
  user_profiles (storage (run_turns turns w)) !! u = user_profiles (storage w) !! u.
Proof.
  revert w. induction turns as [|t turns IH]; intros w Hall; [done|].
  apply Forall_cons in Hall as [Ht Hall]. rewrite run_turns_cons, IH by done.
  destruct (touches_only_run_turn (in_adapter t) (in_now t) (in_activity t) w)
    as (sent & rs & _ & _ & _ & Hprof & _).
  apply Hprof. congruence.
Qed.

(** X11.  A turn only adds to the outbox and to the resume log, and every
    activity it sends is addressed to the sender of the turn or to a
    conversation the turn has resumed. *)
Theorem activities_go_to_sender_or_resumed adapter now a w :
  let w' := (run_turn adapter now a w).1 in
  outbox w' = (outbox w ++ sent_during w w')%list
  ∧ resumes w' = (resumes w ++ drop (length (resumes w)) (resumes w'))%list
  ∧ Forall (λ m, sent_to m = act_reference a
                 ∨ sent_to m ∈ drop (length (resumes w)) (resumes w'))
      (sent_during w w').
Proof.
  cbv zeta.
  destruct (touches_only_run_turn adapter now a w)
    as (sent & rs & Hout & Hres & Hsent & _ & _).
  unfold sent_during. rewrite Hout, Hres, !drop_app_length. done.
Qed.

(** X12.  A turn changes the stored dialog stack of no conversation but
    the sender's and the ones it has resumed. *)
Theorem dialogs_of_others_are_kept adapter now a w c :
  let w' := (run_turn adapter now a w).1 in
  c ≠ conversation_id (act_reference a) →
  c ∉ conversation_id <$> drop (length (resumes w)) (resumes w') →
  dialog_states (storage w') !! c = dialog_states (storage w) !! c.
Proof.
  cbv zeta. intros Hc Hres.
  destruct (touches_only_run_turn adapter now a w)
    as (sent & rs & _ & Hrs & _ & _ & Hstk).
  rewrite Hrs, drop_app_length in Hres. by apply Hstk.
Qed.

Lemma profiles_of_others_are_kept_witness :
  let turns := [ {| in_adapter := Fixture.reachable; in_now := 0;
                    in_activity := message Fixture.bob "done 5" |} ] in
  user_profiles (storage (run_turns turns Fixture.one_job)) !! "alice"
  = user_profiles (storage Fixture.one_job) !! "alice".
Proof.
  apply (profiles_of_others_are_kept
           [ {| in_adapter := Fixture.reachable; in_now := 0;
                in_activity := message Fixture.bob "done 5" |} ]
           Fixture.one_job "alice").
  apply Forall_cons_2; [discriminate|apply Forall_nil_2].
Defined.

Lemma dialogs_of_others_are_kept_witness :
  let a := message Fixture.bob "done 5" in
  dialog_states (storage (run_turn Fixture.reachable 0 a Fixture.one_job).1) !! "conv-c"
  = dialog_states (storage Fixture.one_job) !! "conv-c".
Proof.
  apply (dialogs_of_others_are_kept Fixture.reachable 0
           (message Fixture.bob "done 5") Fixture.one_job "conv-c").
  - discriminate.
  - vm_compute. intros H. inversion H as [|? ? ? H']; inversion H'.
Defined.

(* ===================================================================== *)
(** ** The shape of the dialog stacks *)
(* ===================================================================== *)

(** The stacks the bot leaves in storage: onboardings waiting one above
    the other, each a waterfall WHO_ARE_YOU under the prompt of the step it
    is at. *)
Inductive onboarding_stack : DialogStack → Prop :=
| onboarding_none : onboarding_stack []
| onboarding_at_name stk :
    onboarding_stack stk →
    onboarding_stack (name_prompt :: WaterfallInstance WHO_ARE_YOU 0 :: stk)
| onboarding_at_city stk :
    onboarding_stack stk →
    onboarding_stack (city_prompt :: WaterfallInstance WHO_ARE_YOU 1 :: stk).

Definition stacks_stored (s : State) : Prop :=
  ∀ r, onboarding_stack (stack_of (storage (world s)) r).

Definition stack_cached (c : Ctx) (s : State) : Prop :=
  ∀ x, conv_cache (ctx c s) = Some x → onboarding_stack (current x).

(** Between two operations of a turn: the stored stacks and the stacks the
    two contexts have cached are onboarding stacks. *)
Definition stacks_ok (s : State) : Prop :=
  stacks_stored s ∧ stack_cached Turn s ∧ stack_cached Proactive s.

Definition other (c : Ctx) : Ctx :=
  match c with Turn => Proactive | Proactive => Turn end.

(** In the middle of a dialog operation on the context [c]: the stack [c]
    has cached is [stk], whatever its shape. *)
Definition top_is (c : Ctx) (stk : DialogStack) (s : State) : Prop :=
  stacks_stored s ∧ stack_cached (other c) s
  ∧ ∃ x, conv_cache (ctx c s) = Some x ∧ current x = stk.

Lemma top_is_ok c stk s : onboarding_stack stk → top_is c stk s → stacks_ok s.
Proof.
  intros Hstk (Hst & Hother & x & Hx & Hcur).
  destruct c; (split; [done|]); split; try done;
    intros y Hy; cbn in *; congruence.
Qed.

Lemma top_is_stored c stk s : top_is c stk s → stacks_stored s.
Proof. by intros [H _]. Qed.

Lemma stacks_ok_stored s : stacks_ok s → stacks_stored s.
Proof. by intros [H _]. Qed.

Lemma stack_of_insert st r r' stk :
  stack_of
    {| bot_jobs := bot_jobs st; user_profiles := user_profiles st;
       dialog_states := <[conversation_id r' := stk]> (dialog_states st) |} r
  = if decide (conversation_id r' = conversation_id r) then stk else stack_of st r.
Proof.
  unfold stack_of. cbn. case_decide as H.
  - by rewrite H, lookup_insert_eq.
  - by rewrite lookup_insert_ne.
Qed.

Section Stacks.
Context (adapter : BotAdapter).

(** [Runs P m Q]: from [P], [m] returns in [Q], or throws with the stored
    stacks in shape. *)
Definition Runs {A} (P : State → Prop) (m : M A) (Q : A → State → Prop) : Prop :=
  Hoare P m Q stacks_stored.

Lemma runs_bind {A B} P Q R (m : M A) (f : A → M B) :
  Runs P m Q → (∀ a, Runs (Q a) (f a) R) → Runs P (m ≫= f) R.
Proof. apply hoare_bind. Qed.

Lemma runs_post {A} P (Q Q' : A → State → Prop) (m : M A) :
  Runs P m Q' → (∀ a s, Q' a s → Q a s) → Runs P m Q.
Proof. intros Hm HQ. eapply hoare_weaken; [exact Hm|auto..]. Qed.

Lemma runs_top_ok {A} P c stk (m : M A) :
  onboarding_stack stk → Runs P m (λ _, top_is c stk) → Runs P m (λ _, stacks_ok).
Proof.
  intros Hstk Hm. eapply runs_post; [exact Hm|].
  intros ? s. by apply top_is_ok.
Qed.

Lemma runs_skip P : Runs P skip (λ _, P).
Proof. by intros s Hs. Qed.

Lemma runs_gets {A} P (f : State → A) : Runs P (gets f) (λ _, P).
Proof. by intros s Hs. Qed.

(** *** What does not look at the stacks *)

Lemma top_deliver c stk c' text s : top_is c stk s → top_is c stk (deliver c' text s).
Proof.
  intros (Hst & Hother & x & Hx & Hcur).
  destruct c, c'; (split; [exact Hst|]); (split; [exact Hother|]); by exists x.
Qed.

Lemma top_user c stk c' v s :
  top_is c stk s → top_is c stk (set_ctx c' (sc_set_cache user_scope v (ctx c' s)) s).
Proof.
  intros (Hst & Hother & x & Hx & Hcur).
  destruct c, c'; (split; [exact Hst|]); (split; [exact Hother|]); by exists x.
Qed.

Lemma ok_deliver c text s : stacks_ok s → stacks_ok (deliver c text s).
Proof. intros (H1 & H2 & H3). by destruct c. Qed.

Lemma ok_user c : CacheStable stacks_ok user_scope c.
Proof. intros v s (H1 & H2 & H3). by destruct c. Qed.

Lemma ok_bot : CacheStable stacks_ok bot_scope Turn.
Proof. by intros v s (H1 & H2 & H3). Qed.

Lemma ok_write_user : WriteStable stacks_ok user_scope Turn.
Proof. by intros v s (H1 & H2 & H3). Qed.

Lemma ok_write_bot : WriteStable stacks_ok bot_scope Turn.
Proof. by intros v s (H1 & H2 & H3). Qed.

Lemma runs_send_top c stk c' text :
  Runs (top_is c stk) (sendActivity adapter c' text) (λ _, top_is c stk).
Proof.
  eapply hoare_weaken;
    [apply (preserves_sendActivity (top_is c stk)); apply top_deliver|auto..].
  apply top_is_stored.
Qed.

Lemma runs_get_user_top c stk c' :
  Runs (top_is c stk) (property_get user_scope c') (λ _, top_is c stk).
Proof. apply quiet_get. intros v s. apply top_user. Qed.

Lemma runs_set_user_top c stk c' v :
  Runs (top_is c stk) (property_set user_scope c' v) (λ _, top_is c stk).
Proof. apply quiet_set. intros v' s. apply top_user. Qed.

Lemma runs_send_ok c text :
  Runs stacks_ok (sendActivity adapter c text) (λ _, stacks_ok).
Proof.
  eapply hoare_weaken;
    [apply (preserves_sendActivity stacks_ok); apply ok_deliver|auto..].
  apply stacks_ok_stored.
Qed.

(** *** The stack operations *)

Lemma runs_load c :
  Runs stacks_ok (load conv_scope c)
    (λ x s, top_is c (current x) s ∧ onboarding_stack (current x)).
Proof.
  intros s (Hst & Ht & Hp). unfold load. change (sc_cache conv_scope) with conv_cache.
  destruct (conv_cache (ctx c s)) as [x|] eqn:Hx.
  - split.
    + split; [exact Hst|]. split; [destruct c; [exact Hp|exact Ht]|]. by exists x.
    + destruct c; [by apply Ht|by apply Hp].
  - cbn [current]. split; [|apply Hst].
    split; [destruct c; exact Hst|].
    split; [destruct c; [exact Hp|exact Ht]|].
    eexists. split; [by destruct c|done].
Qed.

Lemma runs_createContext c : Runs stacks_ok (createContext c) (λ _, stacks_ok).
Proof.
  unfold createContext. eapply runs_bind; [apply runs_load|].
  intros x s [Htop Hstk]. cbn. by eapply top_is_ok.
Qed.

Lemma runs_get_stack c :
  Runs stacks_ok (get_stack c) (λ stk s, top_is c stk s ∧ onboarding_stack stk).
Proof.
  unfold get_stack, property_get. eapply runs_bind; [apply runs_load|].
  by intros x s Hs.
Qed.

Lemma runs_get_top c stk :
  Runs (top_is c stk) (get_stack c) (λ stk' s, stk' = stk ∧ top_is c stk s).
Proof.
  intros s (Hst & Hother & x & Hx & Hcur).
  destruct c; cbn in Hx |- *; rewrite Hx; cbn;
    (split; [done|]); (split; [exact Hst|]); (split; [exact Hother|]); by exists x.
Qed.

Lemma runs_set_top c stk stk' :
  Runs (top_is c stk) (set_stack c stk') (λ _, top_is c stk').
Proof.
  intros s (Hst & Hother & x & Hx & Hcur).
  destruct c; cbn in Hx |- *; rewrite Hx; cbn;
    (split; [exact Hst|]); (split; [exact Hother|]); by eexists.
Qed.

Lemma runs_set_stepIndex c id j rest i :
  Runs (top_is c (WaterfallInstance id j :: rest)) (set_stepIndex c i)
    (λ _, top_is c (WaterfallInstance id i :: rest)).
Proof.
  unfold set_stepIndex. eapply runs_bind; [apply runs_get_top|].
  intros stk. apply hoare_pure_l. intros ->. apply runs_set_top.
Qed.

Lemma runs_prompt c stk id text :
  obj_get (dialogs adapter) id = Some TextPrompt →
  Runs (top_is c stk) (prompt adapter (dialogs adapter) c id text)
    (λ _, top_is c (PromptInstance id text :: stk)).
Proof.
  intros Hid. unfold prompt. rewrite Hid.
  eapply runs_bind; [apply runs_get_top|].
  intros stk'. apply hoare_pure_l. intros ->.
  eapply runs_bind; [apply runs_set_top|]. intros ?.
  apply runs_send_top.
Qed.

(** *** The dialogs *)

(** The end of the dialog above an onboarding stack: the stack is what
    remains, and its prompt, if it has one, asks again. *)
Lemma runs_end c top parent result stk0 :
  onboarding_stack parent →
  Runs (top_is c stk0)
    (endDialog_from adapter (dialogs adapter) c (top :: parent) result)
    (λ _, stacks_ok).
Proof.
  intros Hparent. cbn [endDialog_from].
  eapply runs_bind; [apply runs_set_top|]. intros ?.
  apply (runs_top_ok _ c parent); [done|].
  destruct Hparent; [apply runs_skip|apply runs_send_top..].
Qed.

Lemma runs_begin_hello c :
  Runs stacks_ok (beginDialog adapter (dialogs adapter) c HELLO_USER) (λ _, stacks_ok).
Proof.
  unfold beginDialog. rewrite dialogs_hello.
  eapply runs_bind; [apply runs_get_stack|]. intros stk.
  apply hoare_pure. intros Hstk.
  eapply runs_bind; [apply runs_set_top|]. intros ?.
  unfold runStep. cbn [lookup list_lookup].
  eapply runs_bind; [apply runs_set_stepIndex|]. intros ?.
  unfold displayProfile. cbn [step_context step_endDialog].
  eapply runs_bind; [apply runs_get_user_top|]. intros user.
  eapply runs_bind; [apply runs_send_top|]. intros ?.
  by apply runs_end.
Qed.

Lemma runs_begin_who c :
  Runs stacks_ok (beginDialog adapter (dialogs adapter) c WHO_ARE_YOU) (λ _, stacks_ok).
Proof.
  unfold beginDialog. rewrite dialogs_who.
  eapply runs_bind; [apply runs_get_stack|]. intros stk.
  apply hoare_pure. intros Hstk.
  eapply runs_bind; [apply runs_set_top|]. intros ?.
  unfold runStep. cbn [lookup list_lookup].
  eapply runs_bind; [apply runs_set_stepIndex|]. intros ?.
  unfold promptForName. cbn [step_prompt].
  apply (runs_top_ok _ c (name_prompt :: WaterfallInstance WHO_ARE_YOU 0 :: stk));
    [by constructor|].
  apply runs_prompt, dialogs_name.
Qed.

Lemma runs_reprompt c stk text :
  Runs (top_is c stk) (reprompt adapter c text) (λ _, top_is c stk).
Proof.
  unfold reprompt. eapply runs_bind; [apply runs_gets|].
  intros []; [apply runs_skip|apply runs_send_top].
Qed.

(** The answer to the name prompt. *)
Lemma runs_answer_name c rest result :
  onboarding_stack rest →
  Runs (top_is c (name_prompt :: WaterfallInstance WHO_ARE_YOU 0 :: rest))
    (endDialog_from adapter (dialogs adapter) c
       (name_prompt :: WaterfallInstance WHO_ARE_YOU 0 :: rest) result)
    (λ _, stacks_ok).
Proof.
  intros Hrest. cbn [endDialog_from].
  eapply runs_bind; [apply runs_set_top|]. intros ?.
  rewrite steps_of_who. unfold runStep. cbn [lookup list_lookup].
  eapply runs_bind; [apply runs_set_stepIndex|]. intros ?.
  unfold promptForCity. cbn [step_context step_result step_prompt].
  eapply runs_bind; [apply runs_get_user_top|]. intros user.
  eapply runs_bind; [apply runs_set_user_top|]. intros ?.
  eapply runs_bind; [apply runs_set_user_top|]. intros ?.
  apply (runs_top_ok _ c (city_prompt :: WaterfallInstance WHO_ARE_YOU 1 :: rest));
    [by constructor|].
  apply runs_prompt, dialogs_city.
Qed.

(** The answer to the city prompt. *)
Lemma runs_answer_city c rest result :
  onboarding_stack rest →
  Runs (top_is c (city_prompt :: WaterfallInstance WHO_ARE_YOU 1 :: rest))
    (endDialog_from adapter (dialogs adapter) c
       (city_prompt :: WaterfallInstance WHO_ARE_YOU 1 :: rest) result)
    (λ _, stacks_ok).
Proof.
  intros Hrest. cbn [endDialog_from].
  eapply runs_bind; [apply runs_set_top|]. intros ?.
  rewrite steps_of_who. unfold runStep. cbn [lookup list_lookup].
  eapply runs_bind; [apply runs_set_stepIndex|]. intros ?.
  unfold captureCity. cbn [step_context step_result step_endDialog].
  eapply runs_bind; [apply runs_get_user_top|]. intros user.
  eapply runs_bind; [apply runs_set_user_top|]. intros ?.
  eapply runs_bind; [apply runs_set_user_top|]. intros ?.
  exact (runs_end c (WaterfallInstance WHO_ARE_YOU 1) rest None _ Hrest).
Qed.

Lemma runs_continueDialog c :
  Runs stacks_ok (continueDialog adapter (dialogs adapter) c) (λ _, stacks_ok).
Proof.
  unfold continueDialog.
  eapply runs_bind; [apply runs_get_stack|]. intros stk.
  apply hoare_pure. intros Hstk.
  eapply runs_bind; [apply runs_gets|]. intros a.
  destruct Hstk as [|rest Hrest|rest Hrest].
  - apply (runs_top_ok _ c []); [constructor|]. apply runs_skip.
  - unfold name_prompt at 1.
    case_decide;
      [|apply (runs_top_ok _ c (name_prompt :: WaterfallInstance WHO_ARE_YOU 0 :: rest));
        [by constructor|apply runs_skip]].
    destruct (act_text a) as [t|];
      [case_decide|];
      try (apply (runs_top_ok _ c (name_prompt :: WaterfallInstance WHO_ARE_YOU 0 :: rest));
           [by constructor|apply runs_reprompt]).
    by apply runs_answer_name.
  - unfold city_prompt at 1.
    case_decide;
      [|apply (runs_top_ok _ c (city_prompt :: WaterfallInstance WHO_ARE_YOU 1 :: rest));
        [by constructor|apply runs_skip]].
    destruct (act_text a) as [t|];
      [case_decide|];
      try (apply (runs_top_ok _ c (city_prompt :: WaterfallInstance WHO_ARE_YOU 1 :: rest));
           [by constructor|apply runs_reprompt]).
    by apply runs_answer_city.
Qed.

(** *** The turn *)

Lemma runs_save_conv c : Runs stacks_ok (saveChanges conv_scope c) (λ _, stacks_ok).
Proof.
  intros s (Hst & Ht & Hp). unfold saveChanges.
  change (sc_cache conv_scope) with conv_cache.
  destruct (conv_cache (ctx c s)) as [x|] eqn:Hx; [|done].
  case_decide; [done|].
  assert (onboarding_stack (current x)) as Hcur
    by (destruct c; [by apply Ht|by apply Hp]).
  assert (stacks_stored
            (set_world
               (set_storage
                  (sc_write conv_scope (reference_of c s) (current x) (storage (world s)))
                  (world s)) s)) as Hst'.
  { intros r. cbn. rewrite stack_of_insert. case_decide; [done|apply Hst]. }
  destruct c; (split; [exact Hst'|]); split; try done; by intros y [= <-].
Qed.

Lemma runs_save_all : Runs stacks_ok save_all (λ _, stacks_ok).
Proof.
  unfold save_all.
  eapply runs_bind; [apply quiet_save; [apply ok_user|apply ok_write_user]|]. intros ?.
  eapply runs_bind; [apply runs_save_conv|]. intros ?.
  apply quiet_save; [apply ok_bot|apply ok_write_bot].
Qed.

Lemma runs_notify jobs jobInfo jobIdNumber :
  Runs stacks_ok (notify adapter Turn jobs jobInfo jobIdNumber) (λ _, stacks_ok).
Proof.
  unfold notify.
  eapply runs_bind; [apply quiet_set, ok_bot|]. intros ?.
  eapply runs_bind; [apply quiet_set, ok_bot|]. intros ?.
  eapply runs_bind; [apply runs_send_ok|]. intros ?.
  eapply runs_bind; [apply runs_createContext|]. intros ?.
  eapply runs_bind; [apply quiet_get, ok_user|]. intros user.
  eapply runs_bind; [|intros ?; apply runs_save_conv].
  destruct (truthy (city user)); [apply runs_begin_hello|apply runs_begin_who].
Qed.

Lemma runs_continueConversation r logic :
  Runs stacks_ok logic (λ _, stacks_ok) →
  Runs stacks_ok (continueConversation adapter r logic) (λ _, stacks_ok).
Proof.
  intros Hl s (Hst & Ht & Hp). unfold continueConversation.
  destruct (adapter r); [|done|]; apply Hl; by repeat split.
Qed.

Lemma runs_completeJob jobIdNumber :
  Runs stacks_ok (completeJob adapter Turn jobIdNumber) (λ _, stacks_ok).
Proof.
  unfold completeJob.
  eapply runs_bind; [apply quiet_get, ok_bot|]. intros jobs.
  destruct (obj_get jobs _) as [info|]; cbn [isEmpty]; [|apply runs_send_ok].
  destruct (completed info); cbn [truthy_object negb andb].
  - apply runs_send_ok.
  - eapply runs_bind; [|intros ?; apply runs_send_ok].
    apply runs_continueConversation, runs_notify.
Qed.

Lemma runs_onMessage now u :
  Runs stacks_ok (onMessage adapter Turn now u) (λ _, stacks_ok).
Proof.
  unfold onMessage.
  case_decide; [apply keeps_createJob; [apply ok_deliver|apply ok_bot]|].
  case_decide.
  { apply keeps_showJobs; [apply ok_deliver|apply ok_bot|].
    intros s Hs _. by apply stacks_ok_stored. }
  case_decide; [|apply runs_skip].
  destruct (negb _); [apply runs_completeJob|].
  destruct (_ && _)%bool; [apply runs_send_ok|apply runs_skip].
Qed.

Lemma runs_onTurn now : Runs stacks_ok (onTurn adapter Turn now) (λ _, stacks_ok).
Proof.
  unfold onTurn.
  eapply runs_bind; [apply runs_gets|]. intros a.
  eapply runs_bind; [|intros ?; apply runs_save_all].
  case_decide.
  - eapply runs_bind; [apply runs_createContext|]. intros ?.
    eapply runs_bind; [apply runs_onMessage|]. intros ?.
    eapply runs_bind; [apply runs_gets|].
    intros []; [apply runs_skip|apply runs_continueDialog].
  - destruct (_ && _)%bool.
    + destruct (negb _); [apply runs_completeJob|apply runs_skip].
    + case_decide; [|apply runs_skip].
      destruct (act_membersAdded a) as [|member rest].
      * intros s Hs. cbn. by apply stacks_ok_stored.
      * case_decide; [apply runs_send_ok|apply runs_skip].
Qed.

End Stacks.

Lemma stacks_kept_run_turn adapter now a w :
  (∀ r, onboarding_stack (stack_of (storage w) r)) →
  ∀ r, onboarding_stack (stack_of (storage (run_turn adapter now a w).1) r).
Proof.
  intros Hw. unfold run_turn. cbn [fst].
  assert (stacks_ok (start a w)) as Hstart by (by repeat split).
  pose proof (runs_onTurn adapter now (start a w) Hstart) as H.
  destruct (onTurn adapter Turn now (start a w)) as [[] s|e s]; cbn [final_state].
  - by apply stacks_ok_stored.
  - exact H.
Qed.

(** X20.  Every dialog stack the bot stores is a pile of onboardings, each
    the waterfall WHO_ARE_YOU at step 0 under the name prompt or at step 1
    under the city prompt.  So the active dialog of a conversation, when
    there is one, is always one of these two prompts: HELLO_USER never
    outlives the turn that began it, no waterfall is ever left on top of a
    stack, and the depth of a stack is twice the number of onboardings
    that wait in it.  This holds after any sequence of turns, with any
    adapter, clock and activities, returned or thrown. *)
Theorem stored_stacks_are_onboardings turns r :
  onboarding_stack (stack_of (storage (run_turns turns empty_world)) r).
Proof.
  revert r.
  assert (∀ w, (∀ r, onboarding_stack (stack_of (storage w) r)) →
               ∀ r, onboarding_stack (stack_of (storage (run_turns turns w)) r)) as H.
  { induction turns as [|t turns IH]; intros w Hw; [done|].
    rewrite run_turns_cons. apply IH. by apply stacks_kept_run_turn. }
  apply H. intros r. constructor.
Qed.

(* ===================================================================== *)
(** ** Dialogs under dialogs, and commands under prompts *)
(* ===================================================================== *)

(** X14.  When the onboarding ends above a prompt that was waiting (a
    second job of the same user was completed before the user had
    answered), the answer to the city prompt is stored, the waterfall is
    popped, and the prompt below is resumed: it sends its text again and
    is the active dialog once more.  Each notification that started the
    onboarding costs the user one round of questions. *)
Theorem onboarding_end_resumes_the_prompt_below adapter now a w t pid ptext pid' ptext' stk :
  act_type a = Message →
  act_text a = Some t →
  t ≠ EmptyString →
  spec_classify (Some t) = UNRECOGNIZED →
  stack_of (storage w) (act_reference a)
  = PromptInstance pid ptext :: WaterfallInstance WHO_ARE_YOU 1
      :: PromptInstance pid' ptext' :: stk →
  let w' := (run_turn adapter now a w).1 in
  (run_turn adapter now a w).2 = None
  ∧ sent_during w w' = [say (act_reference a) ptext']
  ∧ resumes w' = resumes w
  ∧ jobs_of w' = jobs_of w
  ∧ profile_of (storage w') (act_reference a)
    = {| name := name (profile_of (storage w) (act_reference a)); city := Some t |}
  ∧ stack_of (storage w') (act_reference a) = PromptInstance pid' ptext' :: stk.
Proof.
  intros Ht Htext Hne Hc Hstk.
  destruct w as [st out res]. cbn in Hstk.
  unfold run_turn. cbn [fst snd].
  remember (onTurn adapter Turn now _) as result eqn:Hres.
  rewrite onTurn_message in Hres by done.
  cbn [start turn new_context activity] in Hres. rewrite Htext, Hc in Hres.
  unfold message_turn, save_all, spec_dispatch in Hres.
  cbn in Hres. rewrite Hstk in Hres. unfold continueDialog in Hres. cbn in Hres.
  rewrite Ht, Htext in Hres.
  rewrite decide_True in Hres by done. rewrite decide_False in Hres by done.
  cbn in Hres. rewrite steps_of_who in Hres.
  unfold runStep, set_stepIndex, captureCity in Hres. cbn in Hres.
  assert (PromptInstance pid ptext :: WaterfallInstance WHO_ARE_YOU 1
            :: PromptInstance pid' ptext' :: stk ≠ PromptInstance pid' ptext' :: stk)
    as Hpop by (intros H; symmetry in H; by apply cons_cons_ne in H).
  unfold saveChanges at 1 in Hres. cbn in Hres.
  destruct (decide _) as [Hsame|Hdiff] in Hres.
  - erewrite saveChanges_changed in Hres; [|done|done].
    cbn in Hres. erewrite saveChanges_none in Hres by done.
    subst result. cbn. unfold profile_of, stack_of, sent_during in *. cbn.
    rewrite lookup_insert_eq, drop_app_length. by rewrite Hsame.
  - erewrite saveChanges_changed in Hres; [|done|done].
    cbn in Hres. erewrite saveChanges_none in Hres by done.
    subst result. cbn. unfold profile_of, stack_of, sent_during in *. cbn.
    by rewrite !lookup_insert_eq, drop_app_length.
Qed.

Lemma onboarding_end_resumes_the_prompt_below_witness :
  let w := {| storage := with_stack Fixture.alice
                           [city_prompt; WaterfallInstance WHO_ARE_YOU 1;
                            name_prompt; WaterfallInstance WHO_ARE_YOU 0]
                           empty_storage;
              outbox := []; resumes := [] |} in
  let w' := (run_turn Fixture.reachable 0 (message Fixture.alice "Seattle") w).1 in
  sent_during w w' = [say Fixture.alice "What is your name?"]
  ∧ stack_of (storage w') Fixture.alice
    = [name_prompt; WaterfallInstance WHO_ARE_YOU 0].
Proof.
  cbv zeta.
  destruct (onboarding_end_resumes_the_prompt_below Fixture.reachable 0
              (message Fixture.alice "Seattle")
              {| storage := with_stack Fixture.alice
                              [city_prompt; WaterfallInstance WHO_ARE_YOU 1;
                               name_prompt; WaterfallInstance WHO_ARE_YOU 0]
                              empty_storage;
                 outbox := []; resumes := [] |}
              "Seattle" CITY_PROMPT "What city are you from?"
              NAME_PROMPT "What is your name?" [WaterfallInstance WHO_ARE_YOU 0]
              eq_refl eq_refl ltac:(discriminate) eq_refl eq_refl)
    as (_ & Hsent & _ & _ & _ & Hstk).
  split; [exact Hsent|exact Hstk].
Defined.

(** X8.  A [run] whose id is taken sends nothing, so the turn goes on to
    the dialog: when a prompt is waiting in the conversation, the text of
    the command is taken as the answer.  At the name prompt of the
    onboarding the name stored is the text as typed, the city prompt
    follows, and the registry is as it was. *)
Theorem duplicate_run_answers_the_prompt adapter now a w t r pid ptext stk :
  act_type a = Message →
  act_text a = Some t →
  spec_classify (Some t) = RUN →
  obj_get (jobs_of w) (job_id now) = Some r →
  stack_of (storage w) (act_reference a)
  = PromptInstance pid ptext :: WaterfallInstance WHO_ARE_YOU 0 :: stk →
  let w' := (run_turn adapter now a w).1 in
  (run_turn adapter now a w).2 = None
  ∧ sent_during w w' = [say (act_reference a) "What city are you from?"]
  ∧ resumes w' = resumes w
  ∧ jobs_of w' = jobs_of w
  ∧ profile_of (storage w') (act_reference a)
    = {| name := Some t; city := city (profile_of (storage w) (act_reference a)) |}
  ∧ stack_of (storage w') (act_reference a)
    = city_prompt :: WaterfallInstance WHO_ARE_YOU 1 :: stk.
Proof.
  intros Ht Htext Hc Hj Hstk.
  assert (t ≠ EmptyString) as Hne by (intros ->; discriminate Hc).
  destruct w as [st out res]. cbn in Hstk, Hj. unfold job_id in Hj.
  unfold run_turn. cbn [fst snd].
  remember (onTurn adapter Turn now _) as result eqn:Hres.
  rewrite onTurn_message in Hres by done.
  cbn [start turn new_context activity] in Hres. rewrite Htext, Hc in Hres.
  unfold message_turn, save_all, spec_dispatch, createJob in Hres.
  cbn in Hres. rewrite Hj in Hres. cbn in Hres.
  rewrite Hstk in Hres. unfold continueDialog in Hres. cbn in Hres.
  rewrite Ht, Htext in Hres.
  rewrite decide_True in Hres by done. rewrite decide_False in Hres by done.
  cbn in Hres. rewrite steps_of_who in Hres.
  unfold runStep, set_stepIndex, promptForCity in Hres. cbn in Hres.
  unfold prompt in Hres. rewrite dialogs_city in Hres. cbn in Hres.
  unfold saveChanges at 1 in Hres. cbn in Hres.
  destruct (decide _) as [Hsame|Hdiff] in Hres.
  - erewrite saveChanges_changed in Hres;
      [|done|cbn; apply stack_ne_1; congruence].
    cbn in Hres. erewrite saveChanges_same in Hres by done.
    subst result. cbn. unfold profile_of, stack_of, sent_during in *. cbn.
    rewrite lookup_insert_eq, drop_app_length. by rewrite Hsame.
  - erewrite saveChanges_changed in Hres;
      [|done|cbn; apply stack_ne_1; congruence].
    cbn in Hres. erewrite saveChanges_same in Hres by done.
    subst result. cbn. unfold profile_of, stack_of, sent_during in *. cbn.
    by rewrite !lookup_insert_eq, drop_app_length.
Qed.

Lemma duplicate_run_answers_the_prompt_witness :
  let w := {| storage := with_stack Fixture.alice
                           [name_prompt; WaterfallInstance WHO_ARE_YOU 0]
                           (storage Fixture.one_job);
              outbox := []; resumes := [] |} in
  let w' := (run_turn Fixture.reachable 1700000009005 (message Fixture.alice "Run") w).1 in
  sent_during w w' = [say Fixture.alice "What city are you from?"]
  ∧ profile_of (storage w') Fixture.alice = {| name := Some "Run"; city := None |}.
Proof.
  cbv zeta.
  destruct (duplicate_run_answers_the_prompt Fixture.reachable 1700000009005
              (message Fixture.alice "Run")
              {| storage := with_stack Fixture.alice
                              [name_prompt; WaterfallInstance WHO_ARE_YOU 0]
                              (storage Fixture.one_job);
                 outbox := []; resumes := [] |}
              "Run" {| completed := false; reference := Fixture.alice |}
              NAME_PROMPT "What is your name?" []
              eq_refl eq_refl eq_refl eq_refl eq_refl)
    as (_ & Hsent & _ & _ & Hprof & _).
  split; [exact Hsent|exact Hprof].
Defined.

(* ===================================================================== *)
(** ** From [run] to [done] *)
(* ===================================================================== *)

Lemma notice_is_sent_first adapter now a w id r :
  act_type a = Message →
  spec_classify (act_text a) = DONE id →
  obj_get (jobs_of w) id = Some r →
  completed r = false →
  adapter (reference r) = Reachable →
  ∃ rest,
    sent_during w (run_turn adapter now a w).1
    = say (reference r) (notice_text id) :: rest.
Proof.
  intros Ht Hc Hj Hpending Hreach.
  destruct (truthy (city (profile_of (storage w) (reference r)))) eqn:Hcity.
  - destruct (done_turn_hello_first adapter now a w id r) as [rest Hrest]; try done.
    eexists. apply sent_during_app in Hrest. by rewrite Hrest.
  - rewrite (done_turn_who adapter now a w id r) by done. cbn [fst].
    eexists. by erewrite sent_during_app by done.
Qed.

(** X15.  The id a [run] reports can be typed back: after [run] on a free
    id the creator is told the id, and [done] with that id, from any
    conversation, with the creator within reach, completes that job,
    resumes the conversation of the creator once, and sends the notice of
    completion there before anything else. *)
Theorem reported_id_completes_the_job adapter1 adapter2 now1 now2 creator caller w :
  obj_get (jobs_of w) (job_id now1) = None →
  (∀ r, adapter2 r = Reachable) →
  let id := job_id now1 in
  let w1 := (run_turn adapter1 now1 (message creator "run") w).1 in
  let a2 := message caller ("done " ++ id) in
  let w2 := (run_turn adapter2 now2 a2 w1).1 in
  sent_during w w1
  = [say creator ("Need to create new job ID: " ++ id);
     say creator "Successful write to log."]
  ∧ (run_turn adapter2 now2 a2 w1).2 = None
  ∧ obj_get (jobs_of w2) id = Some {| completed := true; reference := creator |}
  ∧ resumes w2 = (resumes w ++ [creator])%list
  ∧ ∃ rest,
      sent_during w1 w2
      = say creator ("Your queued job " ++ id ++ " just completed.") :: rest.
Proof.
  intros Hfree Hreach id w1 a2 w2.
  assert (spec_classify (act_text a2) = DONE id) as Hc
    by (apply numeral_classify, ToString_numeral).
  assert (run_turn adapter1 now1 (message creator "run") w
          = ({| storage :=
                  with_jobs (obj_set (jobs_of w) id
                               {| completed := false; reference := creator |})
                    (storage w);
                outbox := outbox w ++ [say creator (need_text now1);
                                       say creator success_text];
                resumes := resumes w |}, None)) as Hrun
    by (by apply run_turn_new_job).
  assert (obj_get (jobs_of w1) id = Some {| completed := false; reference := creator |})
    as Hj.
  { subst w1. rewrite Hrun. cbn. apply obj_get_set_eq. }
  assert ((run_turn adapter2 now2 a2 w1).2 = None) as Hok
    by (apply run_turn_returns; [done|discriminate]).
  destruct (done_turn_success adapter2 now2 a2 w1 id _ eq_refl Hc Hj eq_refl Hok)
    as [Hjobs Hres].
  split; [|split; [exact Hok|split; [|split]]].
  - subst w1. rewrite Hrun. cbn [fst]. by apply sent_during_app.
  - subst w2. rewrite Hjobs. apply obj_get_set_eq.
  - subst w2. rewrite Hres. subst w1. by rewrite Hrun.
  - apply (notice_is_sent_first adapter2 now2 a2 w1 id _ eq_refl Hc Hj eq_refl).
    apply Hreach.
Qed.

Lemma reported_id_completes_the_job_witness :
  let w1 := (run_turn Fixture.reachable 1700000000042
               (message Fixture.alice "run") empty_world).1 in
  let w2 := (run_turn Fixture.reachable 0 (message Fixture.bob "done 42") w1).1 in
  obj_get (jobs_of w2) "42" = Some {| completed := true; reference := Fixture.alice |}
  ∧ resumes w2 = [Fixture.alice].
Proof.
  cbv zeta.
  destruct (reported_id_completes_the_job Fixture.reachable Fixture.reachable
              1700000000042 0 Fixture.alice Fixture.bob empty_world
              eq_refl ltac:(reflexivity))
    as (_ & _ & Hjob & Hres & _).
  split; [exact Hjob|exact Hres].
Defined.

(** [done] on a pending job whose conversation cannot be resumed. *)
Lemma done_turn_fails adapter now a w id r :
  act_type a = Message →
  spec_classify (act_text a) = DONE id →
  obj_get (jobs_of w) id = Some r →
  completed r = false →
  adapter (reference r) ≠ Reachable →
  (run_turn adapter now a w).1
  = {| storage := storage w; outbox := outbox w;
       resumes := resumes w ++ [reference r] |}
  ∧ is_Some (run_turn adapter now a w).2.
Proof.
  intros Ht Hc Hj Hdone Hreach. run_message_turn Hc.
  destruct w as [[jobs profs stacks] out res]. simpl in Hj.
  cbn. rewrite Hj. cbn. rewrite Hdone. cbn.
  destruct (adapter (reference r)) eqn:Had; [done| |]; cbn; eauto.
Qed.

(** X16.  A completion that failed can be tried again.  When the resume
    fails the job stays pending and nothing is sent; the same [done], once
    the adapter reaches the creator, completes the job.  The resume log
    then holds both attempts. *)
Theorem failed_completion_can_be_retried adapter1 adapter2 now1 now2 a1 a2 w id r :
  act_type a1 = Message → spec_classify (act_text a1) = DONE id →
  act_type a2 = Message → spec_classify (act_text a2) = DONE id →
  obj_get (jobs_of w) id = Some r →
  completed r = false →
  adapter1 (reference r) ≠ Reachable →
  (∀ r', adapter2 r' = Reachable) →
  let w1 := (run_turn adapter1 now1 a1 w).1 in
  let w2 := (run_turn adapter2 now2 a2 w1).1 in
  is_Some (run_turn adapter1 now1 a1 w).2
  ∧ storage w1 = storage w
  ∧ outbox w1 = outbox w
  ∧ (run_turn adapter2 now2 a2 w1).2 = None
  ∧ obj_get (jobs_of w2) id = Some {| completed := true; reference := reference r |}
  ∧ resumes w2 = (resumes w ++ [reference r; reference r])%list.
Proof.
  intros Ht1 Hc1 Ht2 Hc2 Hj Hpending Hfail Hreach w1 w2.
  destruct (done_turn_fails adapter1 now1 a1 w id r Ht1 Hc1 Hj Hpending Hfail)
    as [Hw1 Herr].
  fold w1 in Hw1.
  assert (obj_get (jobs_of w1) id = Some r) as Hj1 by (by rewrite Hw1).
  assert ((run_turn adapter2 now2 a2 w1).2 = None) as Hok.
  { apply run_turn_returns; [done|]. intros Hu. by rewrite Hu in Ht2. }
  destruct (done_turn_success adapter2 now2 a2 w1 id r Ht2 Hc2 Hj1 Hpending Hok)
    as [Hjobs Hres].
  split; [exact Herr|]. split; [by rewrite Hw1|]. split; [by rewrite Hw1|].
  split; [exact Hok|]. split.
  - subst w2. rewrite Hjobs. apply obj_get_set_eq.
  - subst w2. rewrite Hres, Hw1. cbn. by rewrite <- app_assoc.
Qed.

Lemma failed_completion_can_be_retried_witness :
  let a := message Fixture.bob "done 5" in
  let w1 := (run_turn Fixture.unreachable 0 a Fixture.one_job).1 in
  let w2 := (run_turn Fixture.reachable 1 a w1).1 in
  storage w1 = storage Fixture.one_job
  ∧ obj_get (jobs_of w2) "5" = Some {| completed := true; reference := Fixture.alice |}
  ∧ resumes w2 = [Fixture.alice; Fixture.alice].
Proof.
  cbv zeta.
  destruct (failed_completion_can_be_retried Fixture.unreachable Fixture.reachable
              0 1 (message Fixture.bob "done 5") (message Fixture.bob "done 5")
              Fixture.one_job "5"
              {| completed := false; reference := Fixture.alice |}
              eq_refl eq_refl eq_refl eq_refl eq_refl eq_refl
              ltac:(discriminate) ltac:(reflexivity))
    as (_ & Hst & _ & _ & Hjob & Hres).
  split; [exact Hst|]. split; [exact Hjob|exact Hres].
Defined.

(* ===================================================================== *)
(** ** What leaves the registry alone *)
(* ===================================================================== *)

Lemma registry_kept_send adapter jobs res c text :
  Preserves (on_view (registry_kept jobs res)) (sendActivity adapter c text).
Proof. apply on_view_send. Qed.

Lemma registry_kept_save_all jobs res :
  Preserves (on_view (registry_kept jobs res)) save_all.
Proof.
  unfold save_all.
  apply preserves_bind; [apply on_view_save_user|]. intros _.
  apply preserves_bind; [apply on_view_save_conv|]. intros _.
  apply registry_kept_save.
Qed.

(** X17.  Only [run], [done <id>] and a [jobCompleted] event with a number
    can change the registry or resume a conversation.  Every other turn
    ([show], [done] without an id, any other text whatever dialog it
    continues, a conversation update, any other activity) leaves the
    registry and the resume log as they were, whether it returns or
    throws. *)
Theorem only_run_and_done_change_the_registry adapter now a w :
  (act_type a = Message →
   spec_classify (act_text a) ≠ RUN ∧ ∀ id, spec_classify (act_text a) ≠ DONE id) →
  (act_type a = Event → act_name a = Some "jobCompleted" →
   parseInt (act_value a) = None) →
  jobs_of (run_turn adapter now a w).1 = jobs_of w
  ∧ resumes (run_turn adapter now a w).1 = resumes w.
Proof.
  intros Hmsg Hev. unfold run_turn. cbn [fst].
  set (I := on_view (registry_kept (jobs_of w) (resumes w))).
  assert (I (start a w)) as HI.
  { subst I. unfold on_view, bot_view, registry_kept. cbn. done. }
  assert (I (final_state (onTurn adapter Turn now (start a w)))) as (H1 & H2 & _);
    [|split; [exact H1|exact H2]].
  destruct (decide (act_type a = Message)) as [Ht|Ht].
  - rewrite onTurn_message by done. cbn [start turn new_context activity].
    destruct (Hmsg Ht) as [Hrun Hdone].
    apply preserves_final; [|done].
    unfold message_turn.
    apply preserves_bind; [|intros _; apply registry_kept_save_all].
    apply preserves_bind; [apply on_view_createContext|]. intros _.
    apply preserves_bind.
    + destruct (spec_classify (act_text a)) as [| |id| |]; cbn [spec_dispatch].
      * done.
      * unfold showJobs.
        eapply hoare_bind; [apply registry_kept_get|]. intros jobs.
        apply hoare_pure_l. intros ->.
        case_decide; [|apply on_view_send].
        destruct (mapM _ _); [apply on_view_send|apply preserves_throw].
      * by destruct (Hdone id).
      * apply on_view_send.
      * apply preserves_skip.
    + intros _. apply preserves_bind; [apply preserves_gets|].
      intros []; [apply preserves_skip|apply on_view_continueDialog].
  - clear HI. subst I. unfold on_view, bot_view, registry_kept.
    destruct w as [st out res]. unfold onTurn. cbn.
    rewrite decide_False by done.
    destruct (bool_decide (act_type a = Event)) eqn:He;
      [destruct (bool_decide (act_name a = Some "jobCompleted")) eqn:Hn|];
      cbn [andb].
    + apply bool_decide_eq_true_1 in He, Hn. rewrite (Hev He Hn). cbn.
      erewrite !saveChanges_none by done. done.
    + destruct (decide (act_type a = ConversationUpdate)) as [Hu|Hu];
        [destruct (act_membersAdded a) as [|member rest];
         [|destruct (decide (member ≠ Some "Bot"))]|];
        cbn; try erewrite !saveChanges_none by done; done.
    + destruct (decide (act_type a = ConversationUpdate)) as [Hu|Hu];
        [destruct (act_membersAdded a) as [|member rest];
         [|destruct (decide (member ≠ Some "Bot"))]|];
        cbn; try erewrite !saveChanges_none by done; done.
Qed.

Lemma only_run_and_done_change_the_registry_witness :
  let w := {| storage := with_stack Fixture.bob
                           [name_prompt; WaterfallInstance WHO_ARE_YOU 0]
                           (storage Fixture.one_job);
              outbox := []; resumes := [] |} in
  jobs_of (run_turn Fixture.reachable 0 (message Fixture.bob "Ada") w).1 = jobs_of w
  ∧ resumes (run_turn Fixture.reachable 0 (message Fixture.bob "Ada") w).1 = resumes w.
Proof.
  apply (only_run_and_done_change_the_registry Fixture.reachable 0
           (message Fixture.bob "Ada")
           {| storage := with_stack Fixture.bob
                           [name_prompt; WaterfallInstance WHO_ARE_YOU 0]
                           (storage Fixture.one_job);
              outbox := []; resumes := [] |}).
  - intros _. vm_compute. split; [discriminate|intros id; discriminate].
  - discriminate.
Defined.

(** X19.  A greeting that arrives while a prompt is waiting (the user was
    onboarded by one notification while the onboarding of another one was
    suspended below) does not answer the prompt: HELLO_USER greets and
    ends, the prompt below is resumed and sends its text again, and the
    dialog stack is stored as it was. *)
Theorem greeting_resumes_the_waiting_prompt adapter now a w id r pid ptext stk :
  act_type a = Message →
  spec_classify (act_text a) = DONE id →
  obj_get (jobs_of w) id = Some r →
  completed r = false →
  adapter (reference r) = Reachable →
  truthy (city (profile_of (storage w) (reference r))) = true →
  stack_of (storage w) (reference r) = PromptInstance pid ptext :: stk →
  run_turn adapter now a w
  = ({| storage := with_jobs (complete id r (jobs_of w)) (storage w);
        outbox := outbox w ++ [say (reference r) (notice_text id);
                               say (reference r) (greeting (profile_of (storage w) (reference r)));
                               say (reference r) ptext;
                               say (act_reference a) ack_text];
        resumes := resumes w ++ [reference r] |}, None).
Proof.
  intros Ht Hc Hj Hpending Hreach Hcity Hstk.
  destruct w as [st out res]. cbn in Hj, Hstk, Hcity.
  start_message_turn Hc.
  - cbn. rewrite Hj. cbn. rewrite Hpending. cbn. rewrite Hreach. cbn.
    rewrite Hcity, Hstk. cbn.
    unfold beginDialog. rewrite dialogs_hello.
    unfold runStep, set_stepIndex, displayProfile. cbn.
    rewrite Hreach. cbn. rewrite Hreach. cbn.
    erewrite saveChanges_same by done. cbn.
    erewrite saveChanges_none by done.
    erewrite saveChanges_same by done.
    erewrite saveChanges_changed;
      [|done|cbn; eapply obj_set_changes; [done|destruct r; cbn in *; congruence]].
    reflexivity.
  - cbn. unfold say, notice_text, greeting, ack_text.
    rewrite <- !app_assoc. reflexivity.
Qed.

Lemma greeting_resumes_the_waiting_prompt_witness :
  let st := {| bot_jobs := jobs_of Fixture.one_job;
               user_profiles := {[ "alice" := {| name := Some "Ada"; city := Some "Seattle" |} ]};
               dialog_states := {[ "conv-a|emulator" :=
                                     [name_prompt; WaterfallInstance WHO_ARE_YOU 0] ]} |} in
  let w := {| storage := st; outbox := []; resumes := [] |} in
  outbox (run_turn Fixture.reachable 0 (message Fixture.bob "done 5") w).1
  = [say Fixture.alice "Your queued job 5 just completed.";
     say Fixture.alice "Hello, Ada from Seattle";
     say Fixture.alice "What is your name?";
     say Fixture.bob "Job completed. Notification sent."].
Proof.
  cbv zeta.
  rewrite (greeting_resumes_the_waiting_prompt Fixture.reachable 0
             (message Fixture.bob "done 5")
             {| storage :=
                  {| bot_jobs := jobs_of Fixture.one_job;
                     user_profiles :=
                       {[ "alice" := {| name := Some "Ada"; city := Some "Seattle" |} ]};
                     dialog_states :=
                       {[ "conv-a|emulator" :=
                            [name_prompt; WaterfallInstance WHO_ARE_YOU 0] ]} |};
                outbox := []; resumes := [] |}
             "5" {| completed := false; reference := Fixture.alice |}
             NAME_PROMPT "What is your name?" [WaterfallInstance WHO_ARE_YOU 0]);
    vm_compute; reflexivity.
Defined.

(* ===================================================================== *)
(** ** The conversation column of [show] *)
(* ===================================================================== *)

Lemma hd_split_prefix sep s :
  (sep ∉ list_ascii_of_string (List.hd EmptyString (split sep s)))
  ∧ (s = List.hd EmptyString (split sep s)
     ∨ ∃ rest, s = List.hd EmptyString (split sep s) ++ String sep rest).
Proof.
  induction s as [|c s [IH1 IH2]]; cbn.
  - split; [apply not_elem_of_nil|by left].
  - destruct (Ascii.eqb c sep) eqn:Hc.
    + apply Ascii.eqb_eq in Hc as ->. cbn.
      split; [apply not_elem_of_nil|]. right. by exists s.
    + apply Ascii.eqb_neq in Hc.
      pose proof (split_nonempty sep s) as Hne.
      destruct (split sep s) as [|w ws]; [done|]. cbn in *. split.
      * apply not_elem_of_cons. split; [congruence|done].
      * destruct IH2 as [-> | [rest ->]]; [by left|]. right. by exists rest.
Qed.

(** X18.  The conversation column of a row of [show] is the stored
    conversation id up to its first bar: the whole id when it has no bar,
    and never a text with a bar in it. *)
Theorem conversation_column_is_the_id_up_to_the_bar jobs key row :
  job_row jobs key = Some row →
  ∃ job shown,
    obj_get jobs key = Some job
    ∧ row = key ++ " &nbsp; | " ++ shown ++ " &nbsp; | " ++ show_bool (completed job)
    ∧ ("|"%char ∉ list_ascii_of_string shown)
    ∧ (conversation_id (reference job) = shown
       ∨ ∃ rest, conversation_id (reference job) = shown ++ String "|" rest).
Proof.
  unfold job_row. intros Hrow.
  destruct (obj_get jobs key) as [job|]; [|done]. cbn in Hrow.
  injection Hrow as <-.
  destruct (hd_split_prefix "|" (conversation_id (reference job))) as [H1 H2].
  by exists job, (List.hd EmptyString (split "|" (conversation_id (reference job)))).
Qed.

Lemma conversation_column_is_the_id_up_to_the_bar_witness :
  ∃ job shown,
    obj_get (jobs_of Fixture.one_job) "5" = Some job
    ∧ "5 &nbsp; | conv-a &nbsp; | false"
      = "5" ++ " &nbsp; | " ++ shown ++ " &nbsp; | " ++ show_bool (completed job)
    ∧ ("|"%char ∉ list_ascii_of_string shown)
    ∧ (conversation_id (reference job) = shown
       ∨ ∃ rest, conversation_id (reference job) = shown ++ String "|" rest).
Proof.
  apply (conversation_column_is_the_id_up_to_the_bar (jobs_of Fixture.one_job) "5"
           "5 &nbsp; | conv-a &nbsp; | false").
  reflexivity.
Defined.

(* ===================================================================== *)
(** ** A [jobCompleted] event with a text value *)
(* ===================================================================== *)

(** X22.  A [jobCompleted] event whose value is a text, such as the
    number in a JSON string, has the outcome of the message [done] with
    that text, whenever that message is the command DONE on the text
    itself (the text is one lower-case word that parses as an integer):
    the same storage, the same activities sent, the same resumes and the
    same error if one escapes. *)
Theorem jobCompleted_with_text_value adapter now ref s w :
  spec_classify (Some ("done " ++ s)) = DONE s →
  run_turn adapter now (jobCompleted ref (VStr s)) w
  = run_turn adapter now (message ref ("done " ++ s)) w.
Proof.
  intros Hc.
  assert (isNaN (parseInt (VStr s)) = false) as Hparse.
  { destruct (classify_cases (Some ("done " ++ s))) as (_ & _ & Hd & _).
    apply Hd in Hc as (_ & _ & Hp). unfold parses_as_integer in Hp.
    by destruct (isNaN _). }
  set (a_e := jobCompleted ref (VStr s)). set (a_m := message ref ("done " ++ s)).
  set (stk := stack_of (storage w) ref).
  set (x := Some {| loaded := stk; current := stk |}).
  unfold run_turn.
  rewrite (onTurn_event adapter now (start a_e w)) by done.
  rewrite (onTurn_message adapter now (start a_m w)) by done.
  change (act_text (activity (turn (start a_m w)))) with (Some ("done " ++ s)).
  rewrite Hc.
  change (act_value (activity (turn (start a_e w)))) with (VStr s).
  unfold event_turn, message_turn. rewrite Hparse.
  cbn [negb spec_dispatch].
  assert (same_caller a_m (start a_e w)) as Hcaller by done.
  destruct (framed_completeJob a_m x adapter (VStr s) (start a_e w) Hcaller)
    as [Hframed Hcaller'].
  destruct (framed_fixed a_e (completeJob adapter Turn (VStr s)) (start a_e w)
              (framed_completeJob a_e None adapter (VStr s)) eq_refl eq_refl)
    as [Hact Hconv].
  assert (createContext Turn (start a_m w) = Ok tt (reframe a_m x (start a_e w)))
    as Hcreate by reflexivity.
  cbn [mbind M_bind]. rewrite Hcreate. cbn [mbind M_bind]. rewrite Hframed.
  destruct (completeJob adapter Turn (VStr s) (start a_e w)) as [[] s1|e s1] eqn:Hrun;
    cbn [reframed final_state thrown] in *; [|done].
  apply completeJob_responds in Hrun. cbn. rewrite Hrun.
  change (skip (reframe a_m x s1)) with (Ok tt (reframe a_m x s1)). cbv beta iota.
  subst x.
  destruct (save_all_reframe a_e a_m stk s1 eq_refl Hact Hconv) as (s2 & -> & ->).
  reflexivity.
Qed.

Lemma jobCompleted_with_text_value_witness :
  run_turn Fixture.reachable 0 (jobCompleted Fixture.bob (VStr "5")) Fixture.one_job
  = run_turn Fixture.reachable 0 (message Fixture.bob "done 5") Fixture.one_job.
Proof.
  apply (jobCompleted_with_text_value Fixture.reachable 0 Fixture.bob "5"
           Fixture.one_job).
  reflexivity.
Defined.

(* ===================================================================== *)
(** ** Whose profile an answer goes to *)
(* ===================================================================== *)

(** X21.  [captureCity] stores the answer in the profile of the user who
    sends it and leaves the name of that profile as it is, whoever
    answered the name prompt of the conversation.  So a user with no
    stored name who answers the city prompt has the city stored and still
    no name, and the next job of that user to complete is greeted with
    the name printed as undefined. *)
Theorem greeting_can_lack_the_name adapter1 adapter2 now1 now2 a w ref t pid ptext id r :
  act_type a = Message →
  spec_classify (act_text a) = DONE id →
  t ≠ EmptyString →
  spec_classify (Some t) = UNRECOGNIZED →
  stack_of (storage w) ref = [PromptInstance pid ptext; WaterfallInstance WHO_ARE_YOU 1] →
  name (profile_of (storage w) ref) = None →
  obj_get (jobs_of w) id = Some r →
  completed r = false →
  reference r = ref →
  adapter2 ref = Reachable →
  let w1 := (run_turn adapter1 now1 (message ref t) w).1 in
  let w2 := (run_turn adapter2 now2 a w1).1 in
  profile_of (storage w1) ref = {| name := None; city := Some t |}
  ∧ sent_during w1 w2
    = [say ref ("Your queued job " ++ id ++ " just completed.");
       say ref ("Hello, undefined from " ++ t);
       say (act_reference a) "Job completed. Notification sent."].
Proof.
  intros Ht Hc Hne Hct Hstk Hname Hj Hpending Href Hreach w1 w2.
  destruct (answer_city adapter1 now1 (message ref t) w t pid ptext
              eq_refl eq_refl Hne Hct Hstk)
    as (_ & _ & _ & Hjobs1 & Hprof1 & Hstk1).
  fold w1 in Hjobs1, Hprof1, Hstk1. cbn [message act_reference] in Hprof1, Hstk1.
  rewrite Hname in Hprof1. split; [exact Hprof1|].
  subst w2. rewrite <- Href in *.
  rewrite (done_turn_hello adapter2 now2 a w1 id r Ht Hc); try done.
  - cbn [fst]. rewrite Hprof1. by apply sent_during_app.
  - by rewrite Hjobs1.
  - rewrite Hprof1. cbn [city]. by apply truthy_Some.
Qed.

Lemma greeting_can_lack_the_name_witness :
  let w := {| storage := with_stack Fixture.alice
                           [city_prompt; WaterfallInstance WHO_ARE_YOU 1]
                           (storage Fixture.one_job);
              outbox := []; resumes := [] |} in
  let w1 := (run_turn Fixture.reachable 1 (message Fixture.alice "Seattle") w).1 in
  let w2 := (run_turn Fixture.reachable 2 (message Fixture.bob "done 5") w1).1 in
  sent_during w1 w2
  = [say Fixture.alice "Your queued job 5 just completed.";
     say Fixture.alice "Hello, undefined from Seattle";
     say Fixture.bob "Job completed. Notification sent."].
Proof.
  cbv zeta.
  destruct (greeting_can_lack_the_name Fixture.reachable Fixture.reachable 1 2
              (message Fixture.bob "done 5")
              {| storage := with_stack Fixture.alice
                              [city_prompt; WaterfallInstance WHO_ARE_YOU 1]
                              (storage Fixture.one_job);
                 outbox := []; resumes := [] |}
              Fixture.alice "Seattle" CITY_PROMPT "What city are you from?" "5"
              {| completed := false; reference := Fixture.alice |}
              eq_refl eq_refl ltac:(discriminate) eq_refl eq_refl eq_refl
              eq_refl eq_refl eq_refl eq_refl)
    as [_ H].
  exact H.
Defined.
